(** * HiveCAD release script (release.py): model and verified properties

    The script bumps a semantic version, writes it into two JSON metadata
    files, commits them and creates and pushes a git tag.  This development
    embeds the script shallowly:

    - Python [str] values are [string]s whose characters are code points
      below 256; Python [int] values are [Z] (unbounded, as in Python);
      [int(s)] refuses a numeral of more than 4300 digits, the
      interpreter's default limit;
    - exceptions are values of [exn], carried by [result];
    - the effectful part (terminal, standard input, file system,
      subprocesses) is a state-and-exception monad over a [World].

    What the model takes for granted:

    - [print] succeeds: the terminal accepts every text, so printing
      raises no [UnicodeEncodeError] and no [OSError];
    - [str(n)] and the f-string of [format_version] return the decimal
      text of [n]; beyond 4300 digits Python raises [ValueError] there,
      which properties of [format_version] rule out by hypothesis;
    - a file is written as a whole or not at all: [open(path, "w")]
      either fails, leaving the file alone, or the dump that follows
      completes;
    - [fs] holds the files of the working tree, as [open] and
      [Path.exists] of the script find them.  The commands the script
      runs (git status, add, commit, remote, tag, push) change none of
      them: they write below [.git] only.  What they do to the index and
      the commits follows from the trace, see [repo_after]. *)

From Stdlib Require Import ZArith List Bool Ascii String Lia.
Import ListNotations.

Open Scope string_scope.
Open Scope Z_scope.

(** ** Characters and the string methods the script calls *)

Definition code (c : ascii) : Z := Z.of_N (N_of_ascii c).

(** [c.isdigit()] restricted to code points below 256: the ten ASCII
    digits are the only decimal digits there. *)
Definition is_digit (c : ascii) : bool := (48 <=? code c) && (code c <=? 57).

Definition digit_value (c : ascii) : Z := code c - 48.

(** White space skipped by [int()] around a numeral: tab, line feed,
    vertical tab, form feed, carriage return, space, and the two
    non-ASCII spaces below 256 (U+0085, U+00A0). *)
Definition is_int_space (c : ascii) : bool :=
  ((9 <=? code c) && (code c <=? 13)) || (code c =? 32)
  || (code c =? 133) || (code c =? 160).

(** White space removed by [str.strip()]: as above plus the four
    separators U+001C..U+001F. *)
Definition is_space (c : ascii) : bool :=
  is_int_space c || ((28 <=? code c) && (code c <=? 31)).

Fixpoint lstrip_by (p : ascii -> bool) (s : string) : string :=
  match s with
  | String c r => if p c then lstrip_by p r else s
  | EmptyString => EmptyString
  end.

Fixpoint rev_onto (s acc : string) : string :=
  match s with
  | String c r => rev_onto r (String c acc)
  | EmptyString => acc
  end.

Definition rstrip_by (p : ascii -> bool) (s : string) : string :=
  rev_onto (lstrip_by p (rev_onto s "")) "".

(** [s.strip()] *)
Definition strip (s : string) : string := rstrip_by is_space (lstrip_by is_space s).

(** [c.lower()] for one character below 256: A..Z and the upper-case
    letters of the Latin-1 supplement (U+00C0..U+00DE but U+00D7). *)
Definition lower_char (c : ascii) : ascii :=
  let n := code c in
  if ((65 <=? n) && (n <=? 90)) || ((192 <=? n) && (n <=? 222) && negb (n =? 215))
  then ascii_of_N (Z.to_N (n + 32)) else c.

(** [s.lower()] *)
Fixpoint lower (s : string) : string :=
  match s with
  | String c r => String (lower_char c) (lower r)
  | EmptyString => EmptyString
  end.

(** [s.lstrip("v")]: every leading [v] is dropped. *)
Definition lstrip_v (s : string) : string :=
  lstrip_by (fun c => Ascii.eqb c "v") s.

(** [s.split(".")]: the segments between the dots; never empty. *)
Fixpoint split_dot (s : string) : list string :=
  match s with
  | EmptyString => [EmptyString]
  | String c r =>
      if Ascii.eqb c "."
      then EmptyString :: split_dot r
      else match split_dot r with
           | h :: t => String c h :: t
           | [] => [String c EmptyString]
           end
  end.

(** ** Exceptions and results *)

Inductive exn : Type :=
| ValueError (msg : string)
| IndexError (msg : string)
| AttributeError (msg : string)
| TypeError (msg : string)
| OSError (msg : string)
| JSONDecodeError (msg : string)
| KeyError (key : string)
| EOFError.

(** [str(e)] *)
Definition exn_str (e : exn) : string :=
  match e with
  | ValueError m | IndexError m | AttributeError m | TypeError m
  | OSError m | JSONDecodeError m => m
  | KeyError k => "'" ++ k ++ "'"
  | EOFError => ""
  end.

Inductive result (A : Type) : Type :=
| OK (a : A)
| Err (e : exn).
Arguments OK {A} a.
Arguments Err {A} e.

Definition rbind {A B} (r : result A) (k : A -> result B) : result B :=
  match r with
  | OK a => k a
  | Err e => Err e
  end.

(** ** [int(s)] and [str(n)] *)

(** The digits of a numeral after its first one: decimal digits with
    single underscores between them.  [prev_us] records that the previous
    character was an underscore; the scan stops at the first character
    that is neither, and returns what is left. *)
Fixpoint scan_digits (prev_us : bool) (acc : Z) (s : string) : option (Z * string) :=
  match s with
  | String c r =>
      if is_digit c then scan_digits false (10 * acc + digit_value c) r
      else if Ascii.eqb c "_" then
        if prev_us then None else scan_digits true acc r
      else if prev_us then None else Some (acc, s)
  | EmptyString => if prev_us then None else Some (acc, EmptyString)
  end.

(** The number of decimal digits in a text. *)
Fixpoint count_digits (s : string) : Z :=
  match s with
  | String c r => (if is_digit c then 1 else 0) + count_digits r
  | EmptyString => 0
  end.

(** [sys.get_int_max_str_digits()], at its default. *)
Definition max_str_digits : Z := 4300.

(** An unsigned numeral followed by white space only.  The numeral may
    have [max_str_digits] digits at most, leading zeros included
    (underscores do not count). *)
Definition int_unsigned (s : string) : option Z :=
  match s with
  | String c r =>
      if is_digit c then
        match scan_digits false (digit_value c) r with
        | Some (v, rest) =>
            match lstrip_by is_int_space rest with
            | EmptyString => if count_digits s <=? max_str_digits then Some v else None
            | _ => None
            end
        | None => None
        end
      else None
  | EmptyString => None
  end.

(** [int(s)] in base ten: surrounding white space, an optional sign
    directly before the digits, leading zeros allowed, no more digits
    than the interpreter's limit.  [None] stands for the [ValueError]
    that [int] raises. *)
Definition int_of_str (s : string) : option Z :=
  match lstrip_by is_int_space s with
  | String c r =>
      if Ascii.eqb c "+" then int_unsigned r
      else if Ascii.eqb c "-" then option_map Z.opp (int_unsigned r)
      else int_unsigned (String c r)
  | EmptyString => None
  end.

Definition digit_char (d : Z) : ascii := ascii_of_N (Z.to_N (48 + d)).

(** The decimal digits of [n >= 0] in front of [acc]; [fuel] bounds the
    number of digits. *)
Fixpoint digits_of (fuel : nat) (n : Z) (acc : string) : string :=
  match fuel with
  | O => acc
  | S f =>
      let acc' := String (digit_char (n mod 10)) acc in
      if n <? 10 then acc' else digits_of f (n / 10) acc'
  end.

Definition str_of_nonneg (n : Z) : string :=
  digits_of (S (Z.to_nat (Z.log2 n))) n EmptyString.

(** The decimal text of [n], which [str(n)] and an f-string return for
    a number within the interpreter's limit of [max_str_digits] digits
    (beyond it they raise [ValueError]). *)
Definition str_of_Z (n : Z) : string :=
  if n <? 0 then String "-" (str_of_nonneg (- n)) else str_of_nonneg n.

(** ** The version parser and formatter (release.py, lines 91-104) *)

Definition Version : Type := Z * Z * Z.

(** [parts[i]] *)
Definition index (parts : list string) (i : nat) : result string :=
  match nth_error parts i with
  | Some p => OK p
  | None => Err (IndexError "list index out of range")
  end.

(** [int(s)] as a fallible computation. *)
Definition py_int (s : string) : result Z :=
  match int_of_str s with
  | Some z => OK z
  | None => Err (ValueError ("invalid literal for int() with base 10: " ++ s))
  end.

(** [parse_version]: the tuple is built left to right; both exceptions the
    body can raise are caught and replaced by one [ValueError]. *)
Definition parse_version (version_str : string) : result Version :=
  let version_str := lstrip_v version_str in
  let parts := split_dot version_str in
  match
    rbind (index parts 0) (fun p0 => rbind (py_int p0) (fun major =>
    rbind (index parts 1) (fun p1 => rbind (py_int p1) (fun minor =>
    rbind (index parts 2) (fun p2 => rbind (py_int p2) (fun patch =>
    OK (major, minor, patch)))))))
  with
  | OK v => OK v
  | Err (IndexError _) | Err (ValueError _) =>
      Err (ValueError ("Invalid version format: " ++ version_str))
  | Err e => Err e
  end.

Definition format_version (major minor patch : Z) : string :=
  str_of_Z major ++ "." ++ str_of_Z minor ++ "." ++ str_of_Z patch.

(** ** The increment calculation (release.py, main, lines 345-355)

    [increment_type] is what [ask_version_increment] returned: [None] or
    one of the three directive names. *)
Definition increment (major minor patch : Z) (increment_type : option string) : Version :=
  match increment_type with
  | Some t =>
      if String.eqb t "major" then (major + 1, 0, 0)
      else if String.eqb t "minor" then (major, minor + 1, 0)
      else if String.eqb t "patch" then (major, minor, patch + 1)
      else (major, minor, patch)
  | None => (major, minor, patch)
  end.

(** ** JSON documents as [json.load] returns them *)

#[warnings="-register-all"]
Inductive json : Type :=
| JNull
| JBool (b : bool)
| JInt (z : Z)
| JFloat (literal : string)
| JStr (s : string)
| JArr (items : list json)
| JObj (members : list (string * json)).

(** [type(v).__name__] *)
Definition type_name (v : json) : string :=
  match v with
  | JNull => "NoneType"
  | JBool _ => "bool"
  | JInt _ => "int"
  | JFloat _ => "float"
  | JStr _ => "str"
  | JArr _ => "list"
  | JObj _ => "dict"
  end.

Definition no_attribute (v : json) (attr : string) : exn :=
  AttributeError ("'" ++ type_name v ++ "' object has no attribute '" ++ attr ++ "'").

(** [d.get(key, default)] on the members of a dict. *)
Fixpoint dict_get (key : string) (members : list (string * json)) (default : json) : json :=
  match members with
  | (k, v) :: rest => if String.eqb k key then v else dict_get key rest default
  | [] => default
  end.

(** [key in d] *)
Fixpoint dict_has (key : string) (members : list (string * json)) : bool :=
  match members with
  | (k, _) :: rest => String.eqb k key || dict_has key rest
  | [] => false
  end.

(** [d[key] = v]: an existing key keeps its place, a new one goes last. *)
Fixpoint dict_set (key : string) (v : json) (members : list (string * json))
  : list (string * json) :=
  match members with
  | (k, old) :: rest =>
      if String.eqb k key then (k, v) :: rest else (k, old) :: dict_set key v rest
  | [] => [(key, v)]
  end.

(** [data.get("version", "0.0.0")] for whatever [json.load] returned. *)
Definition get_version_field (data : json) : result json :=
  match data with
  | JObj members => OK (dict_get "version" members (JStr "0.0.0"))
  | _ => Err (no_attribute data "get")
  end.

(** [data["version"] = new_version] for whatever [json.load] returned. *)
Definition set_version_field (data : json) (new_version : string) : result json :=
  match data with
  | JObj members => OK (JObj (dict_set "version" (JStr new_version) members))
  | JArr _ => Err (TypeError "list indices must be integers or slices, not str")
  | _ => Err (TypeError ("'" ++ type_name data ++ "' object does not support item assignment"))
  end.

(** [parse_version(v)] for a value that need not be a [str]: the first
    thing the function does is [v.lstrip("v")]. *)
Definition parse_version_of (v : json) : result Version :=
  match v with
  | JStr s => parse_version s
  | _ => Err (no_attribute v "lstrip")
  end.

(** The text of a value inside an f-string.  Only a [str] reaches one in
    this script (the version just parsed), and it is itself. *)
Definition json_str (v : json) : string :=
  match v with
  | JStr s => s
  | _ => type_name v
  end.

(** ** Paths *)

Definition Path : Type := string.

(** [p / name] for an absolute, normalised POSIX path [p]. *)
Definition joinpath (p : Path) (name : string) : Path :=
  if String.eqb p "/" then p ++ name else p ++ "/" ++ name.

Fixpoint name_from (s acc : string) : string :=
  match s with
  | String c r =>
      if Ascii.eqb c "/" then name_from r EmptyString
      else name_from r (acc ++ String c EmptyString)
  | EmptyString => acc
  end.

(** [p.name] *)
Definition path_name (p : Path) : string := name_from p EmptyString.

(** ** The world the script runs in *)

(** What a file holds, as far as [open] and [json.load] can tell. *)
Inductive FileContent : Type :=
| Unreadable (msg : string)   (* [open(path)] raises [OSError] *)
| NotJson (msg : string)      (* [json.load] raises [JSONDecodeError] *)
| Doc (data : json).

Record File : Type := mkFile {
  content : FileContent;
  write_error : option string   (* [open(path, "w")] raises [OSError] *)
}.

(** How the call [subprocess.run(cmd, capture_output=True, text=True,
    check=True)] ends:
    - [Completed]: it returns; the command exited with status 0 and its
      output was decoded to [stdout];
    - [CalledProcessError]: the command exited with another status, the
      exception carries the decoded [stderr];
    - [OtherException]: any other exception, with its text: the command
      could not be started, or its output could not be decoded. *)
Inductive ProcOutcome : Type :=
| Completed (stdout : string)
| CalledProcessError (stderr : string)
| OtherException (msg : string).

Inductive OutKind : Type := Header | Success | Info | Warning | Error | Plain.

(** What the script does to its surroundings, in order.  Texts are
    recorded without the ANSI colour sequences and blank lines. *)
Inductive Event : Type :=
| Out (kind : OutKind) (text : string)
| Prompt (text : string) (reply : option string)
| Cmd (cmd : list string) (ok : bool) (output : string)
| ReadFile (path : Path)
| WriteFile (path : Path) (written : option json).

Record World : Type := mkWorld {
  script_dir : Path;                 (* [Path(__file__).parent] *)
  stdin : list string;               (* the lines [input()] will read *)
  procs : nat -> ProcOutcome;        (* how the n-th call of [subprocess.run] ends *)
  spawned : nat;                     (* calls of [subprocess.run] so far *)
  fs : Path -> option File;          (* the files of the working tree *)
  trace : list Event
}.

(** A world at process start. *)
Definition boot (dir : Path) (lines : list string) (outcomes : nat -> ProcOutcome)
  (files : Path -> option File) : World :=
  mkWorld dir lines outcomes O files [].

(** ** The monad: state and exceptions *)

Definition M (A : Type) : Type := World -> result A * World.

Definition ret {A} (a : A) : M A := fun w => (OK a, w).

Definition raise {A} (e : exn) : M A := fun w => (Err e, w).

Definition bind {A B} (m : M A) (k : A -> M B) : M B :=
  fun w => match m w with
           | (OK a, w') => k a w'
           | (Err e, w') => (Err e, w')
           end.

(** [try: m  except Exception as e: ...]: every [exn] is an [Exception]. *)
Definition try {A} (m : M A) : M (result A) :=
  fun w => match m w with (r, w') => (OK r, w') end.

Definition lift {A} (r : result A) : M A := fun w => (r, w).

Declare Scope monad_scope.
Delimit Scope monad_scope with monad.
Notation "x <- m ;; k" := (bind m (fun x => k))
  (at level 61, m at next level, right associativity) : monad_scope.
Notation "m ;; k" := (bind m (fun _ => k))
  (at level 61, right associativity) : monad_scope.
Notation "' pat <- m ;; k" := (bind m (fun x => match x with pat => k end))
  (at level 61, pat pattern, m at next level, right associativity) : monad_scope.
Open Scope monad_scope.

(** Records an event.  Used for [print], it cannot fail: the terminal
    is taken to accept every text. *)
Definition emit (e : Event) : M unit :=
  fun w => (OK tt, mkWorld (script_dir w) (stdin w) (procs w) (spawned w) (fs w)
                           (trace w ++ [e])).

Definition print_header (text : string) : M unit := emit (Out Header text).
Definition print_success (text : string) : M unit := emit (Out Success text).
Definition print_info (text : string) : M unit := emit (Out Info text).
Definition print_warning (text : string) : M unit := emit (Out Warning text).
Definition print_error (text : string) : M unit := emit (Out Error text).
Definition print (text : string) : M unit := emit (Out Plain text).

(** [input(prompt)]: the next line of standard input, [EOFError] at its end. *)
Definition input (prompt : string) : M string :=
  fun w => match stdin w with
           | line :: rest =>
               (OK line, mkWorld (script_dir w) rest (procs w) (spawned w) (fs w)
                                 (trace w ++ [Prompt prompt (Some line)]))
           | [] =>
               (Err EOFError, mkWorld (script_dir w) [] (procs w) (spawned w) (fs w)
                                      (trace w ++ [Prompt prompt None]))
           end.

(** What [run_command] returns for each way the subprocess can end. *)
Definition run_result (o : ProcOutcome) : bool * string :=
  match o with
  | Completed stdout => (true, strip stdout)
  | CalledProcessError stderr => (false, strip stderr)
  | OtherException msg => (false, msg)
  end.

(** [subprocess.run(cmd, capture_output=True, text=True, check=True)]
    inside the [try] of [run_command].  The files of the working tree
    stay as they are: the commands of the script write below [.git]
    only. *)
Definition spawn (cmd : list string) : M (bool * string) :=
  fun w =>
    let r := run_result (procs w (spawned w)) in
    (OK r, mkWorld (script_dir w) (stdin w) (procs w) (S (spawned w)) (fs w)
                   (trace w ++ [Cmd cmd (fst r) (snd r)])).

Definition path_exists (p : Path) : M bool :=
  fun w => (OK (match fs w p with Some _ => true | None => false end), w).

(** [with open(p) as f: data = json.load(f)] *)
Definition load_json (p : Path) : M json :=
  emit (ReadFile p) ;;
  fun w => match fs w p with
           | None => (Err (OSError ("[Errno 2] No such file or directory: '" ++ p ++ "'")), w)
           | Some f =>
               match content f with
               | Unreadable msg => (Err (OSError msg), w)
               | NotJson msg => (Err (JSONDecodeError msg), w)
               | Doc data => (OK data, w)
               end
           end.

Definition set_file (p : Path) (f : File) (files : Path -> option File)
  : Path -> option File :=
  fun q => if String.eqb q p then Some f else files q.

(** [with open(p, "w") as f: json.dump(data, f, indent=2)] and the
    line feed written after it.
    The write succeeds or fails as a whole: when [open] raises, the
    file is left alone; otherwise the file holds [data] afterwards. *)
Definition dump_json (p : Path) (data : json) : M unit :=
  fun w =>
    match fs w p with
    | Some (mkFile _ (Some msg)) =>
        (Err (OSError msg), mkWorld (script_dir w) (stdin w) (procs w) (spawned w) (fs w)
                                    (trace w ++ [WriteFile p None]))
    | _ =>
        (OK tt, mkWorld (script_dir w) (stdin w) (procs w) (spawned w)
                        (set_file p (mkFile (Doc data) None) (fs w))
                        (trace w ++ [WriteFile p (Some data)]))
    end.

(** ** The script's functions (release.py, lines 57-304) *)

(** [run_command]: the description, when given, is announced first; every
    failure of the subprocess is turned into [(False, text)]. *)
Definition run_command (cmd : list string) (description : string) : M (bool * string) :=
  (if String.eqb description "" then ret tt else print_info description) ;;
  spawn cmd.

Definition get_current_version (package_json_path : Path) : M json :=
  data <- load_json package_json_path ;;
  lift (get_version_field data).

(** The loop of [ask_version_increment]: one line of input per turn.
    [fuel] is one more than the number of lines left, so the loop ends by
    a valid choice or by [EOFError] before the fuel does. *)
Fixpoint ask_choice (fuel : nat) : M (option string) :=
  match fuel with
  | O => raise EOFError
  | S f =>
      line <- input "Enter your choice (0-3): " ;;
      let choice := strip line in
      if String.eqb choice "0" then ret None
      else if String.eqb choice "1" then ret (Some "patch")
      else if String.eqb choice "2" then ret (Some "minor")
      else if String.eqb choice "3" then ret (Some "major")
      else print_error "Invalid choice. Please enter 0-3." ;; ask_choice f
  end.

Definition ask_version_increment : M (option string) :=
  print "What would you like to increment?" ;;
  print "  0) None (keep current version)" ;;
  print "  1) Patch version (third number)" ;;
  print "  2) Minor version (second number)" ;;
  print "  3) Major version (first number)" ;;
  fun w => ask_choice (S (List.length (stdin w))) w.

(** [response.strip().lower() == "y"] *)
Definition is_yes (response : string) : bool := String.eqb (lower (strip response)) "y".

Definition confirm_action (prompt : string) : M bool :=
  response <- input (prompt ++ " (y/n): ") ;;
  ret (is_yes response).

Definition commit_pending_changes : M bool :=
  print "Enter commit message:" ;;
  line <- input "Message: " ;;
  let commit_message := strip line in
  if String.eqb commit_message "" then
    print_warning "Empty commit message, skipping commit" ;; ret false
  else
    '(success, _) <- run_command ["git"; "add"; "-A"] "" ;;
    if negb success then print_error "Failed to stage changes" ;; ret false
    else
      '(success, _) <- run_command ["git"; "commit"; "-m"; commit_message] "" ;;
      if negb success then print_error "Failed to commit changes" ;; ret false
      else
        print_success ("Changes committed with message: " ++ commit_message) ;;
        ret true.

Definition check_git_status : M bool :=
  '(success, output) <- run_command ["git"; "status"; "--porcelain"] "" ;;
  if negb success then print_error "Failed to check git status" ;; ret false
  else if negb (String.eqb output "") then
    print_warning "Git working directory is not clean:" ;;
    print output ;;
    yes <- confirm_action "Would you like to commit these changes?" ;;
    if yes then commit_pending_changes
    else confirm_action "Continue without committing?"
  else ret true.

Definition check_git_remote : M bool :=
  '(success, output) <- run_command ["git"; "remote"; "-v"] "" ;;
  if negb success || String.eqb output "" then
    print_error "No git remote configured" ;; ret false
  else print_success "Git remote is configured" ;; ret true.

Definition update_json_version (file_path : Path) (new_version : string) : M bool :=
  r <- try (data <- load_json file_path ;;
            data <- lift (set_version_field data new_version) ;;
            dump_json file_path data ;;
            print_success ("Updated " ++ path_name file_path ++ " to version " ++ new_version)) ;;
  match r with
  | OK _ => ret true
  | Err e =>
      print_error ("Failed to update " ++ path_name file_path ++ ": " ++ exn_str e) ;;
      ret false
  end.

Definition git_add_and_commit (files : list string) (version : string) : M bool :=
  '(success, _) <- run_command (["git"; "add"] ++ files) "" ;;
  if negb success then print_error "Failed to stage files" ;; ret false
  else
    '(success, _) <- run_command ["git"; "commit"; "-m"; "chore: release v" ++ version] "" ;;
    if negb success then print_error "Failed to commit changes" ;; ret false
    else print_success "Files committed" ;; ret true.

(** The last two steps of [git_create_and_push_tag] (lines 255-274). *)
Definition create_and_push (tag : string) : M bool :=
  '(success, _) <- run_command ["git"; "tag"; tag] ("Creating tag " ++ tag ++ "...") ;;
  if negb success then print_error ("Failed to create tag " ++ tag) ;; ret false
  else
    '(success, _) <- run_command ["git"; "push"; "origin"; tag] ("Pushing tag " ++ tag ++ "...") ;;
    if negb success then print_error ("Failed to push tag " ++ tag) ;; ret false
    else print_success ("Tag " ++ tag ++ " created and pushed") ;; ret true.

Definition git_create_and_push_tag (version : string) : M bool :=
  let tag := "v" ++ version in
  '(success, output) <- run_command ["git"; "tag"; "-l"; tag] "" ;;
  if success && negb (String.eqb output "") then
    print_warning ("Tag " ++ tag ++ " already exists") ;;
    yes <- confirm_action "Do you want to delete and recreate it?" ;;
    if negb yes then ret false
    else
      '(success, _) <- run_command ["git"; "tag"; "-d"; tag] "" ;;
      if negb success then print_error ("Failed to delete tag " ++ tag) ;; ret false
      else
        print_success ("Deleted local tag " ++ tag) ;;
        '(success, _) <- run_command ["git"; "push"; "origin"; ":refs/tags/" ++ tag] "" ;;
        (if negb success then print_warning "Could not delete remote tag (may not exist)"
         else ret tt) ;;
        create_and_push tag
  else create_and_push tag.

(** [type_names[increment_type]] *)
Definition type_names (increment_type : string) : option string :=
  if String.eqb increment_type "major" then Some "MAJOR"
  else if String.eqb increment_type "minor" then Some "MINOR"
  else if String.eqb increment_type "patch" then Some "PATCH"
  else None.

Definition show_release_preview (current_version new_version : string)
  (increment_type : option string) : M unit :=
  print_header "RELEASE PREVIEW" ;;
  print ("Current Version: " ++ current_version) ;;
  print ("New Version: " ++ new_version) ;;
  match increment_type with
  | Some t =>
      if String.eqb t "" then print "Increment Type: NONE"
      else match type_names t with
           | Some name => print ("Increment Type: " ++ name)
           | None => raise (KeyError t)
           end
  | None => print "Increment Type: NONE"
  end ;;
  print "Release Process:" ;;
  print "  1. Update version in package.json" ;;
  print "  2. Update version in src-tauri/tauri.conf.json" ;;
  print "  3. Commit changes" ;;
  print ("  4. Create and push tag (v" ++ new_version ++ ")") ;;
  print "  5. GitHub Actions workflow will build and release".

(** The body of the [try] in [main] (lines 335-337): the current version
    as text and as numbers. *)
Definition read_current_version (package_json : Path) : M (string * Z * Z * Z) :=
  current_version <- get_current_version package_json ;;
  '(major, minor, patch) <- lift (parse_version_of current_version) ;;
  print_success ("Current version: " ++ json_str current_version) ;;
  ret (json_str current_version, major, minor, patch).

(** ** [main] (release.py, lines 306-394)

    The value returned is the exit code the script hands to [sys.exit]. *)
Definition main : M Z :=
  print_header "HiveCAD Release Script" ;;
  fun w =>
  let package_json := joinpath (script_dir w) "package.json" in
  let tauri_conf := joinpath (joinpath (script_dir w) "src-tauri") "tauri.conf.json" in
  (found <- path_exists package_json ;;
   if negb found then
     print_error ("package.json not found at " ++ package_json) ;; ret 1
   else
   found <- path_exists tauri_conf ;;
   if negb found then
     print_error ("tauri.conf.json not found at " ++ tauri_conf) ;; ret 1
   else
   print_success "Found required configuration files" ;;
   clean <- check_git_status ;;
   if negb clean then ret 1 else
   remote <- check_git_remote ;;
   if negb remote then ret 1 else
   r <- try (read_current_version package_json) ;;
   match r with
   | Err e => print_error ("Failed to parse version: " ++ exn_str e) ;; ret 1
   | OK (current_version, major, minor, patch) =>
       increment_type <- ask_version_increment ;;
       let '(major, minor, patch) := increment major minor patch increment_type in
       let new_version := format_version major minor patch in
       show_release_preview current_version new_version increment_type ;;
       proceed <- confirm_action ("Proceed with releasing v" ++ new_version ++ "?") ;;
       if negb proceed then print_info "Release cancelled" ;; ret 0 else
       print_header "UPDATING VERSIONS" ;;
       updated <- update_json_version package_json new_version ;;
       if negb updated then ret 1 else
       updated <- update_json_version tauri_conf new_version ;;
       if negb updated then ret 1 else
       print_header "COMMITTING CHANGES" ;;
       committed <- git_add_and_commit [package_json; tauri_conf] new_version ;;
       if negb committed then ret 1 else
       print_header "CREATING AND PUSHING TAG" ;;
       tagged <- git_create_and_push_tag new_version ;;
       if negb tagged then ret 1 else
       print_header "RELEASE INITIATED SUCCESSFULLY" ;;
       print_success ("Version v" ++ new_version ++ " has been released!") ;;
       print_info "GitHub Actions will now build and create the release automatically." ;;
       print_info "Check the Actions tab on GitHub for progress." ;;
       ret 0
   end) w.

(** [sys.exit(main())]: the status the process ends with.  An exception
    that leaves [main] ends the interpreter with status 1. *)
Definition exit_status (r : result Z) : Z :=
  match r with
  | OK code => code
  | Err _ => 1
  end.

(** ** Notions the properties are stated with *)

(** [format(parse(s))] *)
Definition format_parse (s : string) : result string :=
  rbind (parse_version s) (fun '(major, minor, patch) => OK (format_version major minor patch)).

Fixpoint all_digits (s : string) : bool :=
  match s with
  | String c r => is_digit c && all_digits r
  | EmptyString => true
  end.

(** A decimal numeral as [str] writes a non-negative integer: digits
    only, at least one, and no leading zero but for "0" itself. *)
Definition canonical_numeral (d : string) : bool :=
  match d with
  | String c r => all_digits d && (negb (Ascii.eqb c "0") || String.eqb r "")
  | EmptyString => false
  end.

(** A numeral short enough for [int] and [str] to convert. *)
Definition within_limit (d : string) : bool := count_digits d <=? max_str_digits.

Definition version_numeral (d : string) : bool := canonical_numeral d && within_limit d.

(** A well-formed version text "M.m.p": three canonical numerals, each
    within the limit on digits. *)
Definition well_formed (s : string) : bool :=
  match split_dot s with
  | [a; b; c] => version_numeral a && version_numeral b && version_numeral c
  | _ => false
  end.

(** The number a string of digits denotes, continuing from [acc]. *)
Fixpoint numeral_value (acc : Z) (d : string) : Z :=
  match d with
  | String c r => numeral_value (10 * acc + digit_value c) r
  | EmptyString => acc
  end.

Fixpoint join_dot (parts : list string) : string :=
  match parts with
  | [] => EmptyString
  | [a] => a
  | a :: rest => a ++ "." ++ join_dot rest
  end.

(** [p] holds of every character of [s]. *)
Fixpoint all_chars (p : ascii -> bool) (s : string) : bool :=
  match s with
  | String c r => p c && all_chars p r
  | EmptyString => true
  end.

(** Groups of digits with one underscore between neighbours. *)
Fixpoint join_us (groups : list string) : string :=
  match groups with
  | [] => EmptyString
  | [g] => g
  | g :: rest => g ++ "_" ++ join_us rest
  end.

(** The groups after the first, each behind its underscore. *)
Fixpoint tail_groups (groups : list string) : string :=
  match groups with
  | [] => EmptyString
  | g :: rest => String "_" (g ++ tail_groups rest)
  end.

(** One decimal digit or more. *)
Definition digit_group (g : string) : bool := negb (String.eqb g "") && all_digits g.

(** The texts that are integer literals in base ten, described by their
    shape: white space, an optional sign, groups of digits separated by
    single underscores with [max_str_digits] digits at most in all, white
    space. *)
Definition int_literal (s : string) : Prop :=
  exists before sign groups after,
    s = before ++ sign ++ join_us groups ++ after /\
    all_chars is_int_space before = true /\
    (sign = "" \/ sign = "+" \/ sign = "-") /\
    groups <> [] /\ forallb digit_group groups = true /\
    count_digits (join_us groups) <= max_str_digits /\
    all_chars is_int_space after = true.

(** A segment as the specification means a numeric one: decimal digits
    and nothing else. *)
Definition plain_number (segment : string) : bool := digit_group segment.

Fixpoint has_char (x : ascii) (s : string) : bool :=
  match s with
  | String c r => Ascii.eqb c x || has_char x r
  | EmptyString => false
  end.

(** The parser as the specification words it: at most one leading [v]
    is removed, and what remains must start with three numeric segments. *)
Definition strip_one_v (s : string) : string :=
  match s with
  | String c r => if Ascii.eqb c "v" then r else s
  | EmptyString => EmptyString
  end.

Definition parse_version_spec (s : string) : result Version :=
  let rest := strip_one_v s in
  match split_dot rest with
  | a :: b :: c :: _ =>
      match int_of_str a, int_of_str b, int_of_str c with
      | Some major, Some minor, Some patch => OK (major, minor, patch)
      | _, _, _ => Err (ValueError ("Invalid version format: " ++ rest))
      end
  | _ => Err (ValueError ("Invalid version format: " ++ rest))
  end.


(** ** Reading a trace *)

Definition package_json_of (dir : Path) : Path := joinpath dir "package.json".

Definition tauri_conf_of (dir : Path) : Path :=
  joinpath (joinpath dir "src-tauri") "tauri.conf.json".

Definition is_write (e : Event) : bool :=
  match e with WriteFile _ _ => true | _ => false end.

Definition not_write (e : Event) : bool := negb (is_write e).

(** An event that only shows text on the terminal. *)
Definition is_output (e : Event) : bool :=
  match e with Out _ _ => true | _ => false end.

(** [w'] is [w] after some more events, all of them in [P]. *)
Definition extends (P : Event -> bool) (w w' : World) : Prop :=
  exists evs, trace w' = (trace w ++ evs)%list /\ forallb P evs = true.

(** Every run of [m] adds only events in [P]. *)
Definition emits {A} (P : Event -> bool) (m : M A) : Prop :=
  forall w r w', m w = (r, w') -> extends P w w'.

(** The commands and prompts of a trace, without what was printed. *)
Definition interactions (evs : list Event) : list Event :=
  filter (fun e => negb (is_output e)) evs.

(** ** The tag step, as the specification words it

    [create_run tag evs r]: the tag is created and pushed; either failure
    aborts the step. *)
Inductive create_run (tag : string) : list Event -> result bool -> Prop :=
| create_failed : forall out,
    create_run tag [Cmd ["git"; "tag"; tag] false out] (OK false)
| push_failed : forall out1 out2,
    create_run tag [Cmd ["git"; "tag"; tag] true out1;
                    Cmd ["git"; "push"; "origin"; tag] false out2] (OK false)
| pushed : forall out1 out2,
    create_run tag [Cmd ["git"; "tag"; tag] true out1;
                    Cmd ["git"; "push"; "origin"; tag] true out2] (OK true).

(** [tag_run tag evs r]: the whole step.  The tag exists locally when
    listing it succeeds with some output; then the user is asked, and on
    acceptance the local tag is deleted (a failure aborts), the remote one
    is deleted whatever comes of it, and the tag is created and pushed. *)
Inductive tag_run (tag : string) : list Event -> result bool -> Prop :=
| tag_is_new : forall ok out rest r,
    ok = false \/ out = "" ->
    create_run tag rest r ->
    tag_run tag (Cmd ["git"; "tag"; "-l"; tag] ok out :: rest) r
| tag_no_answer : forall out,
    out <> "" ->
    tag_run tag [Cmd ["git"; "tag"; "-l"; tag] true out;
                 Prompt "Do you want to delete and recreate it? (y/n): " None]
            (Err EOFError)
| tag_kept : forall out response,
    out <> "" -> is_yes response = false ->
    tag_run tag [Cmd ["git"; "tag"; "-l"; tag] true out;
                 Prompt "Do you want to delete and recreate it? (y/n): " (Some response)]
            (OK false)
| tag_delete_failed : forall out response out1,
    out <> "" -> is_yes response = true ->
    tag_run tag [Cmd ["git"; "tag"; "-l"; tag] true out;
                 Prompt "Do you want to delete and recreate it? (y/n): " (Some response);
                 Cmd ["git"; "tag"; "-d"; tag] false out1]
            (OK false)
| tag_recreated : forall out response out1 ok2 out2 rest r,
    out <> "" -> is_yes response = true ->
    create_run tag rest r ->
    tag_run tag (Cmd ["git"; "tag"; "-l"; tag] true out
                 :: Prompt "Do you want to delete and recreate it? (y/n): " (Some response)
                 :: Cmd ["git"; "tag"; "-d"; tag] true out1
                 :: Cmd ["git"; "push"; "origin"; ":refs/tags/" ++ tag] ok2 out2
                 :: rest) r.

(** The files a trace shows as written, with what was written. *)
Definition writes_of (evs : list Event) : list (Path * json) :=
  flat_map (fun e => match e with
                     | WriteFile p (Some data) => [(p, data)]
                     | _ => []
                     end) evs.

(** The commands a trace shows as run, with their success. *)
Definition cmds_of (evs : list Event) : list (list string * bool) :=
  flat_map (fun e => match e with
                     | Cmd cmd ok _ => [(cmd, ok)]
                     | _ => []
                     end) evs.

(** The commit step, as the specification words it: the commands [cmds]
    start by staging exactly [files]; a failure there is the last command
    and the run ends with 1; otherwise the commit with the fixed message
    follows, and a failure there is the last command and the run ends
    with 1. *)
Definition staged_and_committed (files : list string) (version : string)
  (cmds : list (list string * bool)) (r : result Z) : Prop :=
  match cmds with
  | (add, staged) :: rest =>
      add = (["git"; "add"] ++ files)%list /\
      if staged then
        match rest with
        | (commit, committed) :: rest' =>
            commit = ["git"; "commit"; "-m"; "chore: release v" ++ version] /\
            (committed = false -> rest' = [] /\ r = OK 1)
        | [] => False
        end
      else rest = [] /\ r = OK 1
  | [] => False
  end.

(** The events after the last file written. *)
Definition after_writes (evs : list Event) : list Event :=
  fold_left (fun acc e => match e with
                          | WriteFile _ (Some _) => []
                          | _ => (acc ++ [e])%list
                          end) evs [].

(** [text.startswith(p)], with the prefix first. *)
Fixpoint starts_with (p text : string) : bool :=
  match p, text with
  | EmptyString, _ => true
  | String a p', String b text' => Ascii.eqb a b && starts_with p' text'
  | String _ _, EmptyString => false
  end.

(** Every run of [m] leaves the files as they were. *)
Definition keeps_fs {A} (m : M A) : Prop :=
  forall w r w', m w = (r, w') -> fs w' = fs w.

(** The report of a version that could not be read or parsed. *)
Definition is_parse_failure (e : Event) : bool :=
  match e with
  | Out Error text => starts_with "Failed to parse version: " text
  | _ => false
  end.

(** The report of the version read from package.json. *)
Definition is_current_version (e : Event) : bool :=
  match e with
  | Out Success text => starts_with "Current version: " text
  | _ => false
  end.

Definition is_remote_ok (e : Event) : bool :=
  match e with
  | Out Success text => String.eqb text "Git remote is configured"
  | _ => false
  end.

(** An event that says nothing about reading the version. *)
Definition silent_on_version (e : Event) : bool :=
  negb (is_parse_failure e) && negb (is_current_version e) && negb (is_remote_ok e).

(** ** How a run ends, read from its trace *)

(** The release was started: the last banner of [main]. *)
Definition is_released (e : Event) : bool :=
  match e with
  | Out Header text => String.eqb text "RELEASE INITIATED SUCCESSFULLY"
  | _ => false
  end.

(** The user declined the release confirmation. *)
Definition is_release_declined (e : Event) : bool :=
  match e with
  | Prompt text (Some response) =>
      starts_with "Proceed with releasing v" text && negb (is_yes response)
  | _ => false
  end.

(** The user declined one of the two other confirmations that end a run:
    going on with an unclean tree, and recreating an existing tag. *)
Definition is_declined_other (e : Event) : bool :=
  match e with
  | Prompt text (Some response) =>
      (String.eqb text "Continue without committing? (y/n): "
       || String.eqb text "Do you want to delete and recreate it? (y/n): ")
      && negb (is_yes response)
  | _ => false
  end.

(** A failed verification or command, as the script reports it. *)
Definition is_failure_report (e : Event) : bool :=
  match e with
  | Out Error text => negb (String.eqb text "Invalid choice. Please enter 0-3.")
  | _ => false
  end.

(** The release was carried out: the tag [v...] was pushed, the last
    thing the script does to the repository. *)
Definition is_tag_pushed (e : Event) : bool :=
  match e with
  | Cmd cmd ok _ =>
      String.eqb (nth 0 cmd "") "git" && String.eqb (nth 1 cmd "") "push"
      && String.eqb (nth 2 cmd "") "origin" && starts_with "v" (nth 3 cmd "")
      && Nat.eqb (List.length cmd) 4 && ok
  | _ => false
  end.

(** The two commands whose failure the script lets pass: listing the
    tag, and deleting the tag on the remote. *)
Definition may_fail (cmd : list string) : bool :=
  String.eqb (nth 0 cmd "") "git"
  && ((String.eqb (nth 1 cmd "") "tag" && String.eqb (nth 2 cmd "") "-l")
      || (String.eqb (nth 1 cmd "") "push" && String.eqb (nth 2 cmd "") "origin"
          && starts_with ":refs/tags/" (nth 3 cmd ""))).

(** A command failed, and not one of the two that may. *)
Definition is_failed_command (e : Event) : bool :=
  match e with
  | Cmd cmd ok _ => negb ok && negb (may_fail cmd)
  | _ => false
  end.

Definition not_final (e : Event) : bool :=
  negb (is_tag_pushed e) && negb (is_release_declined e).

Definition calm (e : Event) : bool :=
  not_final e && negb (is_declined_other e) && negb (is_failure_report e)
  && negb (is_failed_command e).

(** As [calm], but for the push of the tag. *)
Definition steady (e : Event) : bool :=
  negb (is_release_declined e) && negb (is_declined_other e)
  && negb (is_failure_report e) && negb (is_failed_command e).

(** ** A sample project, for running the model *)

Definition sample_files : Path -> option File :=
  set_file "/repo/package.json"
    (mkFile (Doc (JObj [("name", JStr "hivecad"); ("version", JStr "1.2.3")])) None)
    (set_file "/repo/src-tauri/tauri.conf.json"
       (mkFile (Doc (JObj [("version", JStr "1.2.3")])) None)
       (fun _ => None)).

(** A clean working tree with a remote; every command succeeds and no
    tag is listed. *)
Definition sample_procs (n : nat) : ProcOutcome :=
  match n with
  | 1%nat => Completed "origin  git@github.com:dafiiit/HiveCAD.git (fetch)"
  | _ => Completed ""
  end.

(** An unclean working tree; the remote is configured. *)
Definition unclean_procs (n : nat) : ProcOutcome :=
  match n with
  | 0%nat => Completed " M release.py"
  | _ => Completed "origin  git@github.com:dafiiit/HiveCAD.git (fetch)"
  end.

(** The sample project with a package.json that has no version. *)
Definition unversioned_files : Path -> option File :=
  set_file "/repo/package.json" (mkFile (Doc (JObj [("name", JStr "hivecad")])) None)
    sample_files.

(** The sample project with a package.json that holds a JSON array. *)
Definition array_files : Path -> option File :=
  set_file "/repo/package.json" (mkFile (Doc (JArr [])) None) sample_files.

Arguments is_yes : simpl never.

(** ** Further notions *)

(** [a < b] on version tuples, as Python compares tuples. *)
Definition version_lt (a b : Version) : bool :=
  let '(a1, a2, a3) := a in
  let '(b1, b2, b3) := b in
  (a1 <? b1) || ((a1 =? b1) && ((a2 <? b2) || ((a2 =? b2) && (a3 <? b3)))).

(** What the loop of [ask_version_increment] makes of one line of
    input: the value it returns for a valid choice, [None] for a line it
    refuses. *)
Definition choice_of (line : string) : option (option string) :=
  let choice := strip line in
  if String.eqb choice "0" then Some None
  else if String.eqb choice "1" then Some (Some "patch")
  else if String.eqb choice "2" then Some (Some "minor")
  else if String.eqb choice "3" then Some (Some "major")
  else None.

Definition refused_choice (line : string) : bool :=
  match choice_of line with
  | None => true
  | Some _ => false
  end.

(** What a refused line leaves in the trace. *)
Definition refusal (line : string) : list Event :=
  [Prompt "Enter your choice (0-3): " (Some line);
   Out Error "Invalid choice. Please enter 0-3."].

(** Whether the call of [subprocess.run] returned. *)
Definition completed (o : ProcOutcome) : bool :=
  match o with
  | Completed _ => true
  | _ => false
  end.

(** The values [ask_version_increment] can return. *)
Definition is_directive (increment_type : option string) : bool :=
  match increment_type with
  | None => true
  | Some t => String.eqb t "patch" || String.eqb t "minor" || String.eqb t "major"
  end.

(** The only exception [m] lets escape is the [EOFError] of an [input]
    at the end of standard input. *)
Definition eof_only {A} (m : M A) : Prop :=
  forall w e w', m w = (Err e, w') -> e = EOFError /\ stdin w' = [].

(** The user accepted the release confirmation. *)
Definition is_release_accepted (e : Event) : bool :=
  match e with
  | Prompt text (Some response) =>
      starts_with "Proceed with releasing v" text && is_yes response
  | _ => false
  end.

Definition any_event (e : Event) : bool := true.

Definition not_released (e : Event) : bool := negb (is_released e).

(** A release confirmation, if this is one, offers a version that comes
    from 0.0.0: the version itself or one of its three increments. *)
Definition offers_default (e : Event) : bool :=
  match e with
  | Prompt question _ =>
      negb (starts_with "Proceed with releasing v" question)
      || existsb (String.eqb question)
           ["Proceed with releasing v0.0.0? (y/n): ";
            "Proceed with releasing v0.0.1? (y/n): ";
            "Proceed with releasing v0.1.0? (y/n): ";
            "Proceed with releasing v1.0.0? (y/n): "]
  | _ => true
  end.

(** Whether a path holds a file with a JSON object in it. *)
Definition holds_object (f : option File) : bool :=
  match f with
  | Some (mkFile (Doc (JObj _)) _) => true
  | _ => false
  end.

(** A file was opened for reading. *)
Definition is_read (e : Event) : bool :=
  match e with ReadFile _ => true | _ => false end.

Definition not_read (e : Event) : bool := negb (is_read e).

(** ** The repository, as the commands of a run leave it

    What git keeps is not part of the [World]: it follows from the
    commands that were run.  [staged] are the paths whose changes are in
    the index, [unstaged] the changed paths that are not, [commits] the
    commits made, each with its message and the paths it holds. *)
Record Repo : Type := mkRepo {
  staged : list string;
  unstaged : list string;
  commits : list (string * list string)
}.

Definition listed (p : string) (paths : list string) : bool :=
  existsb (String.eqb p) paths.

Definition stage (p : string) (paths : list string) : list string :=
  if listed p paths then paths else (paths ++ [p])%list.

Definition stage_all (new paths : list string) : list string :=
  fold_left (fun acc p => stage p acc) new paths.

(** What a git command that succeeds does to the repository:
    [git add -A] stages every change, [git add paths] the changes of
    these paths, [git commit -m message] commits the index; the
    other commands of the script leave index and commits alone. *)
Definition git_effect (cmd : list string) (r : Repo) : Repo :=
  if String.eqb (nth 0 cmd "") "git" && String.eqb (nth 1 cmd "") "add" then
    if Nat.eqb (List.length cmd) 3 && String.eqb (nth 2 cmd "") "-A"
    then mkRepo (stage_all (unstaged r) (staged r)) [] (commits r)
    else mkRepo (stage_all (filter (fun p => listed p (unstaged r)) (skipn 2 cmd)) (staged r))
                (filter (fun p => negb (listed p (skipn 2 cmd))) (unstaged r))
                (commits r)
  else if Nat.eqb (List.length cmd) 4 && String.eqb (nth 0 cmd "") "git"
          && String.eqb (nth 1 cmd "") "commit" && String.eqb (nth 2 cmd "") "-m"
  then mkRepo [] (unstaged r) (commits r ++ [(nth 3 cmd "", staged r)])
  else r.

(** The effect of a command as the trace records it. *)
Definition cmd_step (r : Repo) (c : list string * bool) : Repo :=
  if snd c then git_effect (fst c) r else r.

(** One event of a run: a command that succeeded has its effect, a file
    the script has written is a changed path. *)
Definition repo_step (r : Repo) (e : Event) : Repo :=
  match e with
  | Cmd cmd true _ => git_effect cmd r
  | WriteFile p (Some _) => mkRepo (staged r) (stage p (unstaged r)) (commits r)
  | _ => r
  end.

Definition repo_after (evs : list Event) (r : Repo) : Repo := fold_left repo_step evs r.

(** [git add -A] was run and succeeded. *)
Definition add_all_cmd (c : list string * bool) : bool :=
  Nat.eqb (List.length (fst c)) 3 && snd c && String.eqb (nth 0 (fst c) "") "git"
  && String.eqb (nth 1 (fst c) "") "add" && String.eqb (nth 2 (fst c) "") "-A".

Definition is_add_all (e : Event) : bool :=
  match e with
  | Cmd cmd ok _ => add_all_cmd (cmd, ok)
  | _ => false
  end.

(** What the index holds when the release is staged: what was staged
    when the run began, or nothing when the run has committed the pending
    changes. *)
Definition index_before (evs : list Event) (r : Repo) : list string :=
  if existsb is_add_all evs then [] else staged r.

(** The commands after the last write start with a staging and a commit
    that both succeeded. *)
Definition release_commit_made (cmds : list (list string * bool)) : bool :=
  match cmds with
  | (_, true) :: (_, true) :: _ => true
  | _ => false
  end.

(** How the first [n] calls of [subprocess.run] end. *)
Definition run_flags (outcomes : nat -> ProcOutcome) (n : nat) : list bool :=
  map (fun i => completed (outcomes i)) (seq 0 n).

(** The commands on record are the subprocesses run, each with the
    outcome of its run. *)
Definition synced_on (outcomes : nat -> ProcOutcome) (n : nat) (evs : list Event) : Prop :=
  map snd (cmds_of evs) = run_flags outcomes n.

Definition synced (w : World) : Prop := synced_on (procs w) (spawned w) (trace w).

(** Every run of [m] keeps the record of commands in step with the
    subprocesses run. *)
Definition syncs {A} (m : M A) : Prop :=
  forall w r w', m w = (r, w') -> procs w' = procs w /\ (synced w -> synced w').

(** An event that leaves the repository alone. *)
Definition no_repo_effect (e : Event) : bool :=
  match e with
  | Cmd cmd _ _ =>
      negb (String.eqb (nth 0 cmd "") "git"
            && (String.eqb (nth 1 cmd "") "add" || String.eqb (nth 1 cmd "") "commit"))
  | WriteFile _ (Some _) => false
  | _ => true
  end.

(** A run with something staged beforehand: the tree is not clean, a
    remote is configured, no tag is listed, every command succeeds. *)
Definition staged_procs (n : nat) : ProcOutcome :=
  match n with
  | 0%nat => Completed "A  README.md"
  | 1%nat => Completed "origin  git@github.com:dafiiit/HiveCAD.git (fetch)"
  | _ => Completed ""
  end.
(* ------------------------------------------------------------------ *)
(** * Properties *)

(** ** Scenarios of the specification, run on the model *)

Example parse_0_1_5 : parse_version "0.1.5" = OK (0, 1, 5).
Proof. reflexivity. Qed.

Example parse_v0_9_9 : parse_version "v0.9.9" = OK (0, 9, 9).
Proof. reflexivity. Qed.

Example format_1_3_0 : format_version 1 3 0 = "1.3.0".
Proof. reflexivity. Qed.

Example parse_four_segments : parse_version "1.2.3.4" = OK (1, 2, 3).
Proof. reflexivity. Qed.

Example parse_two_segments :
  parse_version "1.2" = Err (ValueError "Invalid version format: 1.2").
Proof. reflexivity. Qed.

(** ** The increment calculation *)

(** C1: for every triple (M, m, p) the calculation gives (M+1, 0, 0) for
    major, (M, m+1, 0) for minor, (M, m, p+1) for patch, and (M, m, p)
    unchanged for none. *)
Theorem increment_correct :
  forall M m p : Z,
    increment M m p (Some "major") = (M + 1, 0, 0) /\
    increment M m p (Some "minor") = (M, m + 1, 0) /\
    increment M m p (Some "patch") = (M, m, p + 1) /\
    increment M m p None = (M, m, p).
Proof. intros M m p. repeat split. Qed.

(** ** Characters *)

Lemma code_range : forall c, 0 <= code c < 256.
Proof.
  intro c. unfold code.
  pose proof (N_ascii_bounded c) as H. lia.
Qed.

Lemma code_inj : forall c d, code c = code d -> c = d.
Proof.
  intros c d H. unfold code in H.
  rewrite <- (ascii_N_embedding c), <- (ascii_N_embedding d).
  f_equal. lia.
Qed.

Lemma ascii_eqb_code : forall c d, Ascii.eqb c d = (code c =? code d).
Proof.
  intros c d. destruct (Ascii.eqb_spec c d) as [->|N].
  - now rewrite Z.eqb_refl.
  - symmetry. apply Z.eqb_neq. intro E. apply N. now apply code_inj.
Qed.

Lemma is_digit_code : forall c, is_digit c = true <-> 48 <= code c <= 57.
Proof. intro c. unfold is_digit. rewrite andb_true_iff, !Z.leb_le. tauto. Qed.

Lemma digit_value_range : forall c, is_digit c = true -> 0 <= digit_value c <= 9.
Proof. intros c H. apply is_digit_code in H. unfold digit_value. lia. Qed.

Lemma digit_char_value : forall c, is_digit c = true -> digit_char (digit_value c) = c.
Proof.
  intros c H. unfold digit_char, digit_value, code.
  replace (48 + (Z.of_N (N_of_ascii c) - 48)) with (Z.of_N (N_of_ascii c)) by lia.
  rewrite N2Z.id. apply ascii_N_embedding.
Qed.

Lemma digit_not_space : forall c, is_digit c = true -> is_int_space c = false.
Proof.
  intros c H. apply is_digit_code in H. unfold is_int_space.
  repeat (apply orb_false_iff; split);
    try (apply andb_false_iff; right); try apply Z.leb_gt; try apply Z.eqb_neq; lia.
Qed.

Lemma digit_not : forall c x, is_digit c = true -> is_digit x = false -> Ascii.eqb c x = false.
Proof.
  intros c x H N. destruct (Ascii.eqb_spec c x) as [->|]; congruence.
Qed.

(** ** Splitting on dots *)

Lemma split_dot_nonempty : forall s, split_dot s <> [].
Proof.
  induction s as [|c r IH]; simpl.
  - discriminate.
  - destruct (Ascii.eqb c "."); [discriminate|].
    destruct (split_dot r); discriminate.
Qed.

Lemma split_dot_cons_other :
  forall c r, Ascii.eqb c "." = false ->
    exists h t, split_dot r = h :: t /\ split_dot (String c r) = String c h :: t.
Proof.
  intros c r H. simpl. rewrite H.
  destruct (split_dot r) as [|h t] eqn:E.
  - now apply split_dot_nonempty in E.
  - now exists h, t.
Qed.

Lemma join_split_dot : forall s, join_dot (split_dot s) = s.
Proof.
  induction s as [|c r IH]; simpl; [reflexivity|].
  destruct (Ascii.eqb_spec c ".") as [->|N].
  - destruct (split_dot r) as [|h t] eqn:E.
    + now apply split_dot_nonempty in E.
    + simpl. simpl in IH. now rewrite IH.
  - destruct (split_dot r) as [|h t] eqn:E.
    + now apply split_dot_nonempty in E.
    + destruct t; simpl in *; now rewrite IH.
Qed.

Lemma split_dot_length_lstrip_v :
  forall s, List.length (split_dot (lstrip_v s)) = List.length (split_dot s).
Proof.
  unfold lstrip_v. induction s as [|c r IH]; [reflexivity|].
  cbn [lstrip_by]. destruct (Ascii.eqb_spec c "v") as [->|N]; [|reflexivity].
  rewrite IH.
  destruct (split_dot_cons_other "v" r eq_refl) as (h & t & E1 & E2).
  now rewrite E1, E2.
Qed.

(** ** Stripping the prefix *)

Lemma lstrip_v_other :
  forall c r, Ascii.eqb c "v" = false -> lstrip_v (String c r) = String c r.
Proof. intros c r H. unfold lstrip_v. simpl. now rewrite H. Qed.

Lemma lstrip_v_v : forall s, lstrip_v (String "v" s) = lstrip_v s.
Proof. reflexivity. Qed.

(** ** Numerals *)

Lemma numeral_value_snoc :
  forall d acc c,
    numeral_value acc (d ++ String c EmptyString) = 10 * numeral_value acc d + digit_value c.
Proof.
  induction d as [|x r IH]; intros acc c; cbn [numeral_value append];
    [reflexivity|apply IH].
Qed.

Lemma numeral_value_ge :
  forall d acc, all_digits d = true -> 0 <= acc -> acc <= numeral_value acc d.
Proof.
  induction d as [|c r IH]; intros acc H Hacc; cbn [numeral_value]; [lia|].
  cbn [all_digits] in H. apply andb_true_iff in H as [Hc Hr].
  pose proof (digit_value_range c Hc).
  specialize (IH (10 * acc + digit_value c) Hr). lia.
Qed.

Lemma all_digits_snoc :
  forall d c, all_digits (d ++ String c EmptyString) = all_digits d && is_digit c.
Proof.
  induction d as [|x r IH]; intro c; simpl.
  - now rewrite andb_true_r.
  - now rewrite IH, andb_assoc.
Qed.

Lemma string_snoc :
  forall c r, exists d x, String c r = d ++ String x EmptyString.
Proof.
  intros c r. revert c. induction r as [|y r IH]; intro c.
  - now exists EmptyString, c.
  - destruct (IH y) as (d & x & E). exists (String c d), x. simpl. now rewrite E.
Qed.

Lemma append_assoc_snoc :
  forall d c acc, (d ++ String c EmptyString) ++ acc = d ++ String c acc.
Proof. induction d as [|x r IH]; intros c acc; simpl; [reflexivity|now rewrite IH]. Qed.

Lemma scan_all_digits :
  forall d acc, all_digits d = true ->
    scan_digits false acc d = Some (numeral_value acc d, EmptyString).
Proof.
  induction d as [|c r IH]; intros acc H; cbn [scan_digits numeral_value]; [reflexivity|].
  cbn [all_digits] in H. apply andb_true_iff in H as [Hc Hr]. rewrite Hc. now apply IH.
Qed.

Lemma int_unsigned_digits :
  forall c r, all_digits (String c r) = true ->
    within_limit (String c r) = true ->
    int_unsigned (String c r) = Some (numeral_value 0 (String c r)).
Proof.
  intros c r H L. pose proof H as H'. cbn [all_digits] in H'.
  apply andb_true_iff in H' as [Hc Hr].
  unfold int_unsigned. rewrite Hc, (scan_all_digits r _ Hr).
  cbn [lstrip_by numeral_value]. unfold within_limit in L. rewrite L. reflexivity.
Qed.

Lemma int_of_str_digits :
  forall c r, all_digits (String c r) = true ->
    within_limit (String c r) = true ->
    int_of_str (String c r) = Some (numeral_value 0 (String c r)).
Proof.
  intros c r H L. pose proof H as H'. cbn [all_digits] in H'.
  apply andb_true_iff in H' as [Hc Hr].
  unfold int_of_str. cbn [lstrip_by]. rewrite (digit_not_space c Hc).
  rewrite (digit_not c "+" Hc eq_refl), (digit_not c "-" Hc eq_refl).
  now apply int_unsigned_digits.
Qed.

(** Printing the value of a numeral without leading zero gives the
    numeral back. *)
Lemma digits_of_numeral :
  forall fuel c r acc,
    all_digits (String c r) = true ->
    Ascii.eqb c "0" = false ->
    numeral_value 0 (String c r) < 2 ^ Z.of_nat fuel ->
    digits_of fuel (numeral_value 0 (String c r)) acc = String c r ++ acc.
Proof.
  induction fuel as [|f IH]; intros c r acc Hd Hz Hlt.
  - exfalso. cbn [all_digits] in Hd. apply andb_true_iff in Hd as [Hc Hr].
    assert (1 <= digit_value c).
    { pose proof (proj1 (is_digit_code c) Hc). rewrite ascii_eqb_code in Hz.
      apply Z.eqb_neq in Hz. change (code "0") with 48 in Hz. unfold digit_value. lia. }
    cbn [numeral_value] in Hlt.
    pose proof (numeral_value_ge r (10 * 0 + digit_value c) Hr ltac:(lia)).
    change (2 ^ Z.of_nat 0) with 1 in Hlt. lia.
  - destruct (string_snoc c r) as (d & x & E). rewrite E in *.
    rewrite all_digits_snoc in Hd. apply andb_true_iff in Hd as [Hd Hx].
    rewrite numeral_value_snoc in *.
    pose proof (digit_value_range x Hx) as Rx.
    cbn [digits_of].
    replace ((10 * numeral_value 0 d + digit_value x) mod 10) with (digit_value x)
      by (symmetry; rewrite Z.add_comm, Z.mul_comm, Z.mod_add by lia; apply Z.mod_small; lia).
    replace ((10 * numeral_value 0 d + digit_value x) / 10) with (numeral_value 0 d)
      by (symmetry; rewrite Z.add_comm, Z.mul_comm, Z.div_add by lia;
          rewrite Z.div_small by lia; lia).
    rewrite (digit_char_value x Hx), append_assoc_snoc.
    destruct d as [|c' r'].
    + cbn [append numeral_value] in *. injection E as -> _.
      destruct (10 * 0 + digit_value x <? 10) eqn:L; [reflexivity|].
      apply Z.ltb_ge in L. lia.
    + cbn [append] in E. injection E as <- _.
      assert (1 <= numeral_value 0 (String c r')) as Hge.
      { cbn [all_digits] in Hd. apply andb_true_iff in Hd as [Hc Hr].
        pose proof (proj1 (is_digit_code c) Hc). rewrite ascii_eqb_code in Hz.
        apply Z.eqb_neq in Hz. change (code "0") with 48 in Hz.
        cbn [numeral_value].
        pose proof (numeral_value_ge r' (10 * 0 + digit_value c) Hr) as G.
        unfold digit_value in *. lia. }
      destruct (10 * numeral_value 0 (String c r') + digit_value x <? 10) eqn:L.
      * apply Z.ltb_lt in L. lia.
      * apply IH; trivial.
        rewrite Nat2Z.inj_succ, Z.pow_succ_r in Hlt by lia. lia.
Qed.

Lemma str_of_Z_numeral :
  forall d, canonical_numeral d = true -> str_of_Z (numeral_value 0 d) = d.
Proof.
  intros [|c r] H; [discriminate|].
  unfold canonical_numeral in H. apply andb_true_iff in H as [Hd Hz].
  assert (0 <= numeral_value 0 (String c r)) as Hnn
    by (apply numeral_value_ge; [assumption|lia]).
  unfold str_of_Z. destruct (numeral_value 0 (String c r) <? 0) eqn:L;
    [apply Z.ltb_lt in L; lia|clear L].
  destruct (Ascii.eqb_spec c "0") as [->|N].
  - simpl in Hz. apply String.eqb_eq in Hz. subst r. reflexivity.
  - assert (Ascii.eqb c "0" = false) as Hc by (now apply Ascii.eqb_neq).
    unfold str_of_nonneg.
    rewrite (digits_of_numeral _ c r EmptyString Hd Hc).
    + clear. induction (String c r) as [|x s IH]; simpl; [reflexivity|now rewrite IH].
    + assert (0 < numeral_value 0 (String c r)) as Hpos.
      { cbn [all_digits] in Hd. apply andb_true_iff in Hd as [Hc' Hr].
        pose proof (proj1 (is_digit_code c) Hc'). rewrite ascii_eqb_code in Hc.
        apply Z.eqb_neq in Hc. change (code "0") with 48 in Hc.
        cbn [numeral_value].
        pose proof (numeral_value_ge r (10 * 0 + digit_value c) Hr) as G.
        unfold digit_value in *. lia. }
      pose proof (Z.log2_spec _ Hpos) as [_ Hup].
      rewrite Nat2Z.inj_succ, Z2Nat.id by apply Z.log2_nonneg. exact Hup.
Qed.

(** ** The version parser *)

(** What [parse_version] computes, case by case. *)
Lemma parse_version_cases :
  forall s,
    parse_version s =
    match split_dot (lstrip_v s) with
    | a :: b :: c :: _ =>
        match int_of_str a, int_of_str b, int_of_str c with
        | Some major, Some minor, Some patch => OK (major, minor, patch)
        | _, _, _ => Err (ValueError ("Invalid version format: " ++ lstrip_v s))
        end
    | _ => Err (ValueError ("Invalid version format: " ++ lstrip_v s))
    end.
Proof.
  intro s. unfold parse_version, index, py_int.
  destruct (split_dot (lstrip_v s)) as [|a [|b [|c rest]]]; cbn [nth_error rbind];
    try reflexivity.
  - destruct (int_of_str a); reflexivity.
  - destruct (int_of_str a); cbn [rbind]; [|reflexivity].
    destruct (int_of_str b); reflexivity.
  - destruct (int_of_str a); cbn [rbind]; [|reflexivity].
    destruct (int_of_str b); cbn [rbind]; [|reflexivity].
    destruct (int_of_str c); reflexivity.
Qed.

Lemma parse_version_ok_inv :
  forall s major minor patch,
    parse_version s = OK (major, minor, patch) ->
    exists a b c rest,
      split_dot (lstrip_v s) = a :: b :: c :: rest /\
      int_of_str a = Some major /\ int_of_str b = Some minor /\ int_of_str c = Some patch.
Proof.
  intros s major minor patch H. rewrite parse_version_cases in H.
  destruct (split_dot (lstrip_v s)) as [|a [|b [|c rest]]]; try discriminate.
  destruct (int_of_str a) eqn:Ea; try discriminate.
  destruct (int_of_str b) eqn:Eb; try discriminate.
  destruct (int_of_str c) eqn:Ec; try discriminate.
  injection H as -> -> ->. now exists a, b, c, rest.
Qed.

(** The parser raises nothing but [ValueError]. *)
Lemma parse_version_error :
  forall s e, parse_version s = Err e ->
    e = ValueError ("Invalid version format: " ++ lstrip_v s).
Proof.
  intros s e H. rewrite parse_version_cases in H.
  destruct (split_dot (lstrip_v s)) as [|a [|b [|c rest]]]; try congruence.
  destruct (int_of_str a), (int_of_str b), (int_of_str c); congruence.
Qed.

(** ** Integer literals *)

Lemma all_chars_app :
  forall p a b, all_chars p (a ++ b) = all_chars p a && all_chars p b.
Proof.
  intros p. induction a as [|c r IH]; intro b; cbn [append all_chars]; [reflexivity|].
  now rewrite IH, andb_assoc.
Qed.

Lemma count_digits_app :
  forall a b, count_digits (a ++ b) = count_digits a + count_digits b.
Proof.
  induction a as [|c r IH]; intro b; cbn [append count_digits]; [reflexivity|].
  rewrite IH. lia.
Qed.

Lemma count_digits_nonneg : forall s, 0 <= count_digits s.
Proof.
  induction s as [|c r IH]; cbn [count_digits]; [lia|]. destruct (is_digit c); lia.
Qed.

Lemma count_digits_space : forall s, all_chars is_int_space s = true -> count_digits s = 0.
Proof.
  induction s as [|c r IH]; intro H; [reflexivity|].
  cbn [all_chars] in H. apply andb_true_iff in H as [Hc Hr].
  cbn [count_digits]. rewrite (IH Hr).
  destruct (is_digit c) eqn:D; [|reflexivity].
  now rewrite (digit_not_space c D) in Hc.
Qed.

Lemma string_app_nil_r : forall s : string, s ++ "" = s.
Proof. induction s as [|c r IH]; cbn; [reflexivity|now rewrite IH]. Qed.

Lemma string_app_assoc3 : forall a b c : string, (a ++ b) ++ c = a ++ b ++ c.
Proof. induction a as [|x a IH]; intros b c; cbn; [reflexivity|now rewrite IH]. Qed.

(** What [lstrip] removes and what it leaves. *)
Lemma lstrip_by_split :
  forall p s, exists before,
    s = before ++ lstrip_by p s /\ all_chars p before = true.
Proof.
  intros p. induction s as [|c r IH].
  - now exists EmptyString.
  - cbn [lstrip_by]. destruct (p c) eqn:E.
    + destruct IH as (before & Hs & Hb). exists (String c before). split.
      * cbn [append]. now rewrite <- Hs.
      * cbn [all_chars]. now rewrite E, Hb.
    + now exists EmptyString.
Qed.

Lemma lstrip_by_app :
  forall p before c r,
    all_chars p before = true -> p c = false ->
    lstrip_by p (before ++ String c r) = String c r.
Proof.
  intros p. induction before as [|x before IH]; intros c r Hb Hc.
  - cbn [append lstrip_by]. now rewrite Hc.
  - cbn [all_chars] in Hb. apply andb_true_iff in Hb as [Hx Hb].
    cbn [append lstrip_by]. rewrite Hx. now apply IH.
Qed.

Lemma lstrip_by_all : forall p s, all_chars p s = true -> lstrip_by p s = "".
Proof.
  intros p. induction s as [|c r IH]; intro H; [reflexivity|].
  cbn [all_chars] in H. apply andb_true_iff in H as [Hc Hr].
  cbn [lstrip_by]. rewrite Hc. now apply IH.
Qed.

Lemma lstrip_by_empty_all : forall p s, lstrip_by p s = "" -> all_chars p s = true.
Proof.
  intros p. induction s as [|c r IH]; intro H; [reflexivity|].
  cbn [lstrip_by] in H. destruct (p c) eqn:E; [|discriminate].
  cbn [all_chars]. rewrite E. now apply IH.
Qed.

Lemma join_us_cons :
  forall groups g, join_us (g :: groups) = g ++ tail_groups groups.
Proof.
  induction groups as [|g' rest IH]; intro g.
  - cbn [join_us tail_groups]. now rewrite string_app_nil_r.
  - change (join_us (g :: g' :: rest)) with (g ++ "_" ++ join_us (g' :: rest)).
    rewrite IH. reflexivity.
Qed.

Lemma space_not_digit : forall c, is_int_space c = true -> is_digit c = false.
Proof.
  intros c H. destruct (is_digit c) eqn:D; [|reflexivity].
  now rewrite (digit_not_space c D) in H.
Qed.

Lemma space_not_underscore : forall c, is_int_space c = true -> Ascii.eqb c "_" = false.
Proof.
  intros c H. destruct (Ascii.eqb_spec c "_") as [->|_]; [discriminate H|reflexivity].
Qed.

(** What [scan_digits] has read when it succeeds. *)
Lemma scan_digits_groups :
  forall s prev acc v rest,
    scan_digits prev acc s = Some (v, rest) ->
    exists d groups,
      s = d ++ tail_groups groups ++ rest /\
      all_digits d = true /\ forallb digit_group groups = true /\
      (prev = true -> d <> "").
Proof.
  induction s as [|c r IH]; intros prev acc v rest H; cbn [scan_digits] in H.
  - destruct prev; [discriminate|]. injection H as _ <-.
    exists EmptyString, []. repeat split. discriminate.
  - destruct (is_digit c) eqn:D.
    + destruct (IH _ _ _ _ H) as (d & groups & E & Hd & Hg & _).
      exists (String c d), groups. repeat split.
      * cbn [append]. now rewrite <- E.
      * cbn [all_digits]. now rewrite D, Hd.
      * exact Hg.
      * discriminate.
    + destruct (Ascii.eqb_spec c "_") as [->|N].
      * destruct prev; [discriminate|].
        destruct (IH _ _ _ _ H) as (d & groups & E & Hd & Hg & Hne).
        exists EmptyString, (d :: groups). repeat split.
        -- cbn [append tail_groups]. rewrite string_app_assoc3. now rewrite <- E.
        -- cbn [forallb]. rewrite Hg, andb_true_r. unfold digit_group.
           rewrite Hd, andb_true_r. apply negb_true_iff.
           destruct (String.eqb_spec d ""); [now destruct (Hne eq_refl)|reflexivity].
        -- discriminate.
      * destruct prev; [discriminate|]. injection H as _ <-.
        exists EmptyString, []. repeat split. discriminate.
Qed.

Lemma digit_group_inv :
  forall g, digit_group g = true ->
    exists c d, g = String c d /\ is_digit c = true /\ all_digits d = true.
Proof.
  intros [|c d] H; [discriminate|]. unfold digit_group in H.
  apply andb_true_iff in H as [_ H]. cbn [all_digits] in H.
  apply andb_true_iff in H as [Hc Hd]. now exists c, d.
Qed.

Lemma int_unsigned_literal :
  forall u v, int_unsigned u = Some v ->
    exists groups after,
      u = join_us groups ++ after /\
      groups <> [] /\ forallb digit_group groups = true /\
      count_digits (join_us groups) <= max_str_digits /\
      all_chars is_int_space after = true.
Proof.
  intros [|c r] v H; [discriminate|]. unfold int_unsigned in H.
  destruct (is_digit c) eqn:D; [|discriminate].
  destruct (scan_digits false (digit_value c) r) as [[v' rest]|] eqn:E; [|discriminate].
  destruct (lstrip_by is_int_space rest) eqn:Ws; [|discriminate].
  destruct (count_digits (String c r) <=? max_str_digits) eqn:L; [|discriminate].
  apply Z.leb_le in L. apply lstrip_by_empty_all in Ws.
  destruct (scan_digits_groups _ _ _ _ _ E) as (d & groups & Er & Hd & Hg & _).
  exists (String c d :: groups), rest.
  assert (String c r = join_us (String c d :: groups) ++ rest) as Eu.
  { rewrite join_us_cons. cbn [append]. rewrite string_app_assoc3. now rewrite <- Er. }
  repeat split.
  - exact Eu.
  - discriminate.
  - cbn [forallb]. rewrite Hg, andb_true_r. unfold digit_group.
    cbn [String.eqb negb all_digits andb]. now rewrite D, Hd.
  - rewrite Eu, count_digits_app, (count_digits_space rest Ws) in L. lia.
  - exact Ws.
Qed.

(** [int] accepts integer literals only. *)
Lemma int_of_str_literal : forall s z, int_of_str s = Some z -> int_literal s.
Proof.
  intros s z H. unfold int_of_str in H.
  destruct (lstrip_by_split is_int_space s) as (before & Es & Hb).
  destruct (lstrip_by is_int_space s) as [|c r]; [discriminate|].
  destruct (Ascii.eqb_spec c "+") as [->|Np].
  - destruct (int_unsigned_literal _ _ H) as (groups & after & -> & Hne & Hg & Hl & Ha).
    exists before, "+", groups, after. rewrite Es. repeat split; auto.
  - destruct (Ascii.eqb_spec c "-") as [->|Nm].
    + destruct (int_unsigned r) as [v|] eqn:E; [|discriminate].
      destruct (int_unsigned_literal _ _ E) as (groups & after & -> & Hne & Hg & Hl & Ha).
      exists before, "-", groups, after. rewrite Es. repeat split; auto.
    + destruct (int_unsigned_literal _ _ H) as (groups & after & Eu & Hne & Hg & Hl & Ha).
      exists before, "", groups, after. rewrite Es, Eu. repeat split; auto.
Qed.

(** [scan_digits] reads every group of digits up to the white space. *)
Lemma scan_digits_of_groups :
  forall groups after,
    forallb digit_group groups = true ->
    all_chars is_int_space after = true ->
    forall d prev acc,
      all_digits d = true -> (prev = true -> d <> "") ->
      exists v, scan_digits prev acc (d ++ tail_groups groups ++ after) = Some (v, after).
Proof.
  induction groups as [|g gs IH]; intros after Hg Ha.
  - induction d as [|c d IHd]; intros prev acc Hd Hne.
    + destruct prev; [now destruct (Hne eq_refl)|].
      cbn [append tail_groups]. destruct after as [|c r]; [now exists acc|].
      cbn [all_chars] in Ha. apply andb_true_iff in Ha as [Hc _].
      cbn [scan_digits]. rewrite (space_not_digit c Hc), (space_not_underscore c Hc).
      now exists acc.
    + cbn [all_digits] in Hd. apply andb_true_iff in Hd as [Hc Hd].
      cbn [append scan_digits]. rewrite Hc. apply IHd; [exact Hd|discriminate].
  - cbn [forallb] in Hg. apply andb_true_iff in Hg as [Hg1 Hg].
    induction d as [|c d IHd]; intros prev acc Hd Hne.
    + destruct prev; [now destruct (Hne eq_refl)|].
      cbn [append tail_groups scan_digits].
      change (is_digit "_") with false. change (Ascii.eqb "_" "_") with true. cbn iota.
      rewrite string_app_assoc3.
      destruct (digit_group_inv g Hg1) as (c & d & -> & Hc & Hd').
      apply (IH after Hg Ha); [|discriminate].
      cbn [all_digits]. now rewrite Hc, Hd'.
    + cbn [all_digits] in Hd. apply andb_true_iff in Hd as [Hc Hd].
      cbn [append scan_digits]. rewrite Hc. apply IHd; [exact Hd|discriminate].
Qed.

Lemma int_unsigned_of_literal :
  forall groups after,
    groups <> [] -> forallb digit_group groups = true ->
    count_digits (join_us groups) <= max_str_digits ->
    all_chars is_int_space after = true ->
    exists c r v,
      join_us groups ++ after = String c r /\ is_digit c = true /\
      int_unsigned (String c r) = Some v.
Proof.
  intros [|g gs] after Hne Hg Hl Ha; [now destruct Hne|].
  cbn [forallb] in Hg. apply andb_true_iff in Hg as [Hg1 Hg].
  destruct (digit_group_inv g Hg1) as (c & d & -> & Hc & Hd).
  destruct (scan_digits_of_groups gs after Hg Ha d false (digit_value c) Hd)
    as (v & Hv); [discriminate|].
  assert (join_us (String c d :: gs) ++ after = String c (d ++ tail_groups gs ++ after)) as E.
  { rewrite join_us_cons. cbn [append]. now rewrite string_app_assoc3. }
  exists c, (d ++ tail_groups gs ++ after), v. repeat split; [exact E|exact Hc|].
  unfold int_unsigned. rewrite Hc, Hv, (lstrip_by_all _ _ Ha).
  rewrite <- E, count_digits_app, (count_digits_space after Ha), Z.add_0_r.
  apply Z.leb_le in Hl. now rewrite Hl.
Qed.

(** [int] accepts every integer literal. *)
Lemma int_literal_accepted : forall s, int_literal s -> exists z, int_of_str s = Some z.
Proof.
  intros s (before & sign & groups & after & -> & Hb & Hs & Hne & Hg & Hl & Ha).
  destruct (int_unsigned_of_literal groups after Hne Hg Hl Ha) as (c & r & v & E & Hc & Hv).
  unfold int_of_str. destruct Hs as [-> | [-> | ->]].
  - cbn [append]. rewrite E, (lstrip_by_app is_int_space before c r Hb (digit_not_space c Hc)).
    rewrite (digit_not c "+" Hc eq_refl), (digit_not c "-" Hc eq_refl). now exists v.
  - change ("+" ++ join_us groups ++ after) with (String "+" (join_us groups ++ after)).
    rewrite (lstrip_by_app is_int_space before "+" _ Hb eq_refl).
    change (Ascii.eqb "+" "+") with true. cbn iota. rewrite E. now exists v.
  - change ("-" ++ join_us groups ++ after) with (String "-" (join_us groups ++ after)).
    rewrite (lstrip_by_app is_int_space before "-" _ Hb eq_refl).
    change (Ascii.eqb "-" "+") with false. change (Ascii.eqb "-" "-") with true.
    cbn iota. rewrite E, Hv. now exists (- v).
Qed.

Lemma not_literal_refused : forall s, ~ int_literal s -> int_of_str s = None.
Proof.
  intros s H. destruct (int_of_str s) as [z|] eqn:E; [|reflexivity].
  destruct H. now apply (int_of_str_literal s z).
Qed.




(** Conversely, three numeric leading segments are all it takes. *)
Lemma parse_version_accepts :
  forall s a b c rest major minor patch,
    split_dot (lstrip_v s) = a :: b :: c :: rest ->
    int_of_str a = Some major -> int_of_str b = Some minor -> int_of_str c = Some patch ->
    parse_version s = OK (major, minor, patch).
Proof.
  intros s a b c rest major minor patch E Ha Hb Hc.
  rewrite parse_version_cases, E, Ha, Hb, Hc. reflexivity.
Qed.

(** ** Round trip *)

Lemma canonical_numeral_inv :
  forall d, canonical_numeral d = true ->
    exists c r, d = String c r /\ all_digits (String c r) = true.
Proof.
  intros [|c r] H; [discriminate|].
  unfold canonical_numeral in H. apply andb_true_iff in H as [H _]. now exists c, r.
Qed.

Lemma py_int_canonical :
  forall d, version_numeral d = true -> int_of_str d = Some (numeral_value 0 d).
Proof.
  intros d H. unfold version_numeral in H. apply andb_true_iff in H as [H L].
  destruct (canonical_numeral_inv d H) as (c & r & -> & Hd).
  now apply int_of_str_digits.
Qed.

Lemma version_numeral_canonical :
  forall d, version_numeral d = true -> canonical_numeral d = true.
Proof. intros d H. unfold version_numeral in H. now apply andb_true_iff in H as [H _]. Qed.

Lemma format_parse_canonical :
  forall s a b c,
    split_dot (lstrip_v s) = [a; b; c] ->
    version_numeral a = true -> version_numeral b = true -> version_numeral c = true ->
    format_parse s = OK (a ++ "." ++ b ++ "." ++ c).
Proof.
  intros s a b c E Ha Hb Hc. unfold format_parse.
  rewrite (parse_version_accepts s a b c [] _ _ _ E
             (py_int_canonical a Ha) (py_int_canonical b Hb) (py_int_canonical c Hc)).
  cbn [rbind]. unfold format_version.
  now rewrite !str_of_Z_numeral by now apply version_numeral_canonical.
Qed.

(** C2, as the code has it: for a well-formed text s = "M.m.p" (three
    decimal numerals without leading zeros, each of at most 4300 digits,
    the most that [int] and [str] convert), formatting what the parser
    returns gives s back, and the same s (without the prefix) when the
    parser is given s behind a leading [v]. *)
Theorem format_parse_well_formed :
  forall s,
    well_formed s = true ->
    format_parse s = OK s /\ format_parse (String "v" s) = OK s.
Proof.
  intros s H. unfold well_formed in H.
  destruct (split_dot s) as [|a [|b [|c [|]]]] eqn:E; try discriminate.
  apply andb_true_iff in H as [H Hc]. apply andb_true_iff in H as [Ha Hb].
  pose proof (join_split_dot s) as J. rewrite E in J. cbn [join_dot] in J.
  destruct (canonical_numeral_inv a (version_numeral_canonical a Ha)) as (x & r & -> & Hd).
  assert (lstrip_v s = s) as L.
  { rewrite <- J. cbn [append]. apply lstrip_v_other.
    cbn [all_digits] in Hd. apply andb_true_iff in Hd as [Hx _].
    now apply digit_not. }
  split.
  - rewrite <- J at 2. apply format_parse_canonical; trivial. now rewrite L.
  - rewrite <- J at 2. apply format_parse_canonical; trivial.
    now rewrite lstrip_v_v, L.
Qed.

Lemma format_parse_well_formed_witness :
  format_parse "1.2.3" = OK "1.2.3" /\ format_parse "v1.2.3" = OK "1.2.3".
Proof. apply (format_parse_well_formed "1.2.3"). reflexivity. Defined.

(** C2, as the specification words it, fails on a prefixed input: the
    formatter never writes the prefix back. *)
Lemma format_parse_prefixed_differs :
  well_formed "0.9.9" = true /\
  format_parse "v0.9.9" = OK "0.9.9" /\
  format_parse "v0.9.9" <> OK "v0.9.9".
Proof. repeat split. discriminate. Qed.

(** ** The prefix *)

(** C4: the code drops every leading [v], not one.  On "vv1.2.3" the
    parser returns a version, where removing one [v] leaves "v1.2.3",
    whose first segment is not numeric. *)
Theorem parse_version_strips_every_v :
  parse_version "vv1.2.3" = OK (1, 2, 3) /\
  parse_version_spec "vv1.2.3" = Err (ValueError "Invalid version format: v1.2.3").
Proof. split; reflexivity. Qed.

(** The two agree on every input that does not start with two [v]s. *)
Lemma parse_version_spec_agrees :
  forall s, lstrip_v s = strip_one_v s -> parse_version s = parse_version_spec s.
Proof.
  intros s H. rewrite parse_version_cases. unfold parse_version_spec.
  rewrite H. reflexivity.
Qed.

Lemma lstrip_v_one :
  forall s, (forall r, s <> String "v" (String "v" r)) -> lstrip_v s = strip_one_v s.
Proof.
  intros [|c r] H; [reflexivity|].
  unfold lstrip_v. cbn [lstrip_by strip_one_v].
  destruct (Ascii.eqb_spec c "v") as [->|N]; [|reflexivity].
  destruct r as [|d r]; [reflexivity|].
  cbn [lstrip_by]. destruct (Ascii.eqb_spec d "v") as [->|N]; [|reflexivity].
  now destruct (H r).
Qed.

(** ** The sign of the components *)

Lemma scan_digits_nonneg :
  forall s prev acc v rest,
    0 <= acc -> scan_digits prev acc s = Some (v, rest) -> 0 <= v.
Proof.
  induction s as [|c r IH]; intros prev acc v rest Hacc H; cbn [scan_digits] in H.
  - destruct prev; [discriminate|]. injection H as <- _. exact Hacc.
  - destruct (is_digit c) eqn:Hc.
    + pose proof (digit_value_range c Hc).
      apply (IH false (10 * acc + digit_value c) v rest); [lia|exact H].
    + destruct (Ascii.eqb c "_").
      * destruct prev; [discriminate|]. apply (IH _ _ _ _ Hacc H).
      * destruct prev; [discriminate|]. injection H as <- _. exact Hacc.
Qed.

Lemma int_unsigned_nonneg : forall s v, int_unsigned s = Some v -> 0 <= v.
Proof.
  intros [|c r] v H; [discriminate|]. unfold int_unsigned in H.
  destruct (is_digit c) eqn:Hc; [|discriminate].
  destruct (scan_digits false (digit_value c) r) as [[v' rest]|] eqn:E; [|discriminate].
  destruct (lstrip_by is_int_space rest); [|discriminate].
  destruct (count_digits (String c r) <=? max_str_digits); [|discriminate].
  injection H as <-. pose proof (digit_value_range c Hc).
  apply (scan_digits_nonneg r false (digit_value c) v' rest); [lia|exact E].
Qed.

Lemma has_char_lstrip :
  forall x p s, has_char x (lstrip_by p s) = true -> has_char x s = true.
Proof.
  intros x p. induction s as [|c r IH]; intro H; [exact H|].
  cbn [lstrip_by] in H. destruct (p c); [|exact H].
  cbn [has_char]. rewrite (IH H). apply orb_true_r.
Qed.

Lemma has_char_split :
  forall x s seg, In seg (split_dot s) -> has_char x seg = true -> has_char x s = true.
Proof.
  intros x. induction s as [|c r IH]; intros seg Hin Hx.
  - destruct Hin as [<-|[]]. exact Hx.
  - cbn [has_char]. destruct (Ascii.eqb_spec c ".") as [->|N].
    + cbn [split_dot] in Hin. change (Ascii.eqb "." ".") with true in Hin.
      destruct Hin as [<-|Hin]; [discriminate|].
      rewrite (IH seg Hin Hx). apply orb_true_r.
    + destruct (split_dot_cons_other c r) as (h & t & E1 & E2);
        [now apply Ascii.eqb_neq|].
      rewrite E2 in Hin. destruct Hin as [<-|Hin].
      * cbn [has_char] in Hx. apply orb_true_iff in Hx as [Hx|Hx].
        -- now rewrite Hx.
        -- rewrite (IH h); [apply orb_true_r|rewrite E1; now left|exact Hx].
      * rewrite (IH seg); [apply orb_true_r|rewrite E1; now right|exact Hx].
Qed.

Lemma int_of_str_nonneg :
  forall s z, int_of_str s = Some z -> has_char "-" s = false -> 0 <= z.
Proof.
  intros s z H Hm. unfold int_of_str in H.
  destruct (lstrip_by is_int_space s) as [|c r] eqn:E; [discriminate|].
  destruct (Ascii.eqb c "+").
  - now apply int_unsigned_nonneg in H.
  - destruct (Ascii.eqb_spec c "-") as [->|N].
    + rewrite (has_char_lstrip "-" is_int_space s) in Hm; [discriminate|].
      now rewrite E.
    + now apply int_unsigned_nonneg in H.
Qed.

(** C5, as the code has it: the components of a version that
    [parse_version] returns are integers, and none is negative when the
    input has no minus sign. *)
Theorem parse_version_nonneg :
  forall s major minor patch,
    parse_version s = OK (major, minor, patch) ->
    has_char "-" s = false ->
    0 <= major /\ 0 <= minor /\ 0 <= patch.
Proof.
  intros s major minor patch H Hm.
  destruct (parse_version_ok_inv _ _ _ _ H) as (a & b & c & rest & E & Ha & Hb & Hc).
  assert (forall seg, In seg (split_dot (lstrip_v s)) -> has_char "-" seg = false) as Hseg.
  { intros seg Hin. destruct (has_char "-" seg) eqn:Hx; [|reflexivity].
    pose proof (has_char_split "-" _ seg Hin Hx) as Hl.
    apply has_char_lstrip in Hl. congruence. }
  rewrite E in Hseg. repeat split.
  - apply (int_of_str_nonneg a); [exact Ha|apply Hseg; cbn; tauto].
  - apply (int_of_str_nonneg b); [exact Hb|apply Hseg; cbn; tauto].
  - apply (int_of_str_nonneg c); [exact Hc|apply Hseg; cbn; tauto].
Qed.

Lemma parse_version_nonneg_witness : 0 <= 0 /\ 0 <= 9 /\ 0 <= 9.
Proof. apply (parse_version_nonneg "v0.9.9" 0 9 9); reflexivity. Defined.

(** C5, as the specification words it, fails: a minus sign in a segment
    is accepted and gives a negative component. *)
Lemma parse_version_negative :
  parse_version "-1.2.3" = OK (-1, 2, 3) /\ ~ (0 <= -1).
Proof. split; [reflexivity|lia]. Qed.

(** ** Running the monad *)

Lemma bind_inv :
  forall A B (m : M A) (k : A -> M B) w r w',
    bind m k w = (r, w') ->
    (exists a w1, m w = (OK a, w1) /\ k a w1 = (r, w')) \/
    (exists e, m w = (Err e, w') /\ r = Err e).
Proof.
  intros A B m k w r w' H. unfold bind in H.
  destruct (m w) as [[a|e] w1].
  - left. now exists a, w1.
  - right. injection H as <- <-. now exists e.
Qed.

Lemma extends_refl : forall P w, extends P w w.
Proof. intros P w. exists []. now rewrite app_nil_r. Qed.

Lemma extends_trans :
  forall P w1 w2 w3, extends P w1 w2 -> extends P w2 w3 -> extends P w1 w3.
Proof.
  intros P w1 w2 w3 (e1 & T1 & F1) (e2 & T2 & F2). exists (e1 ++ e2)%list. split.
  - now rewrite T2, T1, app_assoc.
  - now rewrite forallb_app, F1, F2.
Qed.

Lemma extends_weaken :
  forall (P Q : Event -> bool) w w',
    (forall e, P e = true -> Q e = true) -> extends P w w' -> extends Q w w'.
Proof.
  intros P Q w w' H (evs & T & F). exists evs. split; [exact T|].
  rewrite forallb_forall in *. auto.
Qed.

Lemma emits_ret : forall A P (a : A), emits P (ret a).
Proof. intros A P a w r w' H. injection H as _ <-. apply extends_refl. Qed.

Lemma emits_raise : forall A P e, emits P (@raise A e).
Proof. intros A P e w r w' H. injection H as _ <-. apply extends_refl. Qed.

Lemma emits_lift : forall A P (x : result A), emits P (lift x).
Proof. intros A P x w r w' H. injection H as _ <-. apply extends_refl. Qed.

Lemma emits_bind :
  forall A B P (m : M A) (k : A -> M B),
    emits P m -> (forall a, emits P (k a)) -> emits P (bind m k).
Proof.
  intros A B P m k Hm Hk w r w' H.
  destruct (bind_inv _ _ _ _ _ _ _ H) as [(a & w1 & H1 & H2)|(e & H1 & _)].
  - eapply extends_trans; [eapply Hm|eapply Hk]; eassumption.
  - eapply Hm; eassumption.
Qed.

Lemma emits_try : forall A P (m : M A), emits P m -> emits P (try m).
Proof.
  intros A P m Hm w r w' H. unfold try in H.
  destruct (m w) as [r1 w1] eqn:E. injection H as _ <-. eapply Hm; eassumption.
Qed.

Lemma emits_emit : forall P e, P e = true -> emits P (emit e).
Proof.
  intros P e He w r w' H. injection H as _ <-. exists [e]. cbn. now rewrite He.
Qed.

Lemma emits_input :
  forall P prompt, (forall reply, P (Prompt prompt reply) = true) -> emits P (input prompt).
Proof.
  intros P prompt HP w r w' H. unfold input in H.
  destruct (stdin w); injection H as _ <-; eexists; cbn; split;
    try reflexivity; cbn; now rewrite HP.
Qed.

Lemma emits_spawn :
  forall P cmd, (forall ok out, P (Cmd cmd ok out) = true) -> emits P (spawn cmd).
Proof.
  intros P cmd HP w r w' H. injection H as _ <-. eexists. cbn. split;
    try reflexivity; cbn; now rewrite HP.
Qed.

Lemma emits_path_exists : forall P p, emits P (path_exists p).
Proof. intros P p w r w' H. injection H as _ <-. apply extends_refl. Qed.

Lemma emits_load_json : forall P p, P (ReadFile p) = true -> emits P (load_json p).
Proof.
  intros P p HP. unfold load_json. apply emits_bind; [now apply emits_emit|].
  intros _ w r w' H. destruct (fs w p) as [f|]; [destruct (content f)|];
    injection H as _ <-; apply extends_refl.
Qed.

Lemma emits_dump_json :
  forall P p data, (forall written, P (WriteFile p written) = true) ->
    emits P (dump_json p data).
Proof.
  intros P p data HP w r w' H. unfold dump_json in H.
  destruct (fs w p) as [[c [msg|]]|]; injection H as _ <-; eexists; cbn; split;
    try reflexivity; cbn; now rewrite HP.
Qed.

Lemma emits_if :
  forall A P (b : bool) (m1 m2 : M A),
    emits P m1 -> emits P m2 -> emits P (if b then m1 else m2).
Proof. intros A P [] m1 m2 H1 H2; assumption. Qed.

Lemma emits_run_command :
  forall P cmd description,
    (description = "" \/ P (Out Info description) = true) ->
    (forall ok out, P (Cmd cmd ok out) = true) ->
    emits P (run_command cmd description).
Proof.
  intros P cmd d Hd HP. unfold run_command. apply emits_bind.
  - destruct Hd as [->|Hd]; [apply emits_ret|].
    destruct (String.eqb d ""); [apply emits_ret|now apply emits_emit].
  - intros _. now apply emits_spawn.
Qed.

(** Proves [emits P m] for a straight-line [m], leaving the conditions on
    [P] that computation does not settle. *)
Ltac emits_step :=
  lazymatch goal with
  | |- emits _ (bind _ _) => apply emits_bind; [|intro]
  | |- emits _ (ret _) => apply emits_ret
  | |- emits _ (raise _) => apply emits_raise
  | |- emits _ (lift _) => apply emits_lift
  | |- emits _ (try _) => apply emits_try
  | |- emits _ (emit _) => apply emits_emit
  | |- emits _ (print_header _) => apply emits_emit
  | |- emits _ (print_success _) => apply emits_emit
  | |- emits _ (print_info _) => apply emits_emit
  | |- emits _ (print_warning _) => apply emits_emit
  | |- emits _ (print_error _) => apply emits_emit
  | |- emits _ (print _) => apply emits_emit
  | |- emits _ (input _) => apply emits_input; intros [?|]
  | |- emits _ (spawn _) => apply emits_spawn; intros
  | |- emits _ (run_command _ _) => apply emits_run_command; [|intros]
  | |- emits _ (path_exists _) => apply emits_path_exists
  | |- emits _ (load_json _) => apply emits_load_json
  | |- emits _ (dump_json _ _) => apply emits_dump_json; intro
  | |- emits _ (if _ then _ else _) => apply emits_if
  | |- emits _ (match ?x with (_, _) => _ end) => destruct x
  | |- emits _ (match ?x with OK _ => _ | Err _ => _ end) => destruct x
  | |- emits _ (match ?x with Some _ => _ | None => _ end) => destruct x
  end.

Ltac emits_auto :=
  repeat emits_step; try reflexivity; try (now left); try (right; reflexivity).

Lemma check_git_status_quiet : emits (fun e => negb (is_write e)) check_git_status.
Proof.
  unfold check_git_status, commit_pending_changes, confirm_action. emits_auto.
Qed.

(** ** Missing metadata files *)

(** C7: when package.json or tauri.conf.json is missing at startup, the
    run ends with exit code 1 having done nothing but print: no prompt
    was shown (no line of input was read), no file was read or written
    and no command was run. *)
Theorem missing_metadata_aborts :
  forall dir lines outcomes files,
    files (package_json_of dir) = None \/ files (tauri_conf_of dir) = None ->
    let run := main (boot dir lines outcomes files) in
    fst run = OK 1 /\
    exit_status (fst run) = 1 /\
    forallb is_output (trace (snd run)) = true /\
    stdin (snd run) = lines /\
    spawned (snd run) = 0%nat /\
    fs (snd run) = files.
Proof.
  intros dir lines outcomes files H.
  unfold main, boot, bind, print_header, print_error, emit, path_exists, ret.
  cbn [script_dir stdin procs spawned fs trace].
  unfold package_json_of, tauri_conf_of in H.
  destruct (files (joinpath dir "package.json")) as [f|] eqn:E1;
    cbn [negb script_dir stdin procs spawned fs trace].
  - destruct H as [H|H]; [discriminate|]. rewrite H. cbn. repeat split.
  - cbn. repeat split.
Qed.

Lemma missing_metadata_aborts_witness :
  exit_status (fst (main (boot "/repo" ["y"] (fun _ => Completed "") (fun _ => None)))) = 1.
Proof.
  apply (missing_metadata_aborts "/repo" ["y"] (fun _ => Completed "") (fun _ => None)).
  left. reflexivity.
Defined.

(** ** Symbolic execution *)

Lemma run_command_plain : forall cmd, run_command cmd "" = spawn cmd.
Proof. reflexivity. Qed.

Lemma run_command_described :
  forall cmd a b, a <> "" ->
    run_command cmd (a ++ b) = (print_info (a ++ b) ;; spawn cmd).
Proof. intros cmd [|c a] b H; [congruence|reflexivity]. Qed.

(** Finds a [match] in [H] whose scrutinee has no [match] inside and
    splits on it. *)
Ltac split_scrutinee H :=
  match type of H with
  | context [match negb ?b with _ => _ end] => is_var b; destruct b
  | context [match ?x with _ => _ end] =>
      lazymatch x with
      | context [match _ with _ => _ end] => fail
      | _ => destruct x eqn:?
      end
  end.

Ltac unfold_monad H :=
  rewrite ?run_command_plain in H;
  rewrite ?run_command_described in H by discriminate;
  cbv beta iota delta
    [bind ret raise lift try emit input spawn path_exists confirm_action
     print_header print_success print_info print_warning print_error print] in H;
  cbn [script_dir stdin procs spawned fs trace fst snd negb] in H.

Ltac exec H := unfold_monad H; repeat (split_scrutinee H; unfold_monad H).

(** At the end of a path: the result and the final world are known. *)
Ltac finish H :=
  injection H as <- <-; cbn [trace fst snd]; rewrite <- ?app_assoc; cbn [app].

Lemma and_not_empty_true :
  forall b s, b && negb (String.eqb s "") = true -> b = true /\ s <> "".
Proof.
  intros b s H. apply andb_true_iff in H as [-> H]. split; [reflexivity|].
  intros ->. discriminate.
Qed.

Lemma and_not_empty_false :
  forall b s, b && negb (String.eqb s "") = false -> b = false \/ s = "".
Proof.
  intros [] s H; [right|now left]. cbn in H.
  destruct (String.eqb_spec s ""); [assumption|discriminate].
Qed.

(** ** The tag step *)

Ltac tag_listing :=
  match goal with
  | H : _ && negb (String.eqb _ "") = true |- _ =>
      apply and_not_empty_true in H as [-> ?]
  | H : _ && negb (String.eqb _ "") = false |- _ =>
      apply and_not_empty_false in H
  end.

Ltac bool_hyps :=
  repeat match goal with
         | H : negb _ = true |- _ => apply negb_true_iff in H
         | H : negb _ = false |- _ => apply negb_false_iff in H
         end.

Lemma create_and_push_run :
  forall tag w r w',
    create_and_push tag w = (r, w') ->
    exists evs, trace w' = (trace w ++ evs)%list /\
                create_run tag (interactions evs) r.
Proof.
  intros tag w r w' H. unfold create_and_push in H. exec H.
  all: finish H; eexists; (split; [reflexivity|]); cbn; constructor.
Qed.

Lemma git_create_and_push_tag_run :
  forall version w r w',
    git_create_and_push_tag version w = (r, w') ->
    exists evs, trace w' = (trace w ++ evs)%list /\
                tag_run ("v" ++ version) (interactions evs) r.
Proof.
  intros version w r w' H. unfold git_create_and_push_tag, create_and_push in H.
  exec H.
  all: finish H; eexists; (split; [reflexivity|]);
       cbn [interactions filter is_output negb]; tag_listing; bool_hyps.
  all: solve [econstructor; solve [eauto | constructor]].
Qed.

(** C8: creating the release tag v{version}.  When the tag is not listed
    it is created and pushed.  When it is listed, the user is asked; a
    refusal ends the step, an acceptance deletes the local tag (a failure
    ends the step), then tries to delete the remote tag, whatever comes
    of it, and then creates and pushes the tag.  A failed creation or push
    ends the step with failure. *)
Theorem tag_step_follows_protocol :
  forall version w,
    let run := git_create_and_push_tag version w in
    exists evs,
      trace (snd run) = (trace w ++ evs)%list /\
      tag_run ("v" ++ version) (interactions evs) (fst run).
Proof.
  intros version w run. subst run.
  destruct (git_create_and_push_tag version w) as [r w'] eqn:E.
  exact (git_create_and_push_tag_run version w r w' E).
Qed.

(** ** What the steps of [main] leave in the trace *)

Lemma writes_of_app :
  forall a b, writes_of (a ++ b) = (writes_of a ++ writes_of b)%list.
Proof. intros a b. apply flat_map_app. Qed.

Lemma cmds_of_app :
  forall a b, cmds_of (a ++ b) = (cmds_of a ++ cmds_of b)%list.
Proof. intros a b. apply flat_map_app. Qed.

Lemma writes_of_not_write :
  forall evs, forallb not_write evs = true -> writes_of evs = [].
Proof.
  induction evs as [|e evs IH]; intro H; [reflexivity|].
  cbn in H. apply andb_true_iff in H as [He H].
  destruct e; try discriminate; cbn; auto.
Qed.

Lemma ask_choice_emits :
  forall P, (forall reply, P (Prompt "Enter your choice (0-3): " reply) = true) ->
    P (Out Error "Invalid choice. Please enter 0-3.") = true ->
    forall fuel, emits P (ask_choice fuel).
Proof.
  intros P HP HE. induction fuel as [|f IH]; cbn [ask_choice].
  - apply emits_raise.
  - apply emits_bind; [now apply emits_input|]. intro line.
    repeat (apply emits_if; [apply emits_ret|]).
    apply emits_bind; [now apply emits_emit|]. intros _. exact IH.
Qed.

Lemma ask_version_increment_no_write : emits not_write ask_version_increment.
Proof.
  unfold ask_version_increment. repeat (apply emits_bind; [now apply emits_emit|intros _]).
  intros w r w' H. revert H. now apply ask_choice_emits.
Qed.

Lemma check_git_remote_no_write : emits not_write check_git_remote.
Proof. unfold check_git_remote. emits_auto. Qed.

Lemma confirm_action_no_write : forall prompt, emits not_write (confirm_action prompt).
Proof. intro prompt. unfold confirm_action. emits_auto. Qed.

Lemma show_release_preview_no_write :
  forall cur new inc, emits not_write (show_release_preview cur new inc).
Proof. intros cur new inc. unfold show_release_preview. emits_auto. Qed.

Lemma git_create_and_push_tag_no_write :
  forall version, emits not_write (git_create_and_push_tag version).
Proof.
  intro version. unfold git_create_and_push_tag, create_and_push, confirm_action.
  emits_auto.
Qed.

Lemma get_current_version_no_write : forall p, emits not_write (get_current_version p).
Proof. intro p. unfold get_current_version. emits_auto. Qed.

Lemma dict_get_set :
  forall key v members default, dict_get key (dict_set key v members) default = v.
Proof.
  intros key v members default. induction members as [|[k old] rest IH]; cbn.
  - now rewrite String.eqb_refl.
  - destruct (String.eqb k key) eqn:E; cbn; rewrite E; [reflexivity|exact IH].
Qed.

Lemma set_then_get_version :
  forall data version data',
    set_version_field data version = OK data' ->
    get_version_field data' = OK (JStr version).
Proof.
  intros data version data' H. destruct data; try discriminate.
  injection H as <-. cbn. now rewrite dict_get_set.
Qed.

(** [update_json_version] either writes the file once, with the new
    version in it, or writes nothing. *)
Lemma update_json_version_run :
  forall p version w r w',
    update_json_version p version w = (r, w') ->
    (r = OK true /\
     exists data,
       get_version_field data = OK (JStr version) /\
       trace w' = (trace w ++ [ReadFile p; WriteFile p (Some data);
                               Out Success ("Updated " ++ path_name p ++ " to version "
                                            ++ version)])%list) \/
    (r = OK false /\
     exists evs, trace w' = (trace w ++ evs)%list /\ writes_of evs = [] /\ cmds_of evs = []).
Proof.
  intros p version w r w' H. unfold update_json_version, load_json, dump_json in H.
  exec H.
  all: finish H.
  all: try (right; split; [reflexivity|]; eexists; split; [reflexivity|]; split; reflexivity).
  all: left; split; [reflexivity|]; eexists; split;
    [eapply set_then_get_version; eassumption|reflexivity].
Qed.

(** [git_add_and_commit] stages, then commits; the first failure is the
    last command. *)
Lemma git_add_and_commit_run :
  forall files version w r w',
    git_add_and_commit files version w = (r, w') ->
    exists evs,
      trace w' = (trace w ++ evs)%list /\ writes_of evs = [] /\
      ((r = OK false /\ cmds_of evs = [((["git"; "add"] ++ files)%list, false)]) \/
       (r = OK false /\
        cmds_of evs = [((["git"; "add"] ++ files)%list, true);
                       (["git"; "commit"; "-m"; "chore: release v" ++ version], false)]) \/
       (r = OK true /\
        cmds_of evs = [((["git"; "add"] ++ files)%list, true);
                       (["git"; "commit"; "-m"; "chore: release v" ++ version], true)])).
Proof.
  intros files version w r w' H. unfold git_add_and_commit in H. exec H.
  all: finish H; eexists; split; [reflexivity|]; split; [reflexivity|]; cbn; tauto.
Qed.

(** ** Walking through [main] *)

(** Settles a call of a printing or inspecting primitive. *)
Ltac prim Hc :=
  unfold print_header, print_success, print_info, print_warning, print_error, print,
    emit, path_exists, ret in Hc;
  first [discriminate Hc | injection Hc as <- <-].

(** One step of [main]: a call (kept as a hypothesis unless it is a
    primitive), a test, or the return. *)
Ltac step H :=
  lazymatch type of H with
  | bind _ _ _ = _ =>
      let Hc := fresh "Hcall" in
      let a := fresh "a" in
      let w1 := fresh "w" in
      let e := fresh "e" in
      apply bind_inv in H;
      destruct H as [(a & w1 & Hc & H)|(e & Hc & ->)];
      [try prim Hc; cbv beta zeta in H|try prim Hc]
  | (if negb ?b then _ else _) _ = _ => destruct b eqn:?; cbn [negb] in H
  | (match ?x with _ => _ end) _ = _ => destruct x eqn:?
  | ret _ _ = _ => injection H as <- <-
  end;
  cbn [script_dir stdin procs spawned fs trace] in *.

Ltac walk H := repeat step H.

Lemma after_writes_fold :
  forall b acc,
    writes_of b = [] ->
    fold_left (fun acc e => match e with
                            | WriteFile _ (Some _) => []
                            | _ => (acc ++ [e])%list
                            end) b acc = (acc ++ b)%list.
Proof.
  induction b as [|e b IH]; intros acc H; cbn [fold_left].
  - now rewrite app_nil_r.
  - destruct e as [k t|t reply|cmd ok out|p|p [d|]];
      try discriminate H;
      (rewrite IH by exact H; rewrite <- app_assoc; reflexivity).
Qed.

Lemma after_writes_app :
  forall a b, writes_of b = [] -> after_writes (a ++ b) = (after_writes a ++ b)%list.
Proof.
  intros a b H. unfold after_writes. rewrite fold_left_app.
  now apply after_writes_fold.
Qed.

Lemma after_writes_write :
  forall a p d, after_writes (a ++ [WriteFile p (Some d)]) = [].
Proof. intros a p d. unfold after_writes. now rewrite fold_left_app. Qed.

(** Replaces a call that writes no file by what it adds to the trace. *)
Ltac quiet_call Hc :=
  lazymatch type of Hc with
  | check_git_status _ = _ => apply check_git_status_quiet in Hc
  | check_git_remote _ = _ => apply check_git_remote_no_write in Hc
  | ask_version_increment _ = _ => apply ask_version_increment_no_write in Hc
  | show_release_preview _ _ _ _ = _ => apply show_release_preview_no_write in Hc
  | confirm_action _ _ = _ => apply confirm_action_no_write in Hc
  | git_create_and_push_tag _ _ = _ => apply git_create_and_push_tag_no_write in Hc
  | try ?m _ = _ =>
      let E := fresh in
      assert (emits not_write (try m)) as E
        by (apply emits_try; unfold read_current_version, get_current_version;
            emits_auto);
      apply E in Hc; clear E
  end;
  let evs := fresh "evs" in
  let T := fresh "T" in
  let F := fresh "F" in
  destruct Hc as (evs & T & F); apply writes_of_not_write in F;
  cbn [trace] in T.

Ltac quiet_calls :=
  repeat match goal with
         | Hc : _ = (_, _) |- _ => quiet_call Hc
         end.

Ltac update_calls :=
  repeat match goal with
         | Hc : update_json_version _ _ _ = _ |- _ =>
             let d := fresh "data" in
             let G := fresh "G" in
             let T := fresh "T" in
             let evs := fresh "evs" in
             let Wr := fresh "Wr" in
             let C := fresh "C" in
             apply update_json_version_run in Hc;
             destruct Hc as [(Hc & d & G & T)|(Hc & evs & T & Wr & C)];
             try discriminate Hc; clear Hc; cbn [trace] in T
         end.

Ltac commit_call :=
  match goal with
  | Hc : git_add_and_commit _ _ _ = _ |- _ =>
      let evs := fresh "evs" in
      let T := fresh "T" in
      let Wr := fresh "Wr" in
      let C := fresh "C" in
      apply git_add_and_commit_run in Hc;
      destruct Hc as (evs & T & Wr & [(Hc & C)|[(Hc & C)|(Hc & C)]]);
      try discriminate Hc; clear Hc; cbn [trace] in T
  end.

Ltac chain_traces :=
  repeat match goal with
         | T : trace ?w = _ |- _ => rewrite T in *; clear T
         end.

Lemma after_writes_update :
  forall a q p d k t,
    after_writes (a ++ [ReadFile q; WriteFile p (Some d); Out k t]) = [Out k t].
Proof. intros a q p d k t. unfold after_writes. now rewrite fold_left_app. Qed.

(** ** The commit step *)

Example minor_release_runs :
  let run := main (boot "/repo" ["2"; "y"] sample_procs sample_files) in
  fst run = OK 0 /\
  cmds_of (trace (snd run)) =
  [(["git"; "status"; "--porcelain"], true);
   (["git"; "remote"; "-v"], true);
   (["git"; "add"; "/repo/package.json"; "/repo/src-tauri/tauri.conf.json"], true);
   (["git"; "commit"; "-m"; "chore: release v1.3.0"], true);
   (["git"; "tag"; "-l"; "v1.3.0"], true);
   (["git"; "tag"; "v1.3.0"], true);
   (["git"; "push"; "origin"; "v1.3.0"], true)].
Proof. vm_compute. split; reflexivity. Qed.

(** ** Steps that leave the files alone *)

Lemma keeps_fs_bind :
  forall A B (m : M A) (k : A -> M B),
    keeps_fs m -> (forall a, keeps_fs (k a)) -> keeps_fs (bind m k).
Proof.
  intros A B m k Hm Hk w r w' H.
  destruct (bind_inv _ _ _ _ _ _ _ H) as [(a & w1 & H1 & H2)|(e & H1 & _)].
  - rewrite (Hk _ _ _ _ H2). eapply Hm; eassumption.
  - eapply Hm; eassumption.
Qed.

Lemma keeps_fs_ret : forall A (a : A), keeps_fs (ret a).
Proof. intros A a w r w' H. now injection H as _ <-. Qed.

Lemma keeps_fs_emit : forall e, keeps_fs (emit e).
Proof. intros e w r w' H. now injection H as _ <-. Qed.

Lemma keeps_fs_input : forall prompt, keeps_fs (input prompt).
Proof.
  intros prompt w r w' H. unfold input in H.
  destruct (stdin w); now injection H as _ <-.
Qed.

Lemma keeps_fs_spawn : forall cmd, keeps_fs (spawn cmd).
Proof. intros cmd w r w' H. now injection H as _ <-. Qed.

Lemma keeps_fs_if :
  forall A (b : bool) (m1 m2 : M A),
    keeps_fs m1 -> keeps_fs m2 -> keeps_fs (if b then m1 else m2).
Proof. intros A [] m1 m2 H1 H2; assumption. Qed.

Lemma keeps_fs_run_command : forall cmd d, keeps_fs (run_command cmd d).
Proof.
  intros cmd d. unfold run_command. apply keeps_fs_bind.
  - apply keeps_fs_if; [apply keeps_fs_ret|apply keeps_fs_emit].
  - intros _. apply keeps_fs_spawn.
Qed.

Ltac keeps_fs_step :=
  lazymatch goal with
  | |- keeps_fs (bind _ _) => apply keeps_fs_bind; [|intro]
  | |- keeps_fs (ret _) => apply keeps_fs_ret
  | |- keeps_fs (print_header _) => apply keeps_fs_emit
  | |- keeps_fs (print_success _) => apply keeps_fs_emit
  | |- keeps_fs (print_info _) => apply keeps_fs_emit
  | |- keeps_fs (print_warning _) => apply keeps_fs_emit
  | |- keeps_fs (print_error _) => apply keeps_fs_emit
  | |- keeps_fs (print _) => apply keeps_fs_emit
  | |- keeps_fs (input _) => apply keeps_fs_input
  | |- keeps_fs (run_command _ _) => apply keeps_fs_run_command
  | |- keeps_fs (if _ then _ else _) => apply keeps_fs_if
  | |- keeps_fs (match ?x with (_, _) => _ end) => destruct x
  end.

Lemma check_git_status_keeps_fs : keeps_fs check_git_status.
Proof.
  unfold check_git_status, commit_pending_changes, confirm_action.
  repeat keeps_fs_step.
Qed.

Lemma check_git_remote_keeps_fs : keeps_fs check_git_remote.
Proof. unfold check_git_remote. repeat keeps_fs_step. Qed.

(** ** Reading the current version *)

(** What the [try] of [main] does when package.json holds a JSON object. *)
Lemma read_current_version_run :
  forall p w members we a w1,
    fs w p = Some (mkFile (Doc (JObj members)) we) ->
    try (read_current_version p) w = (OK a, w1) ->
    let v := dict_get "version" members (JStr "0.0.0") in
    (exists s major minor patch,
        v = JStr s /\ parse_version s = OK (major, minor, patch) /\
        a = OK (s, major, minor, patch) /\
        trace w1 = (trace w ++ [ReadFile p; Out Success ("Current version: " ++ s)])%list) \/
    (exists e, parse_version_of v = Err e /\ a = Err e /\
               trace w1 = (trace w ++ [ReadFile p])%list).
Proof.
  intros p w members we a w1 Hfs H v.
  unfold try, read_current_version, get_current_version, load_json in H.
  unfold_monad H. rewrite Hfs in H.
  cbn [content get_version_field] in H. fold v in H.
  destruct (parse_version_of v) as [[[major minor] patch]|e] eqn:E; unfold_monad H.
  - left. destruct v as [| | | |s| |]; try discriminate E. cbn [parse_version_of] in E.
    injection H as <- <-. exists s, major, minor, patch. cbn [trace json_str].
    rewrite <- app_assoc. auto.
  - right. injection H as <- <-. exists e. cbn [trace]. auto.
Qed.

Lemma dict_get_default :
  forall key members default,
    dict_has key members = false -> dict_get key members default = default.
Proof.
  intros key members default. induction members as [|[k v] rest IH]; cbn; [reflexivity|].
  destruct (String.eqb k key); [discriminate|exact IH].
Qed.

Lemma ask_version_increment_emits :
  forall P : Event -> bool,
    (forall t, P (Out Plain t) = true) ->
    (forall reply, P (Prompt "Enter your choice (0-3): " reply) = true) ->
    P (Out Error "Invalid choice. Please enter 0-3.") = true ->
    emits P ask_version_increment.
Proof.
  intros P HPl HPr HE. unfold ask_version_increment.
  repeat (apply emits_bind; [now apply emits_emit|intros _]).
  intros w r w' H. revert H. now apply ask_choice_emits.
Qed.

(** Proves [emits P m] for a step [m] of [main] and a [P] that computes
    on the events of the step. *)
Ltac prove_emits :=
  first
    [ apply ask_version_increment_emits;
      [intro; reflexivity|intros [?|]; reflexivity|reflexivity]
    | unfold check_git_status, commit_pending_changes, check_git_remote,
        show_release_preview, update_json_version, git_add_and_commit,
        git_create_and_push_tag, create_and_push, confirm_action,
        read_current_version, get_current_version;
      emits_auto ].

Ltac learn_emits P Hc :=
  lazymatch type of Hc with
  | ?m _ = _ =>
      let E := fresh in
      assert (emits P m) as E by prove_emits;
      apply E in Hc; clear E;
      let evs := fresh "evs" in
      let T := fresh "T" in
      let F := fresh "F" in
      destruct Hc as (evs & T & F); cbn [trace] in T
  end.

Lemma silent_no_parse_failure :
  forall evs, forallb silent_on_version evs = true -> existsb is_parse_failure evs = false.
Proof.
  induction evs as [|e evs IH]; intro H; [reflexivity|].
  cbn in H. apply andb_true_iff in H as [He H]. cbn. rewrite (IH H).
  unfold silent_on_version in He. destruct (is_parse_failure e); [discriminate|reflexivity].
Qed.

(** [check_git_remote] never reports on the version, and reports the
    remote as configured only when it returns [True]. *)
Lemma check_git_remote_run :
  forall w r w',
    check_git_remote w = (r, w') ->
    exists evs, trace w' = (trace w ++ evs)%list /\
                existsb is_parse_failure evs = false /\
                (r <> OK true -> existsb is_remote_ok evs = false).
Proof.
  intros w r w' H. unfold check_git_remote in H. exec H.
  all: finish H; eexists; (split; [reflexivity|]); split; [reflexivity|].
  all: intro N; try reflexivity; now destruct N.
Qed.

Ltac version_facts :=
  repeat match goal with
         | Hc : check_git_status _ = _ |- _ =>
             let K := fresh "K" in
             pose proof (check_git_status_keeps_fs _ _ _ Hc) as K; cbn [fs] in K;
             learn_emits silent_on_version Hc
         | Hc : check_git_remote _ = _ |- _ =>
             let K := fresh "K" in
             let evs := fresh "evs" in
             let T := fresh "T" in
             let F := fresh "F" in
             let R := fresh "R" in
             pose proof (check_git_remote_keeps_fs _ _ _ Hc) as K; cbn [fs] in K;
             apply check_git_remote_run in Hc; destruct Hc as (evs & T & F & R)
         end.

Lemma try_returns :
  forall A (m : M A) w e w', try m w = (Err e, w') -> False.
Proof. intros A m w e w' H. unfold try in H. destruct (m w). discriminate. Qed.

Ltac try_returns :=
  try match goal with
      | Hc : try _ _ = (Err _, _) |- _ => now apply try_returns in Hc
      end.

Ltac read_call Hfs :=
  match goal with
  | Hc : try (read_current_version _) ?w = _ |- _ =>
      eapply read_current_version_run in Hc;
      [|match goal with K : fs w = _ |- _ => rewrite K end;
        try match goal with K : fs _ = _ |- _ => rewrite K end; exact Hfs];
      cbv zeta in Hc;
      destruct Hc as [(? & ? & ? & ? & ? & ? & ? & ?)|(? & ? & ? & ?)]
  end.

Ltac silent_calls :=
  repeat match goal with
         | Hc : _ _ = (_, _) |- _ => learn_emits silent_on_version Hc
         end.

Ltac no_parse_failures H :=
  repeat rewrite existsb_app in H;
  repeat match goal with
         | F : forallb silent_on_version _ = true |- _ =>
             apply silent_no_parse_failure in F
         end;
  repeat match goal with
         | F : existsb is_parse_failure _ = false |- _ => rewrite F in H
         end;
  cbn in H.

Lemma parse_failure_reported :
  forall dir lines outcomes files members we r w',
    files (package_json_of dir) = Some (mkFile (Doc (JObj members)) we) ->
    main (boot dir lines outcomes files) = (r, w') ->
    existsb is_parse_failure (trace w') = true ->
    exists e, parse_version_of (dict_get "version" members (JStr "0.0.0")) = Err e.
Proof.
  intros dir lines outcomes files members we r w' Hfs H HF.
  unfold package_json_of in Hfs. unfold main in H.
  walk H.
  all: try (rewrite Hfs in *; discriminate).
  all: try_returns.
  all: version_facts; try read_call Hfs; silent_calls; subst; try discriminate.
  all: chain_traces; no_parse_failures HF; try discriminate HF.
  all: eauto.
Qed.

Lemma get_current_version_default :
  forall p w members we,
    fs w p = Some (mkFile (Doc (JObj members)) we) ->
    dict_has "version" members = false ->
    fst (get_current_version p w) = OK (JStr "0.0.0").
Proof.
  intros p w members we Hfs Hno. unfold get_current_version, load_json.
  unfold bind, emit, lift. cbn [fs]. rewrite Hfs. cbn [content get_version_field fst].
  now rewrite dict_get_default.
Qed.

(** ** How the steps end *)

Ltac unfold_calm :=
  cbv beta iota delta
    [calm steady not_final is_tag_pushed is_failed_command may_fail
     is_release_declined is_declined_other is_failure_report forallb existsb];
  cbn [nth List.length app Nat.eqb String.eqb Ascii.eqb Bool.eqb starts_with append
       andb orb negb].

Ltac flag_hyps :=
  repeat match goal with
         | H : _ || _ = false |- _ => apply orb_false_iff in H; destruct H
         | H : negb _ = false |- _ => apply negb_false_iff in H
         | H : negb _ = true |- _ => apply negb_true_iff in H
         | H : ?b = true |- _ => is_var b; subst b
         | H : ?b = false |- _ => is_var b; subst b
         end.

Ltac settle_flags :=
  repeat (progress (rewrite ?andb_false_r, ?andb_true_r, ?orb_true_r, ?orb_false_r;
                    cbn [negb andb orb])).

Ltac use_answers :=
  flag_hyps;
  repeat match goal with
         | E : is_yes _ = _ |- _ => rewrite E
         end.

Ltac calm_leaf H :=
  finish H;
  let Hok := fresh "Hok" in
  intro Hok; try discriminate Hok; try (injection Hok as Hok);
  eexists; (split; [reflexivity|]);
  unfold_calm; use_answers; settle_flags; reflexivity.

Lemma check_git_status_calm :
  forall w r w', check_git_status w = (r, w') -> r = OK true -> extends calm w w'.
Proof.
  intros w r w' H. unfold check_git_status, commit_pending_changes in H.
  exec H. all: calm_leaf H.
Qed.

Lemma check_git_remote_calm :
  forall w r w', check_git_remote w = (r, w') -> r = OK true -> extends calm w w'.
Proof.
  intros w r w' H. unfold check_git_remote in H.
  exec H. all: calm_leaf H.
Qed.

Lemma update_json_version_calm :
  forall p v w r w', update_json_version p v w = (r, w') -> r = OK true -> extends calm w w'.
Proof.
  intros p v w r w' H. unfold update_json_version, load_json, dump_json in H.
  exec H. all: calm_leaf H.
Qed.

Lemma git_add_and_commit_calm :
  forall files v w r w',
    git_add_and_commit files v w = (r, w') -> r = OK true -> extends calm w w'.
Proof.
  intros files v w r w' H. unfold git_add_and_commit in H.
  exec H. all: calm_leaf H.
Qed.

(** A tag step that returns [True] has pushed the tag, with no
    refusal and no failure on the way but of a command that may fail. *)
Lemma git_create_and_push_tag_done :
  forall v w r w',
    git_create_and_push_tag v w = (r, w') -> r = OK true ->
    exists evs, trace w' = (trace w ++ evs)%list /\
                forallb steady evs = true /\ existsb is_tag_pushed evs = true.
Proof.
  intros v w r w' H. unfold git_create_and_push_tag, create_and_push in H.
  exec H.
  all: finish H.
  all: let Hok := fresh "Hok" in
       intro Hok; try discriminate Hok; try (injection Hok as Hok).
  all: eexists; (split; [reflexivity|]).
  all: unfold_calm; use_answers; settle_flags; split; reflexivity.
Qed.

(** A tag step that does not return [True] has not pushed the tag. *)
Lemma git_create_and_push_tag_not_done :
  forall v w r w',
    git_create_and_push_tag v w = (r, w') -> r <> OK true ->
    exists evs, trace w' = (trace w ++ evs)%list /\
                existsb is_tag_pushed evs = false /\
                existsb is_release_declined evs = false.
Proof.
  intros v w r w' H. unfold git_create_and_push_tag, create_and_push in H.
  exec H.
  all: finish H.
  all: let Hok := fresh "Hok" in intro Hok; try (now destruct Hok).
  all: eexists; (split; [reflexivity|]).
  all: unfold_calm; use_answers; settle_flags; split; reflexivity.
Qed.

Lemma read_current_version_calm :
  forall p w x w',
    try (read_current_version p) w = (OK (OK x), w') -> extends calm w w'.
Proof.
  intros p w x w' H.
  unfold try, read_current_version, get_current_version, load_json in H.
  exec H.
  all: inversion H; subst; cbn [trace]; rewrite <- ?app_assoc;
    eexists; (split; [reflexivity|]); reflexivity.
Qed.

Lemma confirm_action_run :
  forall question w r w',
    confirm_action question w = (r, w') ->
    (exists response,
        r = OK (is_yes response) /\
        trace w' = (trace w ++ [Prompt (question ++ " (y/n): ") (Some response)])%list) \/
    (r = Err EOFError /\
     trace w' = (trace w ++ [Prompt (question ++ " (y/n): ") None])%list).
Proof.
  intros question w r w' H. unfold confirm_action in H. exec H.
  - right. injection H as <- <-. auto.
  - left. injection H as <- <-. eauto.
Qed.

Lemma calm_facts :
  forall evs,
    forallb calm evs = true ->
    existsb is_tag_pushed evs = false /\ existsb is_release_declined evs = false /\
    existsb is_declined_other evs = false /\ existsb is_failure_report evs = false /\
    existsb is_failed_command evs = false.
Proof.
  induction evs as [|e evs IH]; intro H; [now repeat split|].
  cbn [forallb] in H. apply andb_true_iff in H as [He H].
  destruct (IH H) as (I1 & I2 & I3 & I4 & I5). cbn [existsb]. rewrite I1, I2, I3, I4, I5.
  unfold calm, not_final in He.
  destruct (is_tag_pushed e), (is_release_declined e), (is_declined_other e),
    (is_failure_report e), (is_failed_command e); try discriminate He; now repeat split.
Qed.

Lemma steady_facts :
  forall evs,
    forallb steady evs = true ->
    existsb is_release_declined evs = false /\
    existsb is_declined_other evs = false /\ existsb is_failure_report evs = false /\
    existsb is_failed_command evs = false.
Proof.
  induction evs as [|e evs IH]; intro H; [now repeat split|].
  cbn [forallb] in H. apply andb_true_iff in H as [He H].
  destruct (IH H) as (I2 & I3 & I4 & I5). cbn [existsb]. rewrite I2, I3, I4, I5.
  unfold steady in He.
  destruct (is_release_declined e), (is_declined_other e),
    (is_failure_report e), (is_failed_command e); try discriminate He; now repeat split.
Qed.

Lemma not_final_facts :
  forall evs,
    forallb not_final evs = true ->
    existsb is_tag_pushed evs = false /\ existsb is_release_declined evs = false.
Proof.
  induction evs as [|e evs IH]; intro H; [now split|].
  cbn [forallb] in H. apply andb_true_iff in H as [He H].
  destruct (IH H) as (I1 & I2). cbn [existsb]. rewrite I1, I2.
  unfold not_final in He.
  destruct (is_tag_pushed e), (is_release_declined e); try discriminate He; now split.
Qed.

(** Turns every call left by the walk into facts about its events. *)
Ltac calm_call Hc lemma :=
  let evs := fresh "evs" in
  let T := fresh "T" in
  let F := fresh "F" in
  apply lemma in Hc; [|reflexivity];
  destruct Hc as (evs & T & F); apply calm_facts in F;
  destruct F as (? & ? & ? & ? & ?); cbn [trace] in T.

Ltac exit_facts :=
  repeat match goal with
         | Hc : confirm_action _ _ = _ |- _ =>
             apply confirm_action_run in Hc;
             destruct Hc as [(? & Hc & ?)|(Hc & ?)];
             [try (injection Hc as Hc; symmetry in Hc)|try discriminate Hc]
         | Hc : check_git_status _ = (OK true, _) |- _ => calm_call Hc check_git_status_calm
         | Hc : check_git_remote _ = (OK true, _) |- _ => calm_call Hc check_git_remote_calm
         | Hc : update_json_version _ _ _ = (OK true, _) |- _ =>
             calm_call Hc update_json_version_calm
         | Hc : git_add_and_commit _ _ _ = (OK true, _) |- _ =>
             calm_call Hc git_add_and_commit_calm
         | Hc : git_create_and_push_tag _ _ = (OK true, _) |- _ =>
             let evs := fresh "evs" in
             let T := fresh "T" in
             let F := fresh "F" in
             let P := fresh "P" in
             apply git_create_and_push_tag_done in Hc; [|reflexivity];
             destruct Hc as (evs & T & F & P); apply steady_facts in F;
             destruct F as (? & ? & ? & ?); cbn [trace] in T
         | Hc : git_create_and_push_tag _ _ = (_, _) |- _ =>
             let evs := fresh "evs" in
             let T := fresh "T" in
             apply git_create_and_push_tag_not_done in Hc; [|discriminate];
             destruct Hc as (evs & T & ? & ?); cbn [trace] in T
         | Hc : try (read_current_version _) _ = (OK (OK _), _) |- _ =>
             let evs := fresh "evs" in
             let T := fresh "T" in
             let F := fresh "F" in
             apply read_current_version_calm in Hc;
             destruct Hc as (evs & T & F); apply calm_facts in F;
             destruct F as (? & ? & ? & ? & ?); cbn [trace] in T
         | Hc : ask_version_increment _ = _ |- _ =>
             learn_emits calm Hc;
             match goal with F : forallb calm _ = true |- _ =>
               apply calm_facts in F; destruct F as (? & ? & ? & ? & ?) end
         | Hc : show_release_preview _ _ _ _ = _ |- _ =>
             learn_emits calm Hc;
             match goal with F : forallb calm _ = true |- _ =>
               apply calm_facts in F; destruct F as (? & ? & ? & ? & ?) end
         | Hc : _ _ = (_, _) |- _ =>
             learn_emits not_final Hc;
             match goal with F : forallb not_final _ = true |- _ =>
               apply not_final_facts in F; destruct F as (? & ?) end
         end.

Ltac settle_events :=
  repeat rewrite existsb_app;
  repeat match goal with
         | E : existsb _ _ = _ |- _ => rewrite E
         end;
  cbn [existsb]; unfold_calm; use_answers;
  cbn [orb andb negb String.eqb starts_with Ascii.eqb Bool.eqb append];
  rewrite ?orb_true_r, ?orb_false_r.

(** ** The exit code *)

(** C6, as the code has it: a run of [main] ends with exit code 0 when
    the release was carried out (the tag was pushed) or the user
    declined the release confirmation, and with 1 in every other case;
    in particular it ends with 1 when the user declined to go on with an
    unclean tree or to recreate an existing tag, when a failure was
    reported, and when a command failed other than the two the script
    lets pass (listing the tag, deleting it on the remote). *)
Theorem exit_code_of_run :
  forall dir lines outcomes files r w',
    main (boot dir lines outcomes files) = (r, w') ->
    let t := trace w' in
    (existsb is_tag_pushed t = true -> r = OK 0) /\
    (existsb is_release_declined t = true -> r = OK 0) /\
    (existsb is_tag_pushed t = false -> existsb is_release_declined t = false ->
     exit_status r = 1) /\
    (existsb is_declined_other t = true -> exit_status r = 1) /\
    (existsb is_failure_report t = true -> exit_status r = 1) /\
    (existsb is_failed_command t = true -> exit_status r = 1).
Proof.
  intros dir lines outcomes files r w' H t. subst t. unfold main in H.
  walk H.
  all: try_returns.
  all: subst.
  all: exit_facts.
  all: chain_traces.
  all: settle_events.
  all: cbn [exit_status]; intuition (try discriminate; try reflexivity).
Qed.

Lemma exit_code_of_run_witness :
  fst (main (boot "/repo" ["2"; "y"] sample_procs sample_files)) = OK 0 /\
  fst (main (boot "/repo" ["0"; "n"] sample_procs sample_files)) = OK 0.
Proof.
  split.
  - destruct (exit_code_of_run "/repo" ["2"; "y"] sample_procs sample_files
                (fst (main (boot "/repo" ["2"; "y"] sample_procs sample_files)))
                (snd (main (boot "/repo" ["2"; "y"] sample_procs sample_files))))
      as [Hpushed _].
    + apply surjective_pairing.
    + apply Hpushed. vm_compute. reflexivity.
  - destruct (exit_code_of_run "/repo" ["0"; "n"] sample_procs sample_files
                (fst (main (boot "/repo" ["0"; "n"] sample_procs sample_files)))
                (snd (main (boot "/repo" ["0"; "n"] sample_procs sample_files))))
      as (_ & Hdeclined & _).
    + apply surjective_pairing.
    + apply Hdeclined. vm_compute. reflexivity.
Defined.

(** C6, as the specification words it, fails: with an unclean tree, a
    user who declines to commit and then declines to go on has cancelled
    at a confirmation prompt, and the exit code is 1. *)
Lemma declined_continue_exits_1 :
  let run := main (boot "/repo" ["n"; "n"] unclean_procs sample_files) in
  last (trace (snd run)) (Out Plain "")
  = Prompt "Continue without committing? (y/n): " (Some "n") /\
  is_yes "n" = false /\
  fst run = OK 1 /\
  exit_status (fst run) <> 0.
Proof. vm_compute. repeat split. discriminate. Qed.

Example release_declined_exits_0 :
  let run := main (boot "/repo" ["3"; "N"] sample_procs sample_files) in
  fst run = OK 0 /\
  last (trace (snd run)) (Out Plain "") = Out Info "Release cancelled" /\
  writes_of (trace (snd run)) = [].
Proof. vm_compute. repeat split. Qed.

(** * Further properties of the script *)

(** ** Printing a number and reading it back *)

Lemma all_digits_no_char :
  forall x d, is_digit x = false -> all_digits d = true -> has_char x d = false.
Proof.
  intros x. induction d as [|c r IH]; intros Hx H; [reflexivity|].
  cbn [all_digits] in H. apply andb_true_iff in H as [Hc Hr].
  cbn [has_char]. rewrite (IH Hx Hr), orb_false_r.
  apply Ascii.eqb_neq. intros ->. congruence.
Qed.

Lemma is_digit_digit_char : forall d, 0 <= d < 10 -> is_digit (digit_char d) = true.
Proof.
  intros d H.
  assert (d = 0 \/ d = 1 \/ d = 2 \/ d = 3 \/ d = 4 \/ d = 5 \/ d = 6 \/ d = 7
          \/ d = 8 \/ d = 9) as E by lia.
  repeat (destruct E as [->|E]; [reflexivity|]). subst d. reflexivity.
Qed.

Lemma digit_value_digit_char : forall d, 0 <= d < 10 -> digit_value (digit_char d) = d.
Proof.
  intros d H.
  assert (d = 0 \/ d = 1 \/ d = 2 \/ d = 3 \/ d = 4 \/ d = 5 \/ d = 6 \/ d = 7
          \/ d = 8 \/ d = 9) as E by lia.
  repeat (destruct E as [->|E]; [reflexivity|]). subst d. reflexivity.
Qed.

(** The digits [digits_of] writes for a positive number: a numeral
    without leading zero whose value is the number. *)
Lemma digits_of_positive :
  forall fuel n acc,
    0 < n < 2 ^ Z.of_nat fuel ->
    exists c r,
      digits_of fuel n acc = String c r ++ acc /\
      all_digits (String c r) = true /\
      Ascii.eqb c "0" = false /\
      numeral_value 0 (String c r) = n.
Proof.
  induction fuel as [|f IH]; intros n acc H.
  - change (2 ^ Z.of_nat 0) with 1 in H. lia.
  - cbn [digits_of]. destruct (n <? 10) eqn:L.
    + apply Z.ltb_lt in L. exists (digit_char (n mod 10)), EmptyString.
      rewrite Z.mod_small by lia.
      repeat split.
      * cbn [all_digits]. rewrite is_digit_digit_char by lia. reflexivity.
      * rewrite ascii_eqb_code. apply Z.eqb_neq.
        pose proof (digit_value_digit_char n ltac:(lia)) as V.
        unfold digit_value in V. change (code "0") with 48. lia.
      * cbn [numeral_value]. rewrite digit_value_digit_char by lia. lia.
    + apply Z.ltb_ge in L.
      rewrite Nat2Z.inj_succ, Z.pow_succ_r in H by lia.
      destruct (IH (n / 10) (String (digit_char (n mod 10)) acc)) as (c & r & E & Hd & Hc & Hv).
      { split.
        - apply Z.div_str_pos. lia.
        - apply Z.div_lt_upper_bound; lia. }
      exists c, (r ++ String (digit_char (n mod 10)) EmptyString).
      pose proof (Z.mod_pos_bound n 10 ltac:(lia)) as Hm.
      repeat split.
      * rewrite E. change (String c r ++ String (digit_char (n mod 10)) acc)
          with (String c (r ++ String (digit_char (n mod 10)) acc)).
        cbn [append]. now rewrite append_assoc_snoc.
      * change (String c (r ++ String (digit_char (n mod 10)) EmptyString))
          with (String c r ++ String (digit_char (n mod 10)) EmptyString).
        rewrite all_digits_snoc, Hd, is_digit_digit_char by lia. reflexivity.
      * exact Hc.
      * change (String c (r ++ String (digit_char (n mod 10)) EmptyString))
          with (String c r ++ String (digit_char (n mod 10)) EmptyString).
        rewrite numeral_value_snoc, Hv, digit_value_digit_char by lia.
        pose proof (Z.div_mod n 10 ltac:(lia)). lia.
Qed.

Lemma append_empty : forall s : string, s ++ "" = s.
Proof. induction s as [|c r IH]; simpl; [reflexivity|now rewrite IH]. Qed.

(** [str] of a non-negative number is its canonical numeral. *)
Lemma str_of_nonneg_numeral :
  forall n, 0 <= n ->
    canonical_numeral (str_of_nonneg n) = true /\
    numeral_value 0 (str_of_nonneg n) = n.
Proof.
  intros n H. destruct (Z.eq_dec n 0) as [->|N]; [now split|].
  unfold str_of_nonneg.
  destruct (digits_of_positive (S (Z.to_nat (Z.log2 n))) n EmptyString)
    as (c & r & E & Hd & Hc & Hv).
  { split; [lia|]. rewrite Nat2Z.inj_succ, Z2Nat.id by apply Z.log2_nonneg.
    apply Z.log2_spec. lia. }
  rewrite E, append_empty. split; [|exact Hv].
  unfold canonical_numeral. rewrite Hd, Hc. reflexivity.
Qed.

(** [int(str(n)) == n], for a number within the limit on digits. *)
Lemma int_of_str_of_Z :
  forall n, within_limit (str_of_Z n) = true -> int_of_str (str_of_Z n) = Some n.
Proof.
  intros n L. unfold str_of_Z in *. destruct (n <? 0) eqn:N.
  - apply Z.ltb_lt in N.
    destruct (str_of_nonneg_numeral (- n)) as [Hc Hv]; [lia|].
    destruct (canonical_numeral_inv _ Hc) as (c & r & E & Hd).
    rewrite E in *. unfold int_of_str.
    change (lstrip_by is_int_space (String "-" (String c r))) with (String "-" (String c r)).
    change (Ascii.eqb "-" "+") with false. change (Ascii.eqb "-" "-") with true.
    cbn iota. rewrite (int_unsigned_digits c r Hd), Hv.
    + cbn [option_map]. now rewrite Z.opp_involutive.
    + exact L.
  - apply Z.ltb_ge in N.
    destruct (str_of_nonneg_numeral n N) as [Hc Hv].
    rewrite (py_int_canonical (str_of_nonneg n)), Hv; [reflexivity|].
    unfold version_numeral. now rewrite Hc, L.
Qed.

(** Reading the decimal text of a number back, whatever its length. *)
Lemma str_of_Z_injective : forall n n', str_of_Z n = str_of_Z n' -> n = n'.
Proof.
  assert (forall n, 0 <= n -> exists c r, str_of_nonneg n = String c r
            /\ is_digit c = true /\ numeral_value 0 (String c r) = n) as P.
  { intros n H. destruct (str_of_nonneg_numeral n H) as [Hc Hv].
    destruct (canonical_numeral_inv _ Hc) as (c & r & E & Hd).
    exists c, r. rewrite E in Hv. cbn [all_digits] in Hd.
    apply andb_true_iff in Hd as [Hd _]. auto. }
  intros n n' H. unfold str_of_Z in H.
  destruct (n <? 0) eqn:N; destruct (n' <? 0) eqn:N'.
  - apply Z.ltb_lt in N, N'. injection H as H.
    destruct (str_of_nonneg_numeral (- n)) as [_ Hv]; [lia|].
    destruct (str_of_nonneg_numeral (- n')) as [_ Hv']; [lia|].
    rewrite H in Hv. lia.
  - apply Z.ltb_ge in N'. destruct (P n' N') as (c & r & E & Hd & _).
    rewrite E in H. injection H as <- _. discriminate Hd.
  - apply Z.ltb_ge in N. destruct (P n N) as (c & r & E & Hd & _).
    rewrite E in H. injection H as -> _. discriminate Hd.
  - apply Z.ltb_ge in N, N'.
    destruct (str_of_nonneg_numeral n N) as [_ Hv].
    destruct (str_of_nonneg_numeral n' N') as [_ Hv'].
    rewrite H in Hv. lia.
Qed.

(** What [str] writes holds no dot and starts with no [v]. *)
Lemma str_of_Z_shape :
  forall n, exists c r,
    str_of_Z n = String c r /\ has_char "." (String c r) = false /\ Ascii.eqb c "v" = false.
Proof.
  intro n. unfold str_of_Z. destruct (n <? 0) eqn:L.
  - apply Z.ltb_lt in L.
    destruct (str_of_nonneg_numeral (- n)) as [Hc _]; [lia|].
    destruct (canonical_numeral_inv _ Hc) as (c & r & E & Hd).
    exists "-"%char, (str_of_nonneg (- n)). repeat split.
    rewrite E. cbn [has_char]. change (Ascii.eqb "-" ".") with false. cbn [orb].
    now apply (all_digits_no_char "." (String c r)).
  - apply Z.ltb_ge in L.
    destruct (str_of_nonneg_numeral n L) as [Hc _].
    destruct (canonical_numeral_inv _ Hc) as (c & r & E & Hd).
    exists c, r. rewrite E. repeat split.
    + now apply all_digits_no_char.
    + cbn [all_digits] in Hd. apply andb_true_iff in Hd as [Hd _].
      now apply digit_not.
Qed.

Lemma split_dot_segment :
  forall a rest, has_char "." a = false ->
    split_dot (a ++ String "." rest) = a :: split_dot rest.
Proof.
  induction a as [|c r IH]; intros rest H.
  - reflexivity.
  - cbn [has_char] in H. apply orb_false_iff in H as [Hc Hr].
    cbn [append split_dot]. rewrite Hc, (IH rest Hr). reflexivity.
Qed.

Lemma split_dot_last : forall a, has_char "." a = false -> split_dot a = [a].
Proof.
  induction a as [|c r IH]; intro H; [reflexivity|].
  cbn [has_char] in H. apply orb_false_iff in H as [Hc Hr].
  cbn [split_dot]. rewrite Hc, (IH Hr). reflexivity.
Qed.

Lemma split_dot_format_version :
  forall major minor patch,
    split_dot (format_version major minor patch)
    = [str_of_Z major; str_of_Z minor; str_of_Z patch].
Proof.
  intros major minor patch. unfold format_version.
  destruct (str_of_Z_shape major) as (c & r & E & Hdot & _).
  destruct (str_of_Z_shape minor) as (c1 & r1 & E1 & Hdot1 & _).
  destruct (str_of_Z_shape patch) as (c2 & r2 & E2 & Hdot2 & _).
  change (str_of_Z major ++ "." ++ str_of_Z minor ++ "." ++ str_of_Z patch)
    with (str_of_Z major ++ String "." (str_of_Z minor ++ String "." (str_of_Z patch))).
  rewrite split_dot_segment by (now rewrite E).
  rewrite split_dot_segment by (now rewrite E1).
  rewrite split_dot_last by (now rewrite E2). reflexivity.
Qed.

Lemma lstrip_v_format_version :
  forall major minor patch,
    lstrip_v (format_version major minor patch) = format_version major minor patch.
Proof.
  intros major minor patch. unfold format_version.
  destruct (str_of_Z_shape major) as (c & r & E & _ & Hv).
  rewrite E. cbn [append]. now apply lstrip_v_other.
Qed.

Lemma parse_format :
  forall major minor patch,
    within_limit (str_of_Z major) = true ->
    within_limit (str_of_Z minor) = true ->
    within_limit (str_of_Z patch) = true ->
    parse_version (format_version major minor patch) = OK (major, minor, patch).
Proof.
  intros major minor patch L1 L2 L3.
  apply (parse_version_accepts _ (str_of_Z major) (str_of_Z minor) (str_of_Z patch) []);
    try (now apply int_of_str_of_Z).
  now rewrite lstrip_v_format_version, split_dot_format_version.
Qed.

(** X1: parsing what [format_version] writes gives the three numbers
    back, for all integers of at most 4300 digits, the most that [int]
    and [str] convert. *)
Theorem parse_version_format_version :
  forall major minor patch,
    within_limit (str_of_Z major) = true ->
    within_limit (str_of_Z minor) = true ->
    within_limit (str_of_Z patch) = true ->
    parse_version (format_version major minor patch) = OK (major, minor, patch).
Proof. exact parse_format. Qed.

Lemma parse_version_format_version_witness :
  parse_version (format_version 12 (-3) 0) = OK (12, -3, 0).
Proof. apply (parse_version_format_version 12 (-3) 0); reflexivity. Defined.

(** X2: [format_version] is injective: two versions with the same text
    are the same version. *)
Theorem format_version_injective :
  forall major minor patch major' minor' patch',
    format_version major minor patch = format_version major' minor' patch' ->
    (major, minor, patch) = (major', minor', patch').
Proof.
  intros major minor patch major' minor' patch' H.
  pose proof (split_dot_format_version major minor patch) as P.
  rewrite H, split_dot_format_version in P.
  injection P as H1 H2 H3.
  apply str_of_Z_injective in H1, H2, H3. now subst.
Qed.

Lemma format_version_injective_witness :
  (1, 2, 3) = (1, 2, 3).
Proof. apply (format_version_injective 1 2 3 1 2 3). reflexivity. Defined.

(** ** More on the parser *)

Lemma lstrip_v_app_dot :
  forall s t, lstrip_v (s ++ String "." t) = lstrip_v s ++ String "." t.
Proof.
  unfold lstrip_v. induction s as [|c r IH]; intro t; [reflexivity|].
  cbn [append lstrip_by]. destruct (Ascii.eqb c "v"); [apply IH|reflexivity].
Qed.

Lemma split_dot_app :
  forall u t, split_dot (u ++ String "." t) = (split_dot u ++ split_dot t)%list.
Proof.
  induction u as [|c r IH]; intro t; [reflexivity|].
  cbn [append split_dot]. rewrite IH.
  destruct (Ascii.eqb c "."); [reflexivity|].
  destruct (split_dot r) as [|h tl] eqn:E; [now apply split_dot_nonempty in E|reflexivity].
Qed.

(** X3: whatever follows the third segment is ignored: a text that
    parses keeps its version when a dot and anything else is appended. *)
Theorem parse_version_ignores_extra_segments :
  forall s extra v,
    parse_version s = OK v -> parse_version (s ++ "." ++ extra) = OK v.
Proof.
  intros s extra [[major minor] patch] H.
  destruct (parse_version_ok_inv _ _ _ _ H) as (a & b & c & rest & E & Ha & Hb & Hc).
  apply (parse_version_accepts _ a b c (rest ++ split_dot extra)%list); try assumption.
  change (s ++ "." ++ extra) with (s ++ String "." extra).
  rewrite lstrip_v_app_dot, split_dot_app, E. reflexivity.
Qed.

Lemma parse_version_ignores_extra_segments_witness :
  parse_version ("1.2.3" ++ "." ++ "4-beta") = OK (1, 2, 3).
Proof. apply (parse_version_ignores_extra_segments "1.2.3" "4-beta"). reflexivity. Defined.

(** X4: [parse_version] raises nothing but a [ValueError], and the text
    in its message is the input without its leading [v]s. *)
Theorem parse_version_error_message :
  forall s e, parse_version s = Err e ->
    e = ValueError ("Invalid version format: " ++ lstrip_v s).
Proof. exact parse_version_error. Qed.

Lemma parse_version_error_message_witness :
  ValueError "Invalid version format: 1.2" = ValueError ("Invalid version format: " ++ lstrip_v "v1.2").
Proof. apply (parse_version_error_message "v1.2"). reflexivity. Defined.

(** X5: each of the three directives gives a version that is greater
    than the one it started from, in the order of version tuples. *)
Theorem increment_moves_forward :
  forall major minor patch,
    version_lt (major, minor, patch) (increment major minor patch (Some "major")) = true /\
    version_lt (major, minor, patch) (increment major minor patch (Some "minor")) = true /\
    version_lt (major, minor, patch) (increment major minor patch (Some "patch")) = true.
Proof.
  intros major minor patch. cbn [increment String.eqb Ascii.eqb Bool.eqb]. cbv beta iota.
  unfold version_lt.
  rewrite !Z.eqb_refl.
  replace (major <? major + 1) with true by (symmetry; apply Z.ltb_lt; lia).
  replace (minor <? minor + 1) with true by (symmetry; apply Z.ltb_lt; lia).
  replace (patch <? patch + 1) with true by (symmetry; apply Z.ltb_lt; lia).
  cbn [orb andb]. rewrite !orb_true_r. auto.
Qed.

(** ** Questions to the user *)

Lemma is_yes_spec :
  forall response,
    is_yes response = String.eqb (strip response) "y" || String.eqb (strip response) "Y".
Proof.
  intro response. unfold is_yes. generalize (strip response) as t.
  intros [|c [|d r]].
  - reflexivity.
  - cbn [lower]. destruct c as [[] [] [] [] [] [] [] []]; reflexivity.
  - cbn [lower String.eqb].
    repeat match goal with
           | |- context [Ascii.eqb ?a ?b] => destruct (Ascii.eqb a b)
           end; reflexivity.
Qed.

(** X6: [confirm_action] reads one line and takes it for a yes exactly
    when the line, white space at its ends aside, is y or Y; it runs no
    command and touches no file. *)
Theorem confirm_action_answer :
  forall question w line rest,
    stdin w = line :: rest ->
    exists w',
      confirm_action question w =
        (OK (String.eqb (strip line) "y" || String.eqb (strip line) "Y"), w') /\
      stdin w' = rest /\ fs w' = fs w /\ spawned w' = spawned w /\
      trace w' = (trace w ++ [Prompt (question ++ " (y/n): ") (Some line)])%list.
Proof.
  intros question [dir lines pr sp files tr] line rest H. cbn [stdin] in H. subst lines.
  eexists. split; [|split; [|split; [|split]]].
  - unfold confirm_action, bind, input, ret. cbn [stdin]. rewrite is_yes_spec. reflexivity.
  - reflexivity.
  - reflexivity.
  - reflexivity.
  - reflexivity.
Qed.

Lemma confirm_action_answer_witness :
  exists w',
    confirm_action "Proceed?" (boot "/repo" [" Y "; "n"] sample_procs sample_files) =
      (OK (String.eqb (strip " Y ") "y" || String.eqb (strip " Y ") "Y"), w') /\
    stdin w' = ["n"] /\ fs w' = sample_files /\ spawned w' = O /\
    trace w' = [Prompt "Proceed? (y/n): " (Some " Y ")].
Proof.
  apply (confirm_action_answer "Proceed?" (boot "/repo" [" Y "; "n"] sample_procs sample_files)).
  reflexivity.
Defined.

Lemma ask_choice_retries :
  forall bad fuel dir pr sp files tr good rest it,
    (List.length bad < fuel)%nat ->
    forallb refused_choice bad = true ->
    choice_of good = Some it ->
    ask_choice fuel (mkWorld dir (bad ++ good :: rest) pr sp files tr) =
      (OK it, mkWorld dir rest pr sp files
                (tr ++ flat_map refusal bad
                    ++ [Prompt "Enter your choice (0-3): " (Some good)])).
Proof.
  induction bad as [|line bad IH]; intros fuel dir pr sp files tr good rest it Hf Hb Hg;
    (destruct fuel as [|fuel]; [cbn [List.length] in Hf; lia|]).
  - cbn [ask_choice app flat_map]. unfold bind at 1, input at 1. cbn [stdin].
    unfold choice_of in Hg. cbv zeta in Hg.
    destruct (String.eqb (strip good) "0"); [injection Hg as <-; reflexivity|].
    destruct (String.eqb (strip good) "1"); [injection Hg as <-; reflexivity|].
    destruct (String.eqb (strip good) "2"); [injection Hg as <-; reflexivity|].
    destruct (String.eqb (strip good) "3"); [injection Hg as <-; reflexivity|].
    discriminate.
  - cbn [forallb] in Hb. apply andb_true_iff in Hb as [Hl Hb].
    cbn [ask_choice app flat_map]. unfold bind at 1, input at 1. cbn [stdin].
    unfold refused_choice, choice_of in Hl. cbv zeta in Hl.
    destruct (String.eqb (strip line) "0"); [discriminate|].
    destruct (String.eqb (strip line) "1"); [discriminate|].
    destruct (String.eqb (strip line) "2"); [discriminate|].
    destruct (String.eqb (strip line) "3"); [discriminate|].
    unfold bind, print_error, emit.
    cbn [script_dir stdin procs spawned fs trace].
    rewrite (IH fuel dir pr sp files _ good rest it); [|cbn [List.length] in Hf; lia|exact Hb|exact Hg].
    unfold refusal at 2. rewrite <- !app_assoc. reflexivity.
Qed.

Lemma ask_choice_eof :
  forall lines fuel dir pr sp files tr,
    (List.length lines < fuel)%nat ->
    forallb refused_choice lines = true ->
    ask_choice fuel (mkWorld dir lines pr sp files tr) =
      (Err EOFError, mkWorld dir [] pr sp files
                       (tr ++ flat_map refusal lines
                           ++ [Prompt "Enter your choice (0-3): " None])).
Proof.
  induction lines as [|line lines IH]; intros fuel dir pr sp files tr Hf Hb;
    (destruct fuel as [|fuel]; [cbn [List.length] in Hf; lia|]).
  - reflexivity.
  - cbn [forallb] in Hb. apply andb_true_iff in Hb as [Hl Hb].
    cbn [ask_choice app flat_map]. unfold bind at 1, input at 1. cbn [stdin].
    unfold refused_choice, choice_of in Hl. cbv zeta in Hl.
    destruct (String.eqb (strip line) "0"); [discriminate|].
    destruct (String.eqb (strip line) "1"); [discriminate|].
    destruct (String.eqb (strip line) "2"); [discriminate|].
    destruct (String.eqb (strip line) "3"); [discriminate|].
    unfold bind, print_error, emit.
    cbn [script_dir stdin procs spawned fs trace].
    rewrite (IH fuel dir pr sp files _); [|cbn [List.length] in Hf; lia|exact Hb].
    unfold refusal at 2. rewrite <- !app_assoc. reflexivity.
Qed.

(** X7: [ask_version_increment] asks until it gets a valid choice: with
    refused lines followed by a valid one on standard input it returns
    what the valid line stands for, having read exactly these lines and
    answered each refused one with the error message; it runs no command
    and touches no file. *)
Theorem ask_version_increment_retries :
  forall w bad good rest it,
    stdin w = (bad ++ good :: rest)%list ->
    forallb refused_choice bad = true ->
    choice_of good = Some it ->
    exists w' menu,
      ask_version_increment w = (OK it, w') /\
      stdin w' = rest /\ fs w' = fs w /\ spawned w' = spawned w /\
      forallb is_output menu = true /\
      trace w' = (trace w ++ menu ++ flat_map refusal bad
                    ++ [Prompt "Enter your choice (0-3): " (Some good)])%list.
Proof.
  intros [dir lines pr sp files tr] bad good rest it H Hb Hg. cbn [stdin] in H. subst lines.
  unfold ask_version_increment, bind, print, emit.
  cbn [script_dir stdin procs spawned fs trace].
  rewrite (ask_choice_retries bad _ dir pr sp files _ good rest it);
    [|rewrite length_app; cbn [List.length]; lia|exact Hb|exact Hg].
  rewrite <- !app_assoc. cbn [app].
  eexists. eexists [_; _; _; _; _].
  split; [reflexivity|]. cbn [stdin fs spawned trace].
  split; [reflexivity|]. split; [reflexivity|]. split; [reflexivity|].
  refine ((fun H => conj (proj2 H) (proj1 H)) _).
  split; [cbn [app]; reflexivity|reflexivity].
Qed.

Lemma ask_version_increment_retries_witness :
  exists w' menu,
    ask_version_increment (boot "/repo" ["9"; "minor"; " 2 "; "y"] sample_procs sample_files)
      = (OK (Some "minor"), w') /\
    stdin w' = ["y"] /\ fs w' = sample_files /\ spawned w' = O /\
    forallb is_output menu = true /\
    trace w' = ([] ++ menu ++ flat_map refusal ["9"; "minor"]
                  ++ [Prompt "Enter your choice (0-3): " (Some " 2 ")])%list.
Proof.
  apply (ask_version_increment_retries
           (boot "/repo" ["9"; "minor"; " 2 "; "y"] sample_procs sample_files)
           ["9"; "minor"] " 2 " ["y"] (Some "minor")); reflexivity.
Defined.

(** X8: when standard input ends before a valid choice was given,
    [ask_version_increment] raises [EOFError]. *)
Theorem ask_version_increment_eof :
  forall w,
    forallb refused_choice (stdin w) = true ->
    exists w',
      ask_version_increment w = (Err EOFError, w') /\
      stdin w' = [] /\ fs w' = fs w /\ spawned w' = spawned w.
Proof.
  intros [dir lines pr sp files tr] Hb. cbn [stdin] in Hb.
  unfold ask_version_increment, bind, print, emit.
  cbn [script_dir stdin procs spawned fs trace].
  rewrite (ask_choice_eof lines _ dir pr sp files _); [|lia|exact Hb].
  eexists. split; [reflexivity|]. repeat split.
Qed.

Lemma ask_version_increment_eof_witness :
  exists w',
    ask_version_increment (boot "/repo" ["4"; "major"] sample_procs sample_files)
      = (Err EOFError, w') /\
    stdin w' = [] /\ fs w' = sample_files /\ spawned w' = O.
Proof.
  apply (ask_version_increment_eof (boot "/repo" ["4"; "major"] sample_procs sample_files)).
  reflexivity.
Defined.

(** ** Writing the version into a metadata file *)

Lemma dict_get_set_other :
  forall key k v members default,
    k <> key -> dict_get k (dict_set key v members) default = dict_get k members default.
Proof.
  intros key k v members default N. induction members as [|[k' old] rest IH]; cbn.
  - destruct (String.eqb_spec key k); [congruence|reflexivity].
  - destruct (String.eqb_spec k' key) as [->|N']; cbn.
    + destruct (String.eqb_spec key k); [congruence|reflexivity].
    + destruct (String.eqb k' k); [reflexivity|exact IH].
Qed.

Lemma not_write_none :
  forall evs, forallb not_write evs = true -> existsb is_write evs = false.
Proof.
  induction evs as [|e evs IH]; intro H; [reflexivity|].
  cbn [forallb] in H. apply andb_true_iff in H as [He Hr].
  cbn [existsb]. rewrite (IH Hr). unfold not_write in He.
  apply negb_true_iff in He. now rewrite He.
Qed.

(** X9: when the file is missing, cannot be read, is not JSON or holds
    a JSON value that is not an object, [update_json_version] does not
    write: no file is opened for writing and every file stays as it
    is. *)
Theorem update_json_version_writes_only_objects :
  forall p version w r w',
    update_json_version p version w = (r, w') ->
    holds_object (fs w p) = false ->
    fs w' = fs w /\
    exists evs, trace w' = (trace w ++ evs)%list /\ existsb is_write evs = false.
Proof.
  intros p version w r w' H Hno. unfold update_json_version, load_json, dump_json in H.
  exec H.
  all: injection H as <- <-; cbn [fs trace].
  all: try solve
         [ exfalso;
           repeat match goal with
                  | E : fs _ _ = _ |- _ => rewrite E in Hno; clear E
                  end;
           repeat match goal with
                  | E : Some _ = Some _ |- _ => injection E as E; subst
                  end;
           repeat match goal with
                  | f : File |- _ => destruct f
                  end;
           repeat match goal with
                  | E : _ = Doc _ |- _ => simpl in E; subst
                  end;
           match goal with
           | E : set_version_field ?d _ = OK _ |- _ =>
               destruct d; try discriminate E
           end;
           discriminate Hno ].
  all: split; [reflexivity|].
  all: rewrite <- ?app_assoc; eexists; split; reflexivity.
Qed.

Lemma update_json_version_writes_only_objects_witness :
  fs (snd (update_json_version "/repo/package.json" "1.2.4"
             (boot "/repo" [] sample_procs array_files))) = array_files /\
  exists evs,
    trace (snd (update_json_version "/repo/package.json" "1.2.4"
                  (boot "/repo" [] sample_procs array_files))) = ([] ++ evs)%list /\
    existsb is_write evs = false.
Proof.
  apply (update_json_version_writes_only_objects "/repo/package.json" "1.2.4"
           (boot "/repo" [] sample_procs array_files)
           (fst (update_json_version "/repo/package.json" "1.2.4"
                   (boot "/repo" [] sample_procs array_files)))).
  - apply surjective_pairing.
  - reflexivity.
Defined.

(** X10: after a successful [update_json_version], reading the version
    of the same file with [get_current_version] gives the new version. *)
Theorem update_then_get_current_version :
  forall p version w w',
    update_json_version p version w = (OK true, w') ->
    fst (get_current_version p w') = OK (JStr version).
Proof.
  intros p version w w' H. unfold update_json_version, load_json, dump_json in H.
  exec H.
  all: try discriminate H.
  all: injection H as <-.
  all: unfold get_current_version, load_json, bind, emit, lift, set_file;
    cbn [fs script_dir stdin procs spawned trace]; rewrite String.eqb_refl; cbn [content fst].
  all: eapply set_then_get_version; eassumption.
Qed.

Lemma update_then_get_current_version_witness :
  fst (get_current_version "/repo/package.json"
         (snd (update_json_version "/repo/package.json" "1.3.0"
                 (boot "/repo" [] sample_procs sample_files)))) = OK (JStr "1.3.0").
Proof.
  apply (update_then_get_current_version "/repo/package.json" "1.3.0"
           (boot "/repo" [] sample_procs sample_files)).
  reflexivity.
Defined.

(** X11: a successful [update_json_version] changes the version member
    of the one file and nothing else: the file held a JSON object, every
    other member of it keeps its value, and every other file is as it
    was. *)
Theorem update_json_version_keeps_the_rest :
  forall p version w w',
    update_json_version p version w = (OK true, w') ->
    exists old new f f',
      fs w p = Some f /\ content f = Doc (JObj old) /\
      fs w' p = Some f' /\ content f' = Doc (JObj new) /\
      (forall k default, k <> "version" -> dict_get k new default = dict_get k old default) /\
      (forall q, q <> p -> fs w' q = fs w q).
Proof.
  intros p version w w' H. unfold update_json_version, load_json, dump_json in H.
  exec H.
  all: try discriminate H.
  all: injection H as <-; cbn [fs].
  all: match goal with
       | E : set_version_field ?d _ = OK _ |- _ =>
           destruct d; try discriminate E; injection E as <-
       end.
  all: try match goal with E : None = Some _ |- _ => discriminate E end.
  all: do 4 eexists.
  all: split; [reflexivity|]; split; [eassumption|].
  all: unfold set_file; rewrite String.eqb_refl.
  all: split; [reflexivity|]; split; [reflexivity|]; split.
  all: try (intros k default N; now apply dict_get_set_other).
  all: intros q N; destruct (String.eqb_spec q p); [congruence|reflexivity].
Qed.

Lemma update_json_version_keeps_the_rest_witness :
  exists old new f f',
    sample_files "/repo/package.json" = Some f /\ content f = Doc (JObj old) /\
    fs (snd (update_json_version "/repo/package.json" "1.3.0"
               (boot "/repo" [] sample_procs sample_files))) "/repo/package.json" = Some f' /\
    content f' = Doc (JObj new) /\
    (forall k default, k <> "version" -> dict_get k new default = dict_get k old default) /\
    (forall q, q <> "/repo/package.json" ->
       fs (snd (update_json_version "/repo/package.json" "1.3.0"
                  (boot "/repo" [] sample_procs sample_files))) q = sample_files q).
Proof.
  apply (update_json_version_keeps_the_rest "/repo/package.json" "1.3.0"
           (boot "/repo" [] sample_procs sample_files)).
  reflexivity.
Defined.

(** ** The checks on the repository *)

Lemma run_result_ok : forall o, fst (run_result o) = completed o.
Proof. now intros []. Qed.

Ltac run_monad :=
  rewrite ?run_command_plain;
  cbv beta iota delta
    [bind ret raise lift try emit input spawn path_exists confirm_action
     print_header print_success print_info print_warning print_error print
     script_dir stdin procs spawned fs trace];
  cbn [fst snd negb run_result completed andb].

(** X12: when [git status --porcelain] fails, or succeeds and prints
    nothing but white space, [check_git_status] asks the user nothing: it
    returns [False] in the first case and [True] in the second, having
    run this one command. *)
Theorem check_git_status_asks_nothing :
  forall w,
    (forall out, procs w (spawned w) = Completed out -> strip out = "") ->
    exists w',
      check_git_status w = (OK (completed (procs w (spawned w))), w') /\
      stdin w' = stdin w /\ fs w' = fs w /\ spawned w' = S (spawned w).
Proof.
  intros [dir lines pr sp files tr] H. cbn [procs spawned] in H.
  unfold check_git_status. run_monad.
  destruct (pr sp) as [out|err|msg] eqn:E; run_monad.
  - rewrite (H out eq_refl). cbn [String.eqb negb]. eexists. split; [reflexivity|].
    cbn [stdin fs spawned]. auto.
  - eexists. split; [reflexivity|]. cbn [stdin fs spawned]. auto.
  - eexists. split; [reflexivity|]. cbn [stdin fs spawned]. auto.
Qed.

Lemma check_git_status_asks_nothing_witness :
  exists w',
    check_git_status (boot "/repo" ["y"] sample_procs sample_files) = (OK true, w') /\
    stdin w' = ["y"] /\ fs w' = sample_files /\ spawned w' = 1%nat.
Proof.
  apply (check_git_status_asks_nothing (boot "/repo" ["y"] sample_procs sample_files)).
  intros out H. injection H as <-. reflexivity.
Defined.

(** X13: a commit message that is empty once stripped makes
    [commit_pending_changes] return [False] without running any command. *)
Theorem commit_pending_changes_blank_message :
  forall w line rest,
    stdin w = line :: rest -> strip line = "" ->
    exists w',
      commit_pending_changes w = (OK false, w') /\
      stdin w' = rest /\ fs w' = fs w /\ spawned w' = spawned w /\
      cmds_of (trace w') = cmds_of (trace w).
Proof.
  intros [dir lines pr sp files tr] line rest H Hs. cbn [stdin] in H. subst lines.
  unfold commit_pending_changes. run_monad. rewrite Hs. cbn [String.eqb]. run_monad.
  eexists. split; [reflexivity|]. cbn [stdin fs spawned trace].
  rewrite !cmds_of_app. cbn [cmds_of flat_map app]. rewrite !app_nil_r. auto.
Qed.

Lemma commit_pending_changes_blank_message_witness :
  exists w',
    commit_pending_changes (boot "/repo" ["  "; "y"] unclean_procs sample_files)
      = (OK false, w') /\
    stdin w' = ["y"] /\ fs w' = sample_files /\ spawned w' = O /\
    cmds_of (trace w') = cmds_of [].
Proof.
  apply (commit_pending_changes_blank_message
           (boot "/repo" ["  "; "y"] unclean_procs sample_files) "  " ["y"]); reflexivity.
Defined.

(** What [commit_pending_changes] does with a commit message that is
    not blank. *)
Lemma commit_pending_changes_run :
  forall w line rest,
    stdin w = line :: rest -> strip line <> "" ->
    exists w' evs,
      commit_pending_changes w =
        (OK (completed (procs w (spawned w)) && completed (procs w (S (spawned w)))), w') /\
      stdin w' = rest /\ fs w' = fs w /\
      trace w' = (trace w ++ evs)%list /\
      cmds_of evs =
        (["git"; "add"; "-A"], completed (procs w (spawned w)))
        :: (if completed (procs w (spawned w))
            then [(["git"; "commit"; "-m"; strip line], completed (procs w (S (spawned w))))]
            else []).
Proof.
  intros [dir lines pr sp files tr] line rest H Hs. cbn [stdin] in H. subst lines.
  cbn [procs spawned].
  unfold commit_pending_changes. run_monad.
  destruct (String.eqb_spec (strip line) "") as [E|_]; [contradiction|]. run_monad.
  destruct (pr sp) as [out|err|msg]; run_monad.
  1: destruct (pr (S sp)) as [out'|err'|msg']; run_monad.
  all: eexists; eexists; split; [reflexivity|]; cbn [stdin fs trace].
  all: split; [reflexivity|]; split; [reflexivity|].
  all: rewrite <- !app_assoc; split; [reflexivity|reflexivity].
Qed.

(** X14: when [commit_pending_changes], given a commit message that is
    not blank, returns, it has run [git add -A] and, only if that call
    of [subprocess.run] returned, [git commit -m] with the stripped
    message; the value returned is [True] exactly when both calls
    returned. *)
Theorem commit_pending_changes_commands :
  forall w line rest b w',
    stdin w = line :: rest -> strip line <> "" ->
    commit_pending_changes w = (OK b, w') ->
    b = completed (procs w (spawned w)) && completed (procs w (S (spawned w))) /\
    stdin w' = rest /\ fs w' = fs w /\
    exists evs,
      trace w' = (trace w ++ evs)%list /\
      cmds_of evs =
        (["git"; "add"; "-A"], completed (procs w (spawned w)))
        :: (if completed (procs w (spawned w))
            then [(["git"; "commit"; "-m"; strip line], completed (procs w (S (spawned w))))]
            else []).
Proof.
  intros w line rest b w' H Hs Hrun.
  destruct (commit_pending_changes_run w line rest H Hs) as (w1 & evs & E & Hin & Hfs & T & C).
  rewrite E in Hrun. injection Hrun as <- <-.
  split; [reflexivity|]. split; [exact Hin|]. split; [exact Hfs|].
  exists evs. split; assumption.
Qed.

Lemma commit_pending_changes_commands_witness :
  let w := boot "/repo" [" fix typo "] sample_procs sample_files in
  let w' := snd (commit_pending_changes w) in
  true = completed (sample_procs O) && completed (sample_procs 1%nat) /\
  stdin w' = [] /\ fs w' = sample_files /\
  exists evs,
    trace w' = ([] ++ evs)%list /\
    cmds_of evs =
      (["git"; "add"; "-A"], completed (sample_procs O))
      :: (if completed (sample_procs O)
          then [(["git"; "commit"; "-m"; strip " fix typo "], completed (sample_procs 1%nat))]
          else []).
Proof.
  intros w w'.
  apply (commit_pending_changes_commands w " fix typo " [] true w').
  - reflexivity.
  - vm_compute. discriminate.
  - vm_compute. reflexivity.
Defined.

(** What [check_git_remote] does. *)
Lemma check_git_remote_run_result :
  forall w,
    exists w',
      check_git_remote w =
        (OK match procs w (spawned w) with
            | Completed out => negb (String.eqb (strip out) "")
            | _ => false
            end, w') /\
      stdin w' = stdin w /\ fs w' = fs w /\ spawned w' = S (spawned w).
Proof.
  intros [dir lines pr sp files tr]. cbn [procs spawned].
  unfold check_git_remote. run_monad.
  destruct (pr sp) as [out|err|msg]; run_monad.
  1: cbn [orb]; destruct (String.eqb (strip out) ""); run_monad.
  all: eexists; split; [reflexivity|]; cbn [stdin fs spawned]; auto.
Qed.

(** X15: when [check_git_remote] returns, the value is [True] exactly
    when the call of [subprocess.run] for [git remote -v] returned (exit
    status 0, output decoded) with output that is not blank; the
    function has run this one command and asked the user nothing. *)
Theorem check_git_remote_result :
  forall w b w',
    check_git_remote w = (OK b, w') ->
    b = match procs w (spawned w) with
        | Completed out => negb (String.eqb (strip out) "")
        | _ => false
        end /\
    stdin w' = stdin w /\ fs w' = fs w /\ spawned w' = S (spawned w).
Proof.
  intros w b w' Hrun.
  destruct (check_git_remote_run_result w) as (w1 & E & Hin & Hfs & Hsp).
  rewrite E in Hrun. injection Hrun as <- <-. auto.
Qed.

Lemma check_git_remote_result_witness :
  let w := boot "/repo" [] sample_procs sample_files in
  let w' := snd (check_git_remote w) in
  false = match sample_procs O with
          | Completed out => negb (String.eqb (strip out) "")
          | _ => false
          end /\
  stdin w' = [] /\ fs w' = sample_files /\ spawned w' = 1%nat.
Proof.
  intros w w'.
  apply (check_git_remote_result w false w').
  vm_compute. reflexivity.
Defined.

(** ** Exceptions that leave [main] *)

Lemma eof_only_bind :
  forall A B (m : M A) (k : A -> M B),
    eof_only m -> (forall a, eof_only (k a)) -> eof_only (bind m k).
Proof.
  intros A B m k Hm Hk w e w' H.
  destruct (bind_inv _ _ _ _ _ _ _ H) as [(a & w1 & H1 & H2)|(e' & H1 & E)].
  - eapply Hk; eassumption.
  - injection E as ->. eapply Hm; eassumption.
Qed.

Lemma eof_only_ret : forall A (a : A), eof_only (ret a).
Proof. intros A a w e w' H. discriminate H. Qed.

Lemma eof_only_emit : forall ev, eof_only (emit ev).
Proof. intros ev w e w' H. discriminate H. Qed.

Lemma eof_only_input : forall prompt, eof_only (input prompt).
Proof.
  intros prompt w e w' H. unfold input in H.
  destruct (stdin w); [|discriminate]. injection H as <- <-. auto.
Qed.

Lemma eof_only_spawn : forall cmd, eof_only (spawn cmd).
Proof. intros cmd w e w' H. discriminate H. Qed.

Lemma eof_only_try : forall A (m : M A), eof_only (try m).
Proof. intros A m w e w' H. unfold try in H. destruct (m w). discriminate H. Qed.

Lemma eof_only_if :
  forall A (b : bool) (m1 m2 : M A),
    eof_only m1 -> eof_only m2 -> eof_only (if b then m1 else m2).
Proof. intros A [] m1 m2 H1 H2; assumption. Qed.

Lemma eof_only_run_command : forall cmd d, eof_only (run_command cmd d).
Proof.
  intros cmd d. unfold run_command. apply eof_only_bind.
  - apply eof_only_if; [apply eof_only_ret|apply eof_only_emit].
  - intros _. apply eof_only_spawn.
Qed.

Ltac eof_only_step :=
  lazymatch goal with
  | |- eof_only (bind _ _) => apply eof_only_bind; [|intro]
  | |- eof_only (ret _) => apply eof_only_ret
  | |- eof_only (try _) => apply eof_only_try
  | |- eof_only (print_header _) => apply eof_only_emit
  | |- eof_only (print_success _) => apply eof_only_emit
  | |- eof_only (print_info _) => apply eof_only_emit
  | |- eof_only (print_warning _) => apply eof_only_emit
  | |- eof_only (print_error _) => apply eof_only_emit
  | |- eof_only (print _) => apply eof_only_emit
  | |- eof_only (input _) => apply eof_only_input
  | |- eof_only (run_command _ _) => apply eof_only_run_command
  | |- eof_only (if _ then _ else _) => apply eof_only_if
  | |- eof_only (match ?x with (_, _) => _ end) => destruct x
  | |- eof_only (match ?x with OK _ => _ | Err _ => _ end) => destruct x
  end.

Lemma confirm_action_eof_only : forall question, eof_only (confirm_action question).
Proof. intro question. unfold confirm_action. repeat eof_only_step. Qed.

Lemma check_git_status_eof_only : eof_only check_git_status.
Proof.
  unfold check_git_status, commit_pending_changes, confirm_action.
  repeat eof_only_step.
Qed.

Lemma check_git_remote_eof_only : eof_only check_git_remote.
Proof. unfold check_git_remote. repeat eof_only_step. Qed.

Lemma update_json_version_eof_only : forall p v, eof_only (update_json_version p v).
Proof. intros p v. unfold update_json_version. repeat eof_only_step. Qed.

Lemma git_add_and_commit_eof_only : forall files v, eof_only (git_add_and_commit files v).
Proof. intros files v. unfold git_add_and_commit. repeat eof_only_step. Qed.

Lemma git_create_and_push_tag_eof_only : forall v, eof_only (git_create_and_push_tag v).
Proof.
  intro v. unfold git_create_and_push_tag, create_and_push, confirm_action.
  repeat eof_only_step.
Qed.

Lemma ask_choice_result :
  forall fuel w r w',
    (List.length (stdin w) < fuel)%nat ->
    ask_choice fuel w = (r, w') ->
    match r with
    | OK increment_type => is_directive increment_type = true
    | Err e => e = EOFError /\ stdin w' = []
    end.
Proof.
  induction fuel as [|f IH]; intros [dir lines pr sp files tr] r w' Hf H;
    cbn [stdin] in Hf; [lia|].
  cbn [ask_choice] in H. unfold bind at 1, input at 1 in H. cbn [stdin] in H.
  destruct lines as [|line lines].
  - injection H as <- <-. auto.
  - repeat match type of H with
           | (if ?b then _ else _) _ = _ =>
               destruct b; [unfold ret in H; injection H as <- <-; reflexivity|]
           end.
    unfold bind, print_error, emit in H. cbn [script_dir stdin procs spawned fs trace] in H.
    eapply IH; [|exact H]. cbn [stdin List.length] in *. lia.
Qed.

Lemma ask_version_increment_result :
  forall w r w',
    ask_version_increment w = (r, w') ->
    match r with
    | OK increment_type => is_directive increment_type = true
    | Err e => e = EOFError /\ stdin w' = []
    end.
Proof.
  intros [dir lines pr sp files tr] r w' H.
  unfold ask_version_increment, bind, print, emit in H.
  cbn [script_dir stdin procs spawned fs trace] in H.
  eapply ask_choice_result; [|exact H]. cbn [stdin]. lia.
Qed.

Lemma show_release_preview_eof_only :
  forall cur new increment_type,
    is_directive increment_type = true ->
    eof_only (show_release_preview cur new increment_type).
Proof.
  intros cur new [t|] H; unfold show_release_preview.
  - assert (t = "patch" \/ t = "minor" \/ t = "major") as E.
    { cbn [is_directive] in H.
      destruct (String.eqb_spec t "patch"); [now left|].
      destruct (String.eqb_spec t "minor"); [now right; left|].
      destruct (String.eqb_spec t "major"); [now right; right|discriminate H]. }
    unfold type_names.
    destruct E as [-> | [-> | ->]]; cbn [String.eqb Ascii.eqb Bool.eqb];
      repeat eof_only_step.
  - repeat eof_only_step.
Qed.

(** Of the exceptions the model has, only the [EOFError] of a question
    asked at the end of standard input leaves [main]. *)
Lemma main_err_is_eof :
  forall w e w', main w = (Err e, w') -> e = EOFError /\ stdin w' = [].
Proof.
  intros w e w' H. remember (Err e : result Z) as r eqn:Er. unfold main in H.
  walk H.
  all: try_returns.
  all: try discriminate Er.
  all: injection Er as ->.
  all: repeat match goal with
         | Hc : ask_version_increment _ = (OK _, _) |- _ =>
             apply ask_version_increment_result in Hc
         end.
  all: match goal with
       | Hc : check_git_status _ = (Err _, _) |- _ =>
           exact (check_git_status_eof_only _ _ _ Hc)
       | Hc : check_git_remote _ = (Err _, _) |- _ =>
           exact (check_git_remote_eof_only _ _ _ Hc)
       | Hc : ask_version_increment _ = (Err _, _) |- _ =>
           exact (ask_version_increment_result _ _ _ Hc)
       | Hc : show_release_preview _ _ _ _ = (Err _, _) |- _ =>
           refine (show_release_preview_eof_only _ _ _ _ _ _ _ Hc); assumption
       | Hc : confirm_action _ _ = (Err _, _) |- _ =>
           exact (confirm_action_eof_only _ _ _ _ Hc)
       | Hc : update_json_version _ _ _ = (Err _, _) |- _ =>
           exact (update_json_version_eof_only _ _ _ _ _ Hc)
       | Hc : git_add_and_commit _ _ _ = (Err _, _) |- _ =>
           exact (git_add_and_commit_eof_only _ _ _ _ _ Hc)
       | Hc : git_create_and_push_tag _ _ = (Err _, _) |- _ =>
           exact (git_create_and_push_tag_eof_only _ _ _ _ Hc)
       end.
Qed.

(** X16: the lookup [type_names[increment_type]] in
    [show_release_preview] cannot fail inside [main]: no run of [main]
    ends with a [KeyError]. *)
Theorem main_raises_no_key_error :
  forall w e w' key, main w = (Err e, w') -> e <> KeyError key.
Proof.
  intros w e w' key H. destruct (main_err_is_eof w e w' H) as [-> _]. discriminate.
Qed.

Lemma main_raises_no_key_error_witness :
  EOFError <> KeyError "minor".
Proof.
  apply (main_raises_no_key_error (boot "/repo" ["2"] sample_procs sample_files)
           EOFError (snd (main (boot "/repo" ["2"] sample_procs sample_files)))).
  vm_compute. reflexivity.
Defined.

(** ** The preview *)

(** X17: for each value [ask_version_increment] can return,
    [show_release_preview] only prints: it returns normally, reads no
    input, runs no command and touches no file. *)
Theorem show_release_preview_prints :
  forall cur new increment_type w,
    is_directive increment_type = true ->
    exists w' evs,
      show_release_preview cur new increment_type w = (OK tt, w') /\
      trace w' = (trace w ++ evs)%list /\ forallb is_output evs = true /\
      stdin w' = stdin w /\ fs w' = fs w /\ spawned w' = spawned w.
Proof.
  intros cur new increment_type [dir lines pr sp files tr] H.
  assert (increment_type = None \/ increment_type = Some "patch"
          \/ increment_type = Some "minor" \/ increment_type = Some "major") as E.
  { destruct increment_type as [t|]; [|now left]. right. cbn [is_directive] in H.
    destruct (String.eqb_spec t "patch"); [subst; now left|].
    destruct (String.eqb_spec t "minor"); [subst; now right; left|].
    destruct (String.eqb_spec t "major"); [subst; now right; right|discriminate H]. }
  destruct E as [-> | [-> | [-> | ->]]].
  all: unfold show_release_preview, type_names; cbn [String.eqb Ascii.eqb Bool.eqb];
    run_monad.
  all: rewrite <- !app_assoc; cbn [app].
  all: eexists; eexists; split; [reflexivity|]; cbn [trace stdin fs spawned].
  all: split; [reflexivity|]; split; [reflexivity|]; auto.
Qed.

Lemma show_release_preview_prints_witness :
  exists w' evs,
    show_release_preview "1.2.3" "1.3.0" (Some "minor")
      (boot "/repo" ["y"] sample_procs sample_files) = (OK tt, w') /\
    trace w' = ([] ++ evs)%list /\ forallb is_output evs = true /\
    stdin w' = ["y"] /\ fs w' = sample_files /\ spawned w' = O.
Proof.
  apply (show_release_preview_prints "1.2.3" "1.3.0" (Some "minor")
           (boot "/repo" ["y"] sample_procs sample_files)).
  reflexivity.
Defined.

(** X18: given a directive that is not empty and not one of the three
    names, [show_release_preview] raises [KeyError] for it, after the two
    version lines were printed. *)
Theorem show_release_preview_unknown_directive :
  forall cur new t w,
    t <> "" -> type_names t = None ->
    exists w',
      show_release_preview cur new (Some t) w = (Err (KeyError t), w') /\
      trace w' = (trace w ++ [Out Header "RELEASE PREVIEW";
                              Out Plain ("Current Version: " ++ cur);
                              Out Plain ("New Version: " ++ new)])%list.
Proof.
  intros cur new t [dir lines pr sp files tr] Ht Hn.
  unfold show_release_preview. rewrite Hn.
  destruct (String.eqb_spec t "") as [E|_]; [contradiction|].
  run_monad. eexists. split; [reflexivity|]. cbn [trace].
  rewrite <- !app_assoc. reflexivity.
Qed.

Lemma show_release_preview_unknown_directive_witness :
  exists w',
    show_release_preview "1.2.3" "1.2.3" (Some "build")
      (boot "/repo" [] sample_procs sample_files) = (Err (KeyError "build"), w') /\
    trace w' = ([] ++ [Out Header "RELEASE PREVIEW";
                       Out Plain ("Current Version: " ++ "1.2.3");
                       Out Plain ("New Version: " ++ "1.2.3")])%list.
Proof.
  apply (show_release_preview_unknown_directive "1.2.3" "1.2.3" "build"
           (boot "/repo" [] sample_procs sample_files)).
  - discriminate.
  - reflexivity.
Defined.

(** ** What happens before the release is confirmed *)

Lemma keeps_fs_try : forall A (m : M A), keeps_fs m -> keeps_fs (try m).
Proof.
  intros A m Hm w r w' H. unfold try in H. destruct (m w) as [r1 w1] eqn:E.
  injection H as _ <-. eapply Hm; eassumption.
Qed.

Lemma keeps_fs_lift : forall A (r : result A), keeps_fs (lift r).
Proof. intros A r w r' w' H. now injection H as _ <-. Qed.

Lemma keeps_fs_load_json : forall p, keeps_fs (load_json p).
Proof.
  intro p. unfold load_json. apply keeps_fs_bind; [apply keeps_fs_emit|].
  intros _ w r w' H. destruct (fs w p) as [f|]; [destruct (content f)|];
    now injection H as _ <-.
Qed.

Lemma read_current_version_keeps_fs : forall p, keeps_fs (try (read_current_version p)).
Proof.
  intro p. apply keeps_fs_try. unfold read_current_version, get_current_version.
  apply keeps_fs_bind.
  - apply keeps_fs_bind; [apply keeps_fs_load_json|intro; apply keeps_fs_lift].
  - intro v. apply keeps_fs_bind; [apply keeps_fs_lift|].
    intros [[major minor] patch]. repeat keeps_fs_step.
Qed.

Lemma ask_choice_keeps_fs : forall fuel, keeps_fs (ask_choice fuel).
Proof.
  induction fuel as [|f IH]; cbn [ask_choice].
  - intros w r w' H. now injection H as _ <-.
  - apply keeps_fs_bind; [apply keeps_fs_input|]. intro line.
    repeat (apply keeps_fs_if; [apply keeps_fs_ret|]).
    apply keeps_fs_bind; [apply keeps_fs_emit|]. intros _. exact IH.
Qed.

Lemma ask_version_increment_keeps_fs : keeps_fs ask_version_increment.
Proof.
  unfold ask_version_increment.
  repeat (apply keeps_fs_bind; [apply keeps_fs_emit|intros _]).
  intros w r w' H. revert H. apply ask_choice_keeps_fs.
Qed.

Lemma show_release_preview_keeps_fs :
  forall cur new increment_type, keeps_fs (show_release_preview cur new increment_type).
Proof.
  intros cur new increment_type. unfold show_release_preview.
  apply keeps_fs_bind; [apply keeps_fs_emit|intros _].
  apply keeps_fs_bind; [apply keeps_fs_emit|intros _].
  apply keeps_fs_bind; [apply keeps_fs_emit|intros _].
  apply keeps_fs_bind; [|intros _; repeat keeps_fs_step].
  destruct increment_type as [t|]; [|apply keeps_fs_emit].
  destruct (String.eqb t ""); [apply keeps_fs_emit|].
  destruct (type_names t); [apply keeps_fs_emit|].
  intros w r w' H. now injection H as _ <-.
Qed.

Lemma confirm_action_keeps_fs : forall question, keeps_fs (confirm_action question).
Proof. intro question. unfold confirm_action. repeat keeps_fs_step. Qed.

Lemma existsb_in :
  forall (P : Event -> bool) e evs, In e evs -> P e = true -> existsb P evs = true.
Proof. intros P e evs Hin HP. apply existsb_exists. now exists e. Qed.

(** Records that a call of [main] before the confirmation left the
    files alone. *)
Ltac fs_kept :=
  repeat match goal with
         | Hc : check_git_status ?w = (_, ?w1) |- _ =>
             lazymatch goal with
             | _ : fs w1 = _ |- _ => fail
             | _ => pose proof (check_git_status_keeps_fs _ _ _ Hc)
             end
         | Hc : check_git_remote ?w = (_, ?w1) |- _ =>
             lazymatch goal with
             | _ : fs w1 = _ |- _ => fail
             | _ => pose proof (check_git_remote_keeps_fs _ _ _ Hc)
             end
         | Hc : try (read_current_version _) ?w = (_, ?w1) |- _ =>
             lazymatch goal with
             | _ : fs w1 = _ |- _ => fail
             | _ => pose proof (read_current_version_keeps_fs _ _ _ _ Hc)
             end
         | Hc : ask_version_increment ?w = (_, ?w1) |- _ =>
             lazymatch goal with
             | _ : fs w1 = _ |- _ => fail
             | _ => pose proof (ask_version_increment_keeps_fs _ _ _ Hc)
             end
         | Hc : show_release_preview _ _ _ ?w = (_, ?w1) |- _ =>
             lazymatch goal with
             | _ : fs w1 = _ |- _ => fail
             | _ => pose proof (show_release_preview_keeps_fs _ _ _ _ _ _ Hc)
             end
         | Hc : confirm_action _ ?w = (_, ?w1) |- _ =>
             lazymatch goal with
             | _ : fs w1 = _ |- _ => fail
             | _ => pose proof (confirm_action_keeps_fs _ _ _ _ Hc)
             end
         end.

(** X19: [main] writes no file before the user has accepted the
    release confirmation: in a run whose record shows no accepted
    confirmation, no file was opened for writing. *)
Theorem main_writes_nothing_unconfirmed :
  forall dir lines outcomes files r w',
    main (boot dir lines outcomes files) = (r, w') ->
    existsb is_release_accepted (trace w') = false ->
    existsb is_write (trace w') = false.
Proof.
  intros dir lines outcomes files r w' H Hn. unfold main in H.
  walk H.
  all: try_returns.
  all: try solve
         [ exfalso;
           repeat match goal with
                  | Hc : confirm_action _ _ = (OK true, _) |- _ =>
                      apply confirm_action_run in Hc;
                      destruct Hc as [(? & Hc & ?)|(Hc & ?)];
                      [injection Hc as Hc; symmetry in Hc|discriminate Hc]
                  end;
           repeat match goal with
                  | Hc : _ _ = (_, _) |- _ => learn_emits any_event Hc
                  end;
           chain_traces;
           rewrite ?existsb_app in Hn; cbn [existsb is_release_accepted] in Hn;
           repeat match goal with
                  | Hy : is_yes _ = true |- _ => rewrite Hy in Hn
                  end;
           cbn [starts_with append Ascii.eqb Bool.eqb andb orb] in Hn;
           rewrite ?orb_true_r in Hn; discriminate Hn ].
  all: repeat match goal with
         | Hc : _ _ = (_, _) |- _ =>
             learn_emits not_write Hc;
             match goal with
             | F : forallb not_write _ = true |- _ => apply not_write_none in F
             end
         end.
  all: chain_traces.
  all: rewrite ?existsb_app.
  all: repeat match goal with
         | E : existsb is_write _ = false |- _ => rewrite E
         end.
  all: reflexivity.
Qed.

Lemma main_writes_nothing_unconfirmed_witness :
  existsb is_write (trace (snd (main (boot "/repo" ["3"; "n"] sample_procs sample_files))))
  = false.
Proof.
  apply (main_writes_nothing_unconfirmed "/repo" ["3"; "n"] sample_procs sample_files
           (fst (main (boot "/repo" ["3"; "n"] sample_procs sample_files)))).
  - apply surjective_pairing.
  - vm_compute. reflexivity.
Defined.

(** ** What a started release leaves behind *)

Lemma string_app_assoc : forall a b c : string, (a ++ b) ++ c = a ++ (b ++ c).
Proof. induction a as [|x a IH]; intros b c; simpl; [reflexivity|now rewrite IH]. Qed.

Lemma string_app_inv_head : forall a b c : string, a ++ b = a ++ c -> b = c.
Proof.
  induction a as [|x a IH]; intros b c H; [exact H|].
  simpl in H. injection H as H. now apply IH.
Qed.

(** The two metadata files are different files. *)
Lemma package_json_is_not_tauri_conf :
  forall dir, package_json_of dir <> tauri_conf_of dir.
Proof.
  intros dir H. unfold package_json_of, tauri_conf_of, joinpath in H.
  destruct (String.eqb dir "/") eqn:E.
  - apply String.eqb_eq in E. subst dir. discriminate H.
  - destruct (String.eqb (dir ++ "/" ++ "src-tauri") "/");
      rewrite ?string_app_assoc in H; apply string_app_inv_head in H; discriminate H.
Qed.

Lemma get_current_version_of_file :
  forall p w f data,
    fs w p = Some f -> content f = Doc data ->
    fst (get_current_version p w) = get_version_field data.
Proof.
  intros p [dir lines pr sp files tr] f data Hf Hc. cbn [fs] in Hf.
  unfold get_current_version, load_json, bind, emit, lift.
  cbn [script_dir stdin procs spawned fs trace]. rewrite Hf, Hc. reflexivity.
Qed.

(** What a successful [update_json_version] leaves in the file system. *)
Lemma update_json_version_written :
  forall p version w w',
    update_json_version p version w = (OK true, w') ->
    (exists f data,
        fs w' p = Some f /\ content f = Doc data /\
        get_version_field data = OK (JStr version)) /\
    (forall q, q <> p -> fs w' q = fs w q).
Proof.
  intros p version w w' H. unfold update_json_version, load_json, dump_json in H.
  exec H.
  all: try discriminate H.
  all: injection H as <-; cbn [fs]; unfold set_file; rewrite String.eqb_refl.
  all: split; [|intros q N; destruct (String.eqb_spec q p); [congruence|reflexivity]].
  all: eexists; eexists; split; [reflexivity|]; split; [reflexivity|].
  all: eapply set_then_get_version; eassumption.
Qed.

Lemma git_add_and_commit_keeps_fs :
  forall files version, keeps_fs (git_add_and_commit files version).
Proof. intros files version. unfold git_add_and_commit. repeat keeps_fs_step. Qed.

Lemma git_create_and_push_tag_keeps_fs :
  forall version, keeps_fs (git_create_and_push_tag version).
Proof.
  intro version. unfold git_create_and_push_tag, create_and_push, confirm_action.
  repeat keeps_fs_step.
Qed.

(** A tag step that returns [True] has pushed the tag. *)
Lemma git_create_and_push_tag_pushed :
  forall version w w',
    git_create_and_push_tag version w = (OK true, w') ->
    exists evs out,
      trace w' = (trace w ++ evs)%list /\
      In (Cmd ["git"; "push"; "origin"; "v" ++ version] true out) evs.
Proof.
  intros version w w' H. unfold git_create_and_push_tag, create_and_push in H.
  exec H.
  all: try discriminate H.
  all: injection H as <-; cbn [trace]; rewrite <- ?app_assoc; cbn [app].
  all: eexists; eexists; split; [reflexivity|].
  all: cbn [In]; repeat (first [left; reflexivity | right]).
Qed.

Lemma not_released_none :
  forall evs, forallb not_released evs = true -> existsb is_released evs = false.
Proof.
  induction evs as [|e evs IH]; intro H; [reflexivity|].
  cbn [forallb] in H. apply andb_true_iff in H as [He Hr].
  cbn [existsb]. rewrite (IH Hr). unfold not_released in He.
  apply negb_true_iff in He. now rewrite He.
Qed.

(** Ends a branch of [main] in which nothing announced a started
    release, against the assumption [Hrel] that something did. *)
Ltac never_released Hrel :=
  exfalso;
  repeat match goal with
         | Hc : _ _ = (_, _) |- _ =>
             learn_emits not_released Hc;
             match goal with
             | F : forallb not_released _ = true |- _ => apply not_released_none in F
             end
         end;
  chain_traces;
  rewrite ?existsb_app in Hrel;
  repeat match goal with
         | E : existsb is_released _ = false |- _ => rewrite E in Hrel
         end;
  cbn [existsb is_released String.eqb Ascii.eqb Bool.eqb orb] in Hrel;
  discriminate Hrel.

(** X20: a run of [main] that announces the started release has left
    the same version in both metadata files and has pushed the tag named
    after this version. *)
Theorem release_is_consistent :
  forall dir lines outcomes files r w',
    main (boot dir lines outcomes files) = (r, w') ->
    existsb is_released (trace w') = true ->
    exists version out,
      fst (get_current_version (package_json_of dir) w') = OK (JStr version) /\
      fst (get_current_version (tauri_conf_of dir) w') = OK (JStr version) /\
      In (Cmd ["git"; "push"; "origin"; "v" ++ version] true out) (trace w').
Proof.
  intros dir lines outcomes files r w' H Hrel. unfold main in H.
  walk H.
  all: try_returns.
  all: try solve [never_released Hrel].
  all: match goal with
       | U1 : update_json_version _ ?v _ = (OK true, ?w1),
         U2 : update_json_version _ ?v ?w1 = (OK true, ?w2),
         A : git_add_and_commit _ _ _ = (_, ?w3),
         T : git_create_and_push_tag _ _ = (OK true, ?w4) |- _ =>
           apply update_json_version_written in U1;
           destruct U1 as [(f1 & d1 & F1 & C1 & G1) _];
           apply update_json_version_written in U2;
           destruct U2 as [(f2 & d2 & F2 & C2 & G2) O2];
           apply git_add_and_commit_keeps_fs in A; rename A into KA;
           pose proof (git_create_and_push_tag_keeps_fs _ _ _ _ T) as K;
           apply git_create_and_push_tag_pushed in T;
           destruct T as (evs & out & KT & P);
           cbn [fs trace] in *;
           exists v, out
       end.
  all: fold (package_json_of dir) in *; fold (tauri_conf_of dir) in *.
  all: split; [|split].
  - rewrite <- G1. apply (get_current_version_of_file _ _ f1); [|exact C1].
    cbn [fs]. rewrite K, KA, O2; [exact F1|apply package_json_is_not_tauri_conf].
  - rewrite <- G2. apply (get_current_version_of_file _ _ f2); [|exact C2].
    cbn [fs]. rewrite K, KA. exact F2.
  - cbn [trace]. rewrite KT. rewrite !in_app_iff. left. left. left. left. now right.
Qed.

Lemma release_is_consistent_witness :
  exists version out,
    fst (get_current_version (package_json_of "/repo")
           (snd (main (boot "/repo" ["2"; "y"] sample_procs sample_files))))
      = OK (JStr version) /\
    fst (get_current_version (tauri_conf_of "/repo")
           (snd (main (boot "/repo" ["2"; "y"] sample_procs sample_files))))
      = OK (JStr version) /\
    In (Cmd ["git"; "push"; "origin"; "v" ++ version] true out)
       (trace (snd (main (boot "/repo" ["2"; "y"] sample_procs sample_files)))).
Proof.
  apply (release_is_consistent "/repo" ["2"; "y"] sample_procs sample_files
           (fst (main (boot "/repo" ["2"; "y"] sample_procs sample_files)))).
  - apply surjective_pairing.
  - vm_compute. reflexivity.
Defined.

(** X21: the version a started release leaves in package.json is the
    version that was there before, as the parser read it, unchanged or
    incremented by one of the three directives. *)
Theorem released_version_is_increment :
  forall dir lines outcomes files members write_error r w',
    main (boot dir lines outcomes files) = (r, w') ->
    files (package_json_of dir) = Some (mkFile (Doc (JObj members)) write_error) ->
    existsb is_released (trace w') = true ->
    exists current major minor patch increment_type,
      dict_get "version" members (JStr "0.0.0") = JStr current /\
      parse_version current = OK (major, minor, patch) /\
      is_directive increment_type = true /\
      fst (get_current_version (package_json_of dir) w') =
        OK (JStr (let '(major', minor', patch') :=
                    increment major minor patch increment_type in
                  format_version major' minor' patch')).
Proof.
  intros dir lines outcomes files members write_error r w' H Hfs Hrel. unfold main in H.
  walk H.
  all: try_returns.
  all: try solve [never_released Hrel].
  all: subst.
  all: match goal with
       | S : check_git_status _ = (_, _),
         R : check_git_remote _ = (_, _),
         V : try (read_current_version _) _ = (_, _),
         I : ask_version_increment _ = (OK ?it, _),
         U1 : update_json_version _ _ _ = (OK true, ?w1),
         U2 : update_json_version _ _ ?w1 = (OK true, ?w2),
         A : git_add_and_commit _ _ _ = (_, ?w3),
         T : git_create_and_push_tag _ _ = (OK true, ?w4) |- _ =>
           apply check_git_status_keeps_fs in S; rename S into KS;
           apply check_git_remote_keeps_fs in R; rename R into KR;
           cbn [fs] in KS, KR;
           eapply read_current_version_run in V;
           [|cbn [fs]; rewrite KR, KS; exact Hfs];
           cbv zeta in V;
           apply ask_version_increment_result in I; rename I into VI;
           apply update_json_version_written in U1;
           destruct U1 as [(f1 & d1 & F1 & C1 & G1) _];
           apply update_json_version_written in U2;
           destruct U2 as [_ O2];
           apply git_add_and_commit_keeps_fs in A; rename A into KA;
           apply git_create_and_push_tag_keeps_fs in T; rename T into KT;
           cbn [fs trace] in *;
           destruct V as [(cur & major & minor & patch & Vs & Vp & Va & _)|(e & _ & Va & _)];
           [injection Va as -> -> -> ->|discriminate Va];
           exists cur, major, minor, patch, it
       end.
  all: fold (package_json_of dir) in *; fold (tauri_conf_of dir) in *.
  all: split; [exact Vs|]; split; [exact Vp|]; split; [exact VI|].
  all: match goal with
       | E : increment _ _ _ _ = _ |- _ => rewrite E
       end.
  all: rewrite <- G1; apply (get_current_version_of_file _ _ f1); [|exact C1].
  all: cbn [fs]; rewrite KT, KA, O2; [exact F1|apply package_json_is_not_tauri_conf].
Qed.

Lemma released_version_is_increment_witness :
  exists current major minor patch increment_type,
    dict_get "version" [("name", JStr "hivecad"); ("version", JStr "1.2.3")] (JStr "0.0.0")
      = JStr current /\
    parse_version current = OK (major, minor, patch) /\
    is_directive increment_type = true /\
    fst (get_current_version (package_json_of "/repo")
           (snd (main (boot "/repo" ["2"; "y"] sample_procs sample_files)))) =
      OK (JStr (let '(major', minor', patch') :=
                  increment major minor patch increment_type in
                format_version major' minor' patch')).
Proof.
  apply (released_version_is_increment "/repo" ["2"; "y"] sample_procs sample_files
           [("name", JStr "hivecad"); ("version", JStr "1.2.3")] None
           (fst (main (boot "/repo" ["2"; "y"] sample_procs sample_files)))).
  - apply surjective_pairing.
  - reflexivity.
  - vm_compute. reflexivity.
Defined.

(** * The claims on reading the version and on the commit *)

(** ** Reading the current version *)

(** The first thing [ask_version_increment] does after the menu is to ask. *)
Lemma ask_version_increment_asks :
  forall w r w',
    ask_version_increment w = (r, w') ->
    exists reply evs,
      trace w' = (trace w ++ evs)%list /\
      forallb silent_on_version evs = true /\
      In (Prompt "Enter your choice (0-3): " reply) evs.
Proof.
  intros [dir lines pr sp files tr] r w' H.
  unfold ask_version_increment, bind, print, emit in H.
  cbn [script_dir stdin procs spawned fs trace] in H.
  cbn [ask_choice] in H.
  apply bind_inv in H. destruct H as [(line & w1 & Hin & H)|(e & Hin & ->)].
  - unfold input in Hin. cbn [stdin script_dir procs spawned fs trace] in Hin.
    destruct lines as [|l rest]; [discriminate|]. injection Hin as <- <-.
    assert (extends silent_on_version
              (mkWorld dir rest pr sp files
                 ((((((tr ++ [Out Plain "What would you like to increment?"]) ++
                      [Out Plain "  0) None (keep current version)"]) ++
                     [Out Plain "  1) Patch version (third number)"]) ++
                    [Out Plain "  2) Minor version (second number)"]) ++
                   [Out Plain "  3) Major version (first number)"]) ++
                  [Prompt "Enter your choice (0-3): " (Some l)])) w') as X.
    { repeat match type of H with
             | (if ?b then _ else _) _ = _ =>
                 destruct b; [injection H as _ <-; apply extends_refl|]
             end.
      revert H. apply emits_bind; [now apply emits_emit|]. intros _.
      apply ask_choice_emits; [intros [?|]; reflexivity|reflexivity]. }
    destruct X as (evs & T & F). cbn [trace] in T.
    exists (Some l). eexists. split; [|split].
    + rewrite T. rewrite <- !app_assoc. reflexivity.
    + cbn [app forallb]. rewrite F. reflexivity.
    + cbn [app In]. do 5 right. now left.
  - unfold input in Hin. cbn [stdin script_dir procs spawned fs trace] in Hin.
    destruct lines as [|l rest]; [|discriminate]. injection Hin as _ <-.
    exists None. eexists. cbn [trace]. split; [|split].
    + rewrite <- !app_assoc. reflexivity.
    + reflexivity.
    + cbn [app In]. do 5 right. now left.
Qed.

Ltac find_in :=
  solve [ eassumption
        | apply in_eq
        | apply in_cons; find_in
        | apply in_or_app; left; find_in
        | apply in_or_app; right; find_in ].


(** With no "version" member, every release confirmation of the run
    offers 0.0.0 or one of its increments. *)
Lemma default_version_offered :
  forall dir lines outcomes files members we r w',
    files (package_json_of dir) = Some (mkFile (Doc (JObj members)) we) ->
    dict_has "version" members = false ->
    main (boot dir lines outcomes files) = (r, w') ->
    forallb offers_default (trace w') = true.
Proof.
  intros dir lines outcomes files members we r w' Hfs Hno H.
  unfold package_json_of in Hfs. unfold main in H.
  walk H.
  all: try_returns.
  all: fs_kept; cbn [fs] in *.
  all: try match goal with
           | Hc : ask_version_increment _ = (OK _, _) |- _ =>
               pose proof (ask_version_increment_result _ _ _ Hc) as Directive;
               cbn beta iota in Directive
           end.
  all: try match goal with
           | Hc : try (read_current_version _) ?w = _ |- _ =>
               eapply read_current_version_run in Hc;
               [|match goal with K : fs w = _ |- _ => rewrite K end;
                 try match goal with K : fs _ = _ |- _ => rewrite K end; exact Hfs];
               cbv zeta in Hc;
               rewrite (dict_get_default "version" members) in Hc by assumption;
               destruct Hc as [(? & ? & ? & ? & Vs & Vp & Va & VT)|(? & Ve & Va & VT)];
               [injection Vs as <-; vm_compute in Vp; injection Vp as <- <- <-
               |vm_compute in Ve; discriminate Ve]
           end.
  all: subst; try discriminate.
  all: repeat match goal with
         | Va : OK _ = OK _ |- _ => injection Va as ? ? ? ?; subst
         end.
  all: repeat match goal with
         | Hc : confirm_action _ _ = _ |- _ =>
             apply confirm_action_run in Hc;
             destruct Hc as [(? & _ & Hc)|(_ & Hc)]
         end.
  all: repeat match goal with
         | Hc : _ _ = (_, _) |- _ => learn_emits offers_default Hc
         end.
  all: chain_traces.
  all: rewrite ?forallb_app.
  all: repeat match goal with
         | F : forallb offers_default _ = true |- _ => rewrite F
         end.
  all: try match goal with
           | D : is_directive ?it = true, E : increment 0 0 0 ?it = _ |- _ =>
               let t := fresh "t" in
               destruct it as [t|];
               [ cbn [is_directive] in D;
                 destruct (String.eqb_spec t "patch") as [->|_];
                 [|destruct (String.eqb_spec t "minor") as [->|_];
                   [|destruct (String.eqb_spec t "major") as [->|_];
                     [|discriminate D]]]
               | ];
               vm_compute in E; injection E as <- <- <-
           end.
  all: reflexivity.
Qed.

Lemma forallb_in :
  forall (P : Event -> bool) evs e, forallb P evs = true -> In e evs -> P e = true.
Proof. intros P evs e H Hin. rewrite forallb_forall in H. now apply H. Qed.

Lemma not_read_in :
  forall evs p, forallb not_read evs = true -> ~ In (ReadFile p) evs.
Proof. intros evs p H Hin. apply (forallb_in _ _ _ H) in Hin. discriminate Hin. Qed.

(** With no "version" member, a run that reads package.json reports
    0.0.0 as the current version and goes on to ask for the increment. *)
Lemma default_version_proceeds :
  forall dir lines outcomes files members we r w',
    files (package_json_of dir) = Some (mkFile (Doc (JObj members)) we) ->
    dict_has "version" members = false ->
    main (boot dir lines outcomes files) = (r, w') ->
    In (ReadFile (package_json_of dir)) (trace w') ->
    In (Out Success "Current version: 0.0.0") (trace w') /\
    exists reply, In (Prompt "Enter your choice (0-3): " reply) (trace w').
Proof.
  intros dir lines outcomes files members we r w' Hfs Hno H Hread.
  unfold package_json_of in *. unfold main in H.
  walk H.
  all: try_returns.
  all: fs_kept; cbn [fs] in *.
  all: try match goal with
           | Hc : try (read_current_version _) ?w = _ |- _ =>
               eapply read_current_version_run in Hc;
               [|match goal with K : fs w = _ |- _ => rewrite K end;
                 try match goal with K : fs _ = _ |- _ => rewrite K end; exact Hfs];
               cbv zeta in Hc;
               rewrite (dict_get_default "version" members) in Hc by assumption;
               destruct Hc as [(? & ? & ? & ? & Vs & Vp & Va & VT)|(? & Ve & Va & VT)];
               [injection Vs as <-|vm_compute in Ve; discriminate Ve]
           end.
  all: try match goal with
           | Hc : ask_version_increment _ = _ |- _ =>
               let reply := fresh "reply" in
               let evs := fresh "evs" in
               let T := fresh "T" in
               let A := fresh "Asked" in
               apply ask_version_increment_asks in Hc;
               destruct Hc as (reply & evs & T & _ & A); cbn [trace] in T
           end.
  all: try match goal with
           | Va : _ = OK _, E : _ = Err _ |- _ => rewrite E in Va; discriminate Va
           end.
  all: repeat match goal with
         | Hc : _ _ = (_, _) |- _ =>
             first [learn_emits not_read Hc | learn_emits any_event Hc]
         end.
  all: chain_traces.
  all: first
         [ match goal with
           | A : In (Prompt _ ?reply) _ |- _ =>
               split; [find_in|exists reply; find_in]
           end
         | exfalso;
           repeat (apply in_app_or in Hread; destruct Hread as [Hread|Hread]);
           solve [ match goal with
                   | F : forallb not_read ?evs = true, Hr : In _ ?evs |- _ =>
                       exact (not_read_in _ _ F Hr)
                   end
                 | cbn [In] in Hread; intuition discriminate ] ].
Qed.





(** ** The record of commands and the subprocesses *)

Lemma run_flags_S :
  forall outcomes n,
    run_flags outcomes (S n) = (run_flags outcomes n ++ [completed (outcomes n)])%list.
Proof.
  intros outcomes n. unfold run_flags. rewrite seq_S, map_app. reflexivity.
Qed.

Lemma synced_on_quiet :
  forall outcomes n evs e,
    cmds_of [e] = [] -> synced_on outcomes n evs -> synced_on outcomes n (evs ++ [e]).
Proof.
  intros outcomes n evs e He H. unfold synced_on in *.
  now rewrite cmds_of_app, He, app_nil_r.
Qed.

Lemma syncs_ret : forall A (a : A), syncs (ret a).
Proof. intros A a w r w' H. injection H as _ <-. auto. Qed.

Lemma syncs_raise : forall A e, syncs (@raise A e).
Proof. intros A e w r w' H. injection H as _ <-. auto. Qed.

Lemma syncs_lift : forall A (x : result A), syncs (lift x).
Proof. intros A x w r w' H. injection H as _ <-. auto. Qed.

Lemma syncs_bind :
  forall A B (m : M A) (k : A -> M B),
    syncs m -> (forall a, syncs (k a)) -> syncs (bind m k).
Proof.
  intros A B m k Hm Hk w r w' H.
  destruct (bind_inv _ _ _ _ _ _ _ H) as [(a & w1 & H1 & H2)|(e & H1 & _)].
  - destruct (Hm _ _ _ H1) as [P1 S1]. destruct (Hk _ _ _ _ H2) as [P2 S2].
    split; [congruence|auto].
  - exact (Hm _ _ _ H1).
Qed.

Lemma syncs_try : forall A (m : M A), syncs m -> syncs (try m).
Proof.
  intros A m Hm w r w' H. unfold try in H. destruct (m w) as [r1 w1] eqn:E.
  injection H as _ <-. exact (Hm _ _ _ E).
Qed.

Lemma syncs_emit : forall e, cmds_of [e] = [] -> syncs (emit e).
Proof.
  intros e He w r w' H. injection H as _ <-. split; [reflexivity|].
  unfold synced. cbn [procs spawned trace]. now apply synced_on_quiet.
Qed.

Lemma syncs_input : forall prompt, syncs (input prompt).
Proof.
  intros prompt w r w' H. unfold input in H.
  destruct (stdin w); injection H as _ <-; (split; [reflexivity|]);
    unfold synced; cbn [procs spawned trace]; now apply synced_on_quiet.
Qed.

Lemma syncs_spawn : forall cmd, syncs (spawn cmd).
Proof.
  intros cmd w r w' H. injection H as _ <-. split; [reflexivity|].
  unfold synced, synced_on. cbn [procs spawned trace]. intro S.
  rewrite cmds_of_app, map_app, S, run_flags_S. cbn [cmds_of flat_map app map snd].
  now rewrite run_result_ok.
Qed.

Lemma syncs_path_exists : forall p, syncs (path_exists p).
Proof. intros p w r w' H. injection H as _ <-. auto. Qed.

Lemma syncs_load_json : forall p, syncs (load_json p).
Proof.
  intro p. unfold load_json. apply syncs_bind; [now apply syncs_emit|].
  intros _ w r w' H. destruct (fs w p) as [f|]; [destruct (content f)|];
    injection H as _ <-; auto.
Qed.

Lemma syncs_dump_json : forall p data, syncs (dump_json p data).
Proof.
  intros p data w r w' H. unfold dump_json in H.
  destruct (fs w p) as [[c [msg|]]|]; injection H as _ <-; (split; [reflexivity|]);
    unfold synced; cbn [procs spawned trace]; now apply synced_on_quiet.
Qed.

Lemma syncs_if :
  forall A (b : bool) (m1 m2 : M A), syncs m1 -> syncs m2 -> syncs (if b then m1 else m2).
Proof. intros A [] m1 m2 H1 H2; assumption. Qed.

Lemma syncs_run_command : forall cmd d, syncs (run_command cmd d).
Proof.
  intros cmd d. unfold run_command. apply syncs_bind.
  - apply syncs_if; [apply syncs_ret|now apply syncs_emit].
  - intros _. apply syncs_spawn.
Qed.

Ltac syncs_step :=
  lazymatch goal with
  | |- syncs (bind _ _) => apply syncs_bind; [|intro]
  | |- syncs (ret _) => apply syncs_ret
  | |- syncs (raise _) => apply syncs_raise
  | |- syncs (lift _) => apply syncs_lift
  | |- syncs (try _) => apply syncs_try
  | |- syncs (print_header _) => apply syncs_emit; reflexivity
  | |- syncs (print_success _) => apply syncs_emit; reflexivity
  | |- syncs (print_info _) => apply syncs_emit; reflexivity
  | |- syncs (print_warning _) => apply syncs_emit; reflexivity
  | |- syncs (print_error _) => apply syncs_emit; reflexivity
  | |- syncs (print _) => apply syncs_emit; reflexivity
  | |- syncs (input _) => apply syncs_input
  | |- syncs (run_command _ _) => apply syncs_run_command
  | |- syncs (path_exists _) => apply syncs_path_exists
  | |- syncs (load_json _) => apply syncs_load_json
  | |- syncs (dump_json _ _) => apply syncs_dump_json
  | |- syncs (if _ then _ else _) => apply syncs_if
  | |- syncs (match ?x with (_, _) => _ end) => destruct x
  | |- syncs (match ?x with OK _ => _ | Err _ => _ end) => destruct x
  | |- syncs (match ?x with Some _ => _ | None => _ end) => destruct x
  end.

Lemma ask_choice_syncs : forall fuel, syncs (ask_choice fuel).
Proof.
  induction fuel as [|f IH]; cbn [ask_choice].
  - apply syncs_raise.
  - apply syncs_bind; [apply syncs_input|]. intro line.
    repeat (apply syncs_if; [apply syncs_ret|]).
    apply syncs_bind; [now apply syncs_emit|]. intros _. exact IH.
Qed.

Lemma ask_version_increment_syncs : syncs ask_version_increment.
Proof.
  unfold ask_version_increment.
  repeat (apply syncs_bind; [now apply syncs_emit|intros _]).
  intros w r w' H. revert H. apply ask_choice_syncs.
Qed.

Lemma main_step_syncs :
  syncs check_git_status /\ syncs check_git_remote /\
  (forall p, syncs (try (read_current_version p))) /\
  (forall cur new it, syncs (show_release_preview cur new it)) /\
  (forall q, syncs (confirm_action q)) /\
  (forall p v, syncs (update_json_version p v)) /\
  (forall files v, syncs (git_add_and_commit files v)) /\
  (forall v, syncs (git_create_and_push_tag v)).
Proof.
  repeat match goal with |- _ /\ _ => split end; intros;
    unfold check_git_status, commit_pending_changes, check_git_remote,
      read_current_version, get_current_version, show_release_preview,
      update_json_version, git_add_and_commit, git_create_and_push_tag,
      create_and_push, confirm_action;
    repeat syncs_step.
Qed.

Ltac syncs_call :=
  first [ apply ask_version_increment_syncs
        | apply main_step_syncs
        | syncs_step ].

Lemma main_syncs : syncs main.
Proof.
  unfold main. apply syncs_bind; [apply syncs_emit; reflexivity|].
  intros _ w r w' H. cbv beta zeta in H.
  set (dir := script_dir w) in H. clearbody dir.
  match type of H with
  | ?m w = _ => assert (syncs m) as Sm; [|exact (Sm _ _ _ H)]
  end.
  clear H. repeat syncs_call.
Qed.

Lemma main_synced :
  forall dir lines outcomes files r w',
    main (boot dir lines outcomes files) = (r, w') ->
    synced_on outcomes (spawned w') (trace w').
Proof.
  intros dir lines outcomes files r w' H.
  destruct (main_syncs _ _ _ H) as [P S].
  unfold synced in S. rewrite P in S. apply S. reflexivity.
Qed.

(** ** The repository after a run *)

Lemma repo_after_app :
  forall a b r, repo_after (a ++ b) r = repo_after b (repo_after a r).
Proof. intros a b r. apply fold_left_app. Qed.

Lemma repo_after_quiet :
  forall evs r, forallb no_repo_effect evs = true -> repo_after evs r = r.
Proof.
  induction evs as [|e evs IH]; intros r H; [reflexivity|].
  cbn [forallb] in H. apply andb_prop in H. destruct H as [He H].
  cbn [repo_after fold_left]. fold (repo_after evs (repo_step r e)).
  rewrite IH by exact H.
  destruct e as [k t|t reply|cmd ok out|p|p [d|]]; try reflexivity; try discriminate He.
  destruct ok; [|reflexivity]. cbn [repo_step]. unfold git_effect.
  cbn [no_repo_effect] in He. apply negb_true_iff in He.
  destruct (String.eqb (nth 0 cmd "") "git"); cbn [andb] in *;
    [|now rewrite !andb_false_r].
  apply orb_false_iff in He. destruct He as [-> ->]. now rewrite !andb_false_r.
Qed.

Lemma no_repo_effect_no_write :
  forall evs, forallb no_repo_effect evs = true -> writes_of evs = [].
Proof.
  induction evs as [|e evs IH]; intro H; [reflexivity|].
  cbn [forallb] in H. apply andb_prop in H. destruct H as [He H].
  cbn [writes_of flat_map]. fold (writes_of evs). rewrite IH by exact H.
  destruct e as [k t|t reply|cmd ok out|p|p [d|]]; try reflexivity; discriminate He.
Qed.

Lemma repo_after_cmds :
  forall evs r, writes_of evs = [] -> repo_after evs r = fold_left cmd_step (cmds_of evs) r.
Proof.
  induction evs as [|e evs IH]; intros r H; [reflexivity|].
  cbn [repo_after fold_left]. fold (repo_after evs (repo_step r e)).
  destruct e as [k t|t reply|cmd ok out|p|p [d|]]; try discriminate H;
    cbn [cmds_of flat_map app fold_left]; fold (cmds_of evs);
    rewrite IH by exact H; reflexivity.
Qed.

Lemma listed_stage : forall p l, listed p (stage p l) = true.
Proof.
  intros p l. unfold stage. destruct (listed p l) eqn:E; [exact E|].
  unfold listed. rewrite existsb_app. cbn. now rewrite String.eqb_refl, !orb_true_r.
Qed.

Lemma listed_stage_other : forall p q l, listed p l = true -> listed p (stage q l) = true.
Proof.
  intros p q l H. unfold stage. destruct (listed q l); [exact H|].
  unfold listed in *. now rewrite existsb_app, H.
Qed.

(** The staging and the commit of the release, after the two files were
    written: the commit holds the two files and what was staged before. *)
Lemma release_commit_effect :
  forall p1 p2 msg r,
    let written := mkRepo (staged r) (stage p2 (stage p1 (unstaged r))) (commits r) in
    let done := git_effect ["git"; "commit"; "-m"; msg] (git_effect ["git"; "add"; p1; p2] written) in
    commits done = (commits r ++ [(msg, stage_all [p1; p2] (staged r))])%list /\
    staged done = [].
Proof.
  intros p1 p2 msg r. unfold git_effect. cbn -[listed stage stage_all].
  rewrite listed_stage_other by apply listed_stage. rewrite listed_stage.
  split; reflexivity.
Qed.

Lemma stage_all_two :
  forall p1 p2 : string, p1 <> p2 -> stage_all [p1; p2] [] = [p1; p2].
Proof.
  intros p1 p2 H. unfold stage_all, stage, listed. cbn.
  apply String.eqb_neq in H. rewrite String.eqb_sym in H. now rewrite H.
Qed.

Lemma no_add_all :
  forall evs, forallb no_repo_effect evs = true -> existsb is_add_all evs = false.
Proof.
  induction evs as [|e evs IH]; intro H; [reflexivity|].
  cbn [forallb] in H. apply andb_prop in H. destruct H as [He H].
  cbn [existsb]. rewrite IH by exact H. rewrite orb_false_r.
  destruct e as [k t|t reply|cmd ok out|p|p [d|]]; try reflexivity.
  cbn [no_repo_effect] in He. apply negb_true_iff in He.
  cbn [is_add_all]. unfold add_all_cmd. cbn [fst snd].
  destruct (String.eqb (nth 0 cmd "") "git"); cbn [andb] in *;
    [|now rewrite !andb_false_r].
  apply orb_false_iff in He. destruct He as [-> _]. now rewrite !andb_false_r.
Qed.

Lemma add_all_cmds :
  forall evs, existsb is_add_all evs = existsb add_all_cmd (cmds_of evs).
Proof.
  induction evs as [|e evs IH]; [reflexivity|].
  cbn [existsb cmds_of flat_map]. fold (cmds_of evs). rewrite existsb_app, <- IH.
  destruct e as [k t|t reply|cmd ok out|p|p [d|]]; cbn [existsb is_add_all app orb];
    try reflexivity.
  now rewrite orb_false_r.
Qed.

(** When [check_git_status] lets the run go on, the index is as before,
    or empty after the commit of the pending changes. *)
Lemma check_git_status_index :
  forall w r w',
    check_git_status w = (r, w') ->
    exists evs,
      trace w' = (trace w ++ evs)%list /\ writes_of evs = [] /\
      (r = OK true ->
       forall repo, staged (repo_after evs repo) = index_before evs repo).
Proof.
  intros w r w' H.
  unfold check_git_status, commit_pending_changes, confirm_action in H. exec H.
  all: finish H; eexists; (split; [reflexivity|]); (split; [reflexivity|]).
  all: intro R; try discriminate R; intro repo; reflexivity.
Qed.

Lemma release_commit_holds :
  forall dir lines outcomes files r w' p1 j1 p2 j2 add msg rest repo0,
    main (boot dir lines outcomes files) = (r, w') ->
    writes_of (trace w') = [(p1, j1); (p2, j2)] ->
    cmds_of (after_writes (trace w'))
    = (add, true) :: (["git"; "commit"; "-m"; msg], true) :: rest ->
    exists earlier paths,
      commits (repo_after (trace w') repo0) = (earlier ++ [(msg, paths)])%list /\
      paths = stage_all [p1; p2] (index_before (trace w') repo0).
Proof.
  intros dir lines outcomes files r w' p1 j1 p2 j2 add msg rest repo0 H Hw Hc.
  unfold main in H. walk H.
  all: try match goal with
           | Hs : check_git_status _ = _ |- _ =>
               apply check_git_status_index in Hs;
               destruct Hs as (evs0 & T0 & W0 & I0); cbn [trace] in T0
           end.
  all: update_calls; try commit_call.
  all: repeat match goal with
              | Hq : _ = (_, _) |- _ => learn_emits no_repo_effect Hq
              end.
  all: repeat match goal with
              | F : forallb no_repo_effect ?evs = true |- _ =>
                  lazymatch goal with
                  | _ : writes_of evs = [] |- _ => fail
                  | _ => pose proof (no_repo_effect_no_write _ F)
                  end
              end.
  all: chain_traces.
  all: repeat rewrite writes_of_app in Hw.
  all: repeat match goal with E : writes_of _ = [] |- _ => rewrite E in Hw end.
  all: cbn in Hw; try discriminate Hw.
  all: injection Hw as <- <- <- <-.
  all: repeat (rewrite after_writes_app in Hc by (assumption || reflexivity)).
  all: rewrite after_writes_update in Hc.
  all: repeat rewrite cmds_of_app in Hc.
  all: match goal with C : cmds_of _ = _ |- _ => rewrite C in Hc end.
  all: cbn in Hc; try discriminate Hc.
  all: injection Hc as ? ? ?; subst.
  all: unfold index_before at 1; repeat rewrite existsb_app.
  all: repeat rewrite repo_after_app.
  all: repeat match goal with
              | F : forallb no_repo_effect ?evs = true |- _ =>
                  rewrite (repo_after_quiet evs _ F), (no_add_all evs F); clear F
              end.
  all: match goal with
       | C : cmds_of ?evs = _, Wr : writes_of ?evs = [] |- _ =>
           rewrite (repo_after_cmds evs _ Wr), (add_all_cmds evs), C
       end.
  all: cbn [existsb is_add_all add_all_cmd fst snd List.length Nat.eqb andb orb].
  all: rewrite ?orb_false_r.
  all: cbn [fold_left cmd_step fst snd app].
  all: repeat match goal with
              | |- context [repo_after (?x :: ?l) ?r] =>
                  change (repo_after (x :: l) r) with (repo_after l (repo_step r x));
                  cbn [repo_step]
              | |- context [repo_after [] ?r] => change (repo_after [] r) with r
              end.
  all: cbn [staged unstaged commits].
  all: match goal with
       | |- context [commits (git_effect ["git"; "commit"; "-m"; ?m]
                                (git_effect ["git"; "add"; ?a; ?b]
                                   (mkRepo (staged ?R) _ _)))] =>
           destruct (release_commit_effect a b m R) as [Ec _];
           cbv zeta in Ec;
           exists (commits R), (stage_all [a; b] (staged R));
           split; [exact Ec|]; clear Ec
       end.
  all: f_equal.
  all: match goal with
       | I0 : OK true = OK true -> _ |- _ => exact (I0 eq_refl _)
       end.
Qed.

(** ** The commit step *)

(** The two writes of a run and the commands that follow them. *)
Lemma release_commands :
  forall dir lines outcomes files r w' p1 j1 p2 j2,
    main (boot dir lines outcomes files) = (r, w') ->
    writes_of (trace w') = [(p1, j1); (p2, j2)] ->
    exists version,
      p1 = package_json_of dir /\ p2 = tauri_conf_of dir /\
      get_version_field j1 = OK (JStr version) /\
      get_version_field j2 = OK (JStr version) /\
      staged_and_committed [p1; p2] version (cmds_of (after_writes (trace w'))) r.
Proof.
  intros dir lines outcomes files r w' p1 j1 p2 j2 H Hw. unfold main in H.
  walk H.
  all: update_calls; try commit_call; quiet_calls; chain_traces.
  all: repeat rewrite writes_of_app in Hw.
  all: repeat match goal with E : writes_of _ = [] |- _ => rewrite E in Hw end.
  all: cbn in Hw; try discriminate Hw.
  all: injection Hw as <- <- <- <-.
  all: eexists; (split; [reflexivity|]); (split; [reflexivity|]);
       (split; [eassumption|]); (split; [eassumption|]).
  all: repeat (rewrite after_writes_app by (assumption || reflexivity)).
  all: rewrite after_writes_update.
  all: repeat rewrite cmds_of_app.
  all: match goal with C : cmds_of _ = _ |- _ => rewrite C end.
  all: cbn; auto; repeat split; discriminate.
Qed.




